(** * The DMU buffer cache (dbuf.c): a shallow embedding

    The development follows [dbuf.c] function by function.  A dbuf and
    its dirty records are records, ARC buffers live in a store indexed
    by their address (so that two dirty records, or a dirty record and
    the frontend, can share one), and the code that mutates the dbuf is
    written in a state-and-error monad.

    What is embedded is the non-debug build: [ASSERT], [ASSERT3U],
    [DBUF_VERIFY], [DEBUG_COUNTER_INC] and [dprintf] expand to nothing
    unless [ZFS_DEBUG] is defined.  The assertions a property depends on
    are embedded separately, as boolean predicates, and are either
    assumed (where they state the caller's contract) or proved (where
    they state an invariant the code maintains).  [VERIFY] is always
    compiled in.  The program runs one thread at a time: a mutex is not
    modelled, and a thread that would sleep on a condition variable with
    nobody to wake it is reported as blocked. *)

From Stdlib Require Import ZArith Lia Bool List Sorted.
From stdpp Require Import base option list gmap strings sorting.

Local Open Scope Z_scope.

(** ** C integers *)

(** [uint64_t] arithmetic wraps modulo 2^64. *)
Definition wrap_u64 (z : Z) : Z := z mod 2 ^ 64.

(** [int] is 32 bits, two's complement. *)
Definition wrap_int (z : Z) : Z := (z + 2 ^ 31) mod 2 ^ 32 - 2 ^ 31.

Definition INT_MAX : Z := 2 ^ 31 - 1.

(** The [MIN] and [MAX] macros. *)
Definition MIN (a b : Z) : Z := if a <? b then a else b.
Definition MAX (a b : Z) : Z := if a <? b then b else a.

(** [IN_RANGE(x, val, y)]: [(val) >= (x) && (val) <= (y)]. *)
Definition IN_RANGE (x val y : Z) : bool := (x <=? val) && (val <=? y).

(** ** What the absent headers declare *)

(** The enumerators of [dbuf_states_t]. *)
Inductive dbuf_states_t : Set :=
  | ST_UNCACHED | ST_FILL | ST_NOFILL | ST_READ
  | ST_CACHED | ST_EVICTING | ST_PARTIAL.

#[global] Instance dbuf_states_eq_dec : EqDecision dbuf_states_t.
Proof. solve_decision. Defined.

(** The constants of [sys/dbuf.h], [sys/dmu.h] and [sys/spa.h] the code
    uses.  Those headers are not part of the sources at hand, so the
    values are parameters.  What is required of them is what the code
    relies on: the states are distinct single bits of an [int] (they
    are combined with [|] and tested with [&]), the block sizes are
    powers of two that fit an [int], and the two reserved block ids are
    distinct 64-bit values. *)
Class dbuf_headers : Type := {
  state_bit : dbuf_states_t → Z;
  state_bit_range : ∀ s, 0 ≤ state_bit s < 31;
  state_bit_inj : ∀ s t, state_bit s = state_bit t → s = t;
  SPA_MINBLOCKSHIFT : Z;
  SPA_MAXBLOCKSHIFT : Z;
  spa_shift_range : 0 ≤ SPA_MINBLOCKSHIFT ≤ SPA_MAXBLOCKSHIFT ∧ SPA_MAXBLOCKSHIFT < 31;
  DMU_BONUS_BLKID : Z;
  DMU_SPILL_BLKID : Z;
  dmu_blkid_range : 0 ≤ DMU_BONUS_BLKID < 2 ^ 64 ∧ 0 ≤ DMU_SPILL_BLKID < 2 ^ 64;
  dmu_blkid_distinct : DMU_BONUS_BLKID ≠ DMU_SPILL_BLKID;
  DMU_META_DNODE_OBJECT : Z;
  SPA_BLKPTRSHIFT : Z;
  DN_MAX_BONUSLEN : Z;
  dn_max_bonuslen_range : 0 ≤ DN_MAX_BONUSLEN < 2 ^ 31;
  EIO : Z;
  ENOTSUP : Z;
  errno_nonzero : EIO ≠ 0 ∧ ENOTSUP ≠ 0
}.

(** ** Data model *)

(** Addresses.  An [arc_buf_t *] and the [b_data] it points to are the
    same key of the buffer store; [None] is [NULL]. *)
Definition ptr : Type := option nat.

(** An ARC buffer: its bytes ([b_data], [arc_buf_size] of them) and
    whether the ARC holds it anonymously ([arc_released]). *)
Record arc_buf_t : Type := mk_arc_buf {
  b_data : list Byte.byte;
  b_released : bool
}.

(** [dbuf_dirty_range_t]; the C fields are [start], [end] and [size]. *)
Record dbuf_dirty_range_t : Type := mk_range {
  rg_start : Z;
  rg_end : Z;
  rg_size : Z
}.

Inductive override_states_t : Set :=
  | DR_NOT_OVERRIDDEN | DR_IN_DMU_SYNC | DR_OVERRIDDEN.

#[global] Instance override_states_eq_dec : EqDecision override_states_t.
Proof. solve_decision. Defined.

(** [dbuf_dirty_record_t].  [dr_addr] is the address [kmem_zalloc]
    returned, by which the code compares records.  [dr_data],
    [write_ranges] and the override fields are those of [dt.dl];
    [dr_overridden_by_hole] is [BP_IS_HOLE(&dr->dt.dl.dr_overridden_by)].
    The links to the parent's dirty record ([dr_parent], [dr_dirty_node],
    [dt.di]) belong to lists this file only hands to the dnode layer and
    are left out. *)
Record dbuf_dirty_record_t : Type := mk_dr {
  dr_addr : nat;
  dr_txg : Z;
  dr_zio : ptr;
  dr_override_zio : ptr;
  dr_data : ptr;
  write_ranges : list dbuf_dirty_range_t;
  dr_override_state : override_states_t;
  dr_nopwrite : bool;
  dr_overridden_by_hole : bool
}.

(** A block pointer, as far as this file looks into it. *)
Record blkptr_t : Type := mk_bp {
  bp_is_hole : bool;
  blk_birth : Z
}.

(** [dmu_buf_impl_t]; [db_object], [db_size] and [db_data] are the
    fields of the embedded [dmu_buf_t db].  [db_dirty_records] is
    newest first, [db_data_pending] holds the address of a dirty
    record, [db_user] is a pointer with [0] for [NULL]. *)
Record dmu_buf_impl_t : Type := mk_db {
  db_object : Z;
  db_size : Z;
  db_data : ptr;
  db_level : Z;
  db_blkid : Z;
  db_state : Z;
  db_buf : ptr;
  db_blkptr : option blkptr_t;
  db_holds : Z;
  db_dirtycnt : Z;
  db_dirty_records : list dbuf_dirty_record_t;
  db_data_pending : ptr;
  db_user : Z;
  db_immediate_evict : bool;
  db_freed_in_flight : bool;
  db_buf_sets : list nat
}.

(** The fields of the dbuf's [dnode_t] ([DB_DNODE(db)]) the embedded
    code reads or writes; [dn_phys_bonuslen] and [dn_phys_bonus] are
    [dn_phys->dn_bonuslen] and the bytes at [DN_BONUS(dn_phys)]. *)
Record dnode_t : Type := mk_dn {
  dn_object : Z;
  dn_maxblkid : Z;
  dn_indblkshift : Z;
  dn_have_spill : bool;
  dn_bonuslen : Z;
  dn_phys_bonuslen : Z;
  dn_phys_bonus : list Byte.byte
}.

(** Of a [dmu_tx_t] the code reads the transaction group. *)
Record dmu_tx_t : Type := mk_tx {
  tx_txg : Z
}.

(** A [zio_t] is known by its address and its [io_error]. *)
Record zio_t : Type := mk_zio {
  io_addr : nat;
  io_error : Z
}.

(** Calls that leave this file, and the DTrace probe of
    [DBUF_STATE_CHANGE], in the order they happen. *)
Inductive event : Type :=
  | EvStateChange (state : Z) (why : string)
  | EvArcRead (cached_only : bool)
  | EvArcBufFreeze (buf : nat)
  | EvArcBufThaw (buf : nat)
  | EvArcRelease (buf : nat)
  | EvArcDiscardBuf (buf : nat)
  | EvArcBufRemoveRef (buf : nat)
  | EvArcSetCallback (buf : nat)
  | EvArcBufEvict (buf : nat)
  | EvZioBufFree (buf : nat)
  | EvZioNowait (zio : nat)
  | EvZioFree (txg : Z)
  | EvBufSetRele (buf_set : nat) (err : Z)
  | EvCvBroadcast
  | EvUserEvict (user : Z)
  | EvDirtyParent (dr : nat) (txg : Z)
  | EvDbufDestroy.

(** The answers of the collaborators.  [env_arc_cached]: what
    [arc_read] finds in the ARC for the block of the dbuf (its bytes are
    handed to the [done] callback before [arc_read] returns), or that
    the read has to be queued.  [env_disk] and [env_read_error]: what a
    queued read ends with.  [env_block_freed]: [dnode_block_freed].
    [env_cacheable]: [DBUF_IS_CACHEABLE].  [env_eviction_needed]:
    [arc_buf_eviction_needed].  [env_uninit]: the byte that fills
    memory the allocator hands out. *)
Record environment : Type := mk_env {
  env_arc_cached : option (list Byte.byte);
  env_disk : list Byte.byte;
  env_read_error : Z;
  env_block_freed : bool;
  env_cacheable : bool;
  env_eviction_needed : bool;
  env_uninit : Byte.byte
}.

(** The state the code runs in: the dbuf at hand, its dnode, the ARC
    buffers, the dirty records that are allocated but on no list yet
    (or no more), the next free address, the calls made so far (newest
    first), the read [arc_read] has queued and that has not completed
    yet, the global counter [dirty_writes_lost], and the environment's
    answers. *)
Record world : Type := mk_world {
  w_db : dmu_buf_impl_t;
  w_dn : dnode_t;
  w_arc : gmap nat arc_buf_t;
  w_kmem : list dbuf_dirty_record_t;
  w_brk : nat;
  w_log : list event;
  w_io_queued : option nat;
  dirty_writes_lost : Z;
  w_env : environment
}.

(** ** Field updates *)

Definition set_b_data v (r : arc_buf_t) : arc_buf_t :=
  mk_arc_buf v (b_released r).
Definition set_b_released v (r : arc_buf_t) : arc_buf_t :=
  mk_arc_buf (b_data r) v.
Definition set_rg_start v (r : dbuf_dirty_range_t) : dbuf_dirty_range_t :=
  mk_range v (rg_end r) (rg_size r).
Definition set_rg_end v (r : dbuf_dirty_range_t) : dbuf_dirty_range_t :=
  mk_range (rg_start r) v (rg_size r).
Definition set_rg_size v (r : dbuf_dirty_range_t) : dbuf_dirty_range_t :=
  mk_range (rg_start r) (rg_end r) v.
Definition set_dr_addr v (r : dbuf_dirty_record_t) : dbuf_dirty_record_t :=
  mk_dr v (dr_txg r) (dr_zio r) (dr_override_zio r) (dr_data r) (write_ranges r) (dr_override_state r) (dr_nopwrite r) (dr_overridden_by_hole r).
Definition set_dr_txg v (r : dbuf_dirty_record_t) : dbuf_dirty_record_t :=
  mk_dr (dr_addr r) v (dr_zio r) (dr_override_zio r) (dr_data r) (write_ranges r) (dr_override_state r) (dr_nopwrite r) (dr_overridden_by_hole r).
Definition set_dr_zio v (r : dbuf_dirty_record_t) : dbuf_dirty_record_t :=
  mk_dr (dr_addr r) (dr_txg r) v (dr_override_zio r) (dr_data r) (write_ranges r) (dr_override_state r) (dr_nopwrite r) (dr_overridden_by_hole r).
Definition set_dr_override_zio v (r : dbuf_dirty_record_t) : dbuf_dirty_record_t :=
  mk_dr (dr_addr r) (dr_txg r) (dr_zio r) v (dr_data r) (write_ranges r) (dr_override_state r) (dr_nopwrite r) (dr_overridden_by_hole r).
Definition set_dr_data v (r : dbuf_dirty_record_t) : dbuf_dirty_record_t :=
  mk_dr (dr_addr r) (dr_txg r) (dr_zio r) (dr_override_zio r) v (write_ranges r) (dr_override_state r) (dr_nopwrite r) (dr_overridden_by_hole r).
Definition set_write_ranges v (r : dbuf_dirty_record_t) : dbuf_dirty_record_t :=
  mk_dr (dr_addr r) (dr_txg r) (dr_zio r) (dr_override_zio r) (dr_data r) v (dr_override_state r) (dr_nopwrite r) (dr_overridden_by_hole r).
Definition set_dr_override_state v (r : dbuf_dirty_record_t) : dbuf_dirty_record_t :=
  mk_dr (dr_addr r) (dr_txg r) (dr_zio r) (dr_override_zio r) (dr_data r) (write_ranges r) v (dr_nopwrite r) (dr_overridden_by_hole r).
Definition set_dr_nopwrite v (r : dbuf_dirty_record_t) : dbuf_dirty_record_t :=
  mk_dr (dr_addr r) (dr_txg r) (dr_zio r) (dr_override_zio r) (dr_data r) (write_ranges r) (dr_override_state r) v (dr_overridden_by_hole r).
Definition set_dr_overridden_by_hole v (r : dbuf_dirty_record_t) : dbuf_dirty_record_t :=
  mk_dr (dr_addr r) (dr_txg r) (dr_zio r) (dr_override_zio r) (dr_data r) (write_ranges r) (dr_override_state r) (dr_nopwrite r) v.
Definition set_db_object v (r : dmu_buf_impl_t) : dmu_buf_impl_t :=
  mk_db v (db_size r) (db_data r) (db_level r) (db_blkid r) (db_state r) (db_buf r) (db_blkptr r) (db_holds r) (db_dirtycnt r) (db_dirty_records r) (db_data_pending r) (db_user r) (db_immediate_evict r) (db_freed_in_flight r) (db_buf_sets r).
Definition set_db_size v (r : dmu_buf_impl_t) : dmu_buf_impl_t :=
  mk_db (db_object r) v (db_data r) (db_level r) (db_blkid r) (db_state r) (db_buf r) (db_blkptr r) (db_holds r) (db_dirtycnt r) (db_dirty_records r) (db_data_pending r) (db_user r) (db_immediate_evict r) (db_freed_in_flight r) (db_buf_sets r).
Definition set_db_data v (r : dmu_buf_impl_t) : dmu_buf_impl_t :=
  mk_db (db_object r) (db_size r) v (db_level r) (db_blkid r) (db_state r) (db_buf r) (db_blkptr r) (db_holds r) (db_dirtycnt r) (db_dirty_records r) (db_data_pending r) (db_user r) (db_immediate_evict r) (db_freed_in_flight r) (db_buf_sets r).
Definition set_db_level v (r : dmu_buf_impl_t) : dmu_buf_impl_t :=
  mk_db (db_object r) (db_size r) (db_data r) v (db_blkid r) (db_state r) (db_buf r) (db_blkptr r) (db_holds r) (db_dirtycnt r) (db_dirty_records r) (db_data_pending r) (db_user r) (db_immediate_evict r) (db_freed_in_flight r) (db_buf_sets r).
Definition set_db_blkid v (r : dmu_buf_impl_t) : dmu_buf_impl_t :=
  mk_db (db_object r) (db_size r) (db_data r) (db_level r) v (db_state r) (db_buf r) (db_blkptr r) (db_holds r) (db_dirtycnt r) (db_dirty_records r) (db_data_pending r) (db_user r) (db_immediate_evict r) (db_freed_in_flight r) (db_buf_sets r).
Definition set_db_state v (r : dmu_buf_impl_t) : dmu_buf_impl_t :=
  mk_db (db_object r) (db_size r) (db_data r) (db_level r) (db_blkid r) v (db_buf r) (db_blkptr r) (db_holds r) (db_dirtycnt r) (db_dirty_records r) (db_data_pending r) (db_user r) (db_immediate_evict r) (db_freed_in_flight r) (db_buf_sets r).
Definition set_db_buf v (r : dmu_buf_impl_t) : dmu_buf_impl_t :=
  mk_db (db_object r) (db_size r) (db_data r) (db_level r) (db_blkid r) (db_state r) v (db_blkptr r) (db_holds r) (db_dirtycnt r) (db_dirty_records r) (db_data_pending r) (db_user r) (db_immediate_evict r) (db_freed_in_flight r) (db_buf_sets r).
Definition set_db_blkptr v (r : dmu_buf_impl_t) : dmu_buf_impl_t :=
  mk_db (db_object r) (db_size r) (db_data r) (db_level r) (db_blkid r) (db_state r) (db_buf r) v (db_holds r) (db_dirtycnt r) (db_dirty_records r) (db_data_pending r) (db_user r) (db_immediate_evict r) (db_freed_in_flight r) (db_buf_sets r).
Definition set_db_holds v (r : dmu_buf_impl_t) : dmu_buf_impl_t :=
  mk_db (db_object r) (db_size r) (db_data r) (db_level r) (db_blkid r) (db_state r) (db_buf r) (db_blkptr r) v (db_dirtycnt r) (db_dirty_records r) (db_data_pending r) (db_user r) (db_immediate_evict r) (db_freed_in_flight r) (db_buf_sets r).
Definition set_db_dirtycnt v (r : dmu_buf_impl_t) : dmu_buf_impl_t :=
  mk_db (db_object r) (db_size r) (db_data r) (db_level r) (db_blkid r) (db_state r) (db_buf r) (db_blkptr r) (db_holds r) v (db_dirty_records r) (db_data_pending r) (db_user r) (db_immediate_evict r) (db_freed_in_flight r) (db_buf_sets r).
Definition set_db_dirty_records v (r : dmu_buf_impl_t) : dmu_buf_impl_t :=
  mk_db (db_object r) (db_size r) (db_data r) (db_level r) (db_blkid r) (db_state r) (db_buf r) (db_blkptr r) (db_holds r) (db_dirtycnt r) v (db_data_pending r) (db_user r) (db_immediate_evict r) (db_freed_in_flight r) (db_buf_sets r).
Definition set_db_data_pending v (r : dmu_buf_impl_t) : dmu_buf_impl_t :=
  mk_db (db_object r) (db_size r) (db_data r) (db_level r) (db_blkid r) (db_state r) (db_buf r) (db_blkptr r) (db_holds r) (db_dirtycnt r) (db_dirty_records r) v (db_user r) (db_immediate_evict r) (db_freed_in_flight r) (db_buf_sets r).
Definition set_db_user v (r : dmu_buf_impl_t) : dmu_buf_impl_t :=
  mk_db (db_object r) (db_size r) (db_data r) (db_level r) (db_blkid r) (db_state r) (db_buf r) (db_blkptr r) (db_holds r) (db_dirtycnt r) (db_dirty_records r) (db_data_pending r) v (db_immediate_evict r) (db_freed_in_flight r) (db_buf_sets r).
Definition set_db_immediate_evict v (r : dmu_buf_impl_t) : dmu_buf_impl_t :=
  mk_db (db_object r) (db_size r) (db_data r) (db_level r) (db_blkid r) (db_state r) (db_buf r) (db_blkptr r) (db_holds r) (db_dirtycnt r) (db_dirty_records r) (db_data_pending r) (db_user r) v (db_freed_in_flight r) (db_buf_sets r).
Definition set_db_freed_in_flight v (r : dmu_buf_impl_t) : dmu_buf_impl_t :=
  mk_db (db_object r) (db_size r) (db_data r) (db_level r) (db_blkid r) (db_state r) (db_buf r) (db_blkptr r) (db_holds r) (db_dirtycnt r) (db_dirty_records r) (db_data_pending r) (db_user r) (db_immediate_evict r) v (db_buf_sets r).
Definition set_db_buf_sets v (r : dmu_buf_impl_t) : dmu_buf_impl_t :=
  mk_db (db_object r) (db_size r) (db_data r) (db_level r) (db_blkid r) (db_state r) (db_buf r) (db_blkptr r) (db_holds r) (db_dirtycnt r) (db_dirty_records r) (db_data_pending r) (db_user r) (db_immediate_evict r) (db_freed_in_flight r) v.
Definition set_dn_object v (r : dnode_t) : dnode_t :=
  mk_dn v (dn_maxblkid r) (dn_indblkshift r) (dn_have_spill r) (dn_bonuslen r) (dn_phys_bonuslen r) (dn_phys_bonus r).
Definition set_dn_maxblkid v (r : dnode_t) : dnode_t :=
  mk_dn (dn_object r) v (dn_indblkshift r) (dn_have_spill r) (dn_bonuslen r) (dn_phys_bonuslen r) (dn_phys_bonus r).
Definition set_dn_indblkshift v (r : dnode_t) : dnode_t :=
  mk_dn (dn_object r) (dn_maxblkid r) v (dn_have_spill r) (dn_bonuslen r) (dn_phys_bonuslen r) (dn_phys_bonus r).
Definition set_dn_have_spill v (r : dnode_t) : dnode_t :=
  mk_dn (dn_object r) (dn_maxblkid r) (dn_indblkshift r) v (dn_bonuslen r) (dn_phys_bonuslen r) (dn_phys_bonus r).
Definition set_dn_bonuslen v (r : dnode_t) : dnode_t :=
  mk_dn (dn_object r) (dn_maxblkid r) (dn_indblkshift r) (dn_have_spill r) v (dn_phys_bonuslen r) (dn_phys_bonus r).
Definition set_dn_phys_bonuslen v (r : dnode_t) : dnode_t :=
  mk_dn (dn_object r) (dn_maxblkid r) (dn_indblkshift r) (dn_have_spill r) (dn_bonuslen r) v (dn_phys_bonus r).
Definition set_dn_phys_bonus v (r : dnode_t) : dnode_t :=
  mk_dn (dn_object r) (dn_maxblkid r) (dn_indblkshift r) (dn_have_spill r) (dn_bonuslen r) (dn_phys_bonuslen r) v.
Definition set_w_db v (r : world) : world :=
  mk_world v (w_dn r) (w_arc r) (w_kmem r) (w_brk r) (w_log r) (w_io_queued r) (dirty_writes_lost r) (w_env r).
Definition set_w_dn v (r : world) : world :=
  mk_world (w_db r) v (w_arc r) (w_kmem r) (w_brk r) (w_log r) (w_io_queued r) (dirty_writes_lost r) (w_env r).
Definition set_w_arc v (r : world) : world :=
  mk_world (w_db r) (w_dn r) v (w_kmem r) (w_brk r) (w_log r) (w_io_queued r) (dirty_writes_lost r) (w_env r).
Definition set_w_kmem v (r : world) : world :=
  mk_world (w_db r) (w_dn r) (w_arc r) v (w_brk r) (w_log r) (w_io_queued r) (dirty_writes_lost r) (w_env r).
Definition set_w_brk v (r : world) : world :=
  mk_world (w_db r) (w_dn r) (w_arc r) (w_kmem r) v (w_log r) (w_io_queued r) (dirty_writes_lost r) (w_env r).
Definition set_w_log v (r : world) : world :=
  mk_world (w_db r) (w_dn r) (w_arc r) (w_kmem r) (w_brk r) v (w_io_queued r) (dirty_writes_lost r) (w_env r).
Definition set_w_io_queued v (r : world) : world :=
  mk_world (w_db r) (w_dn r) (w_arc r) (w_kmem r) (w_brk r) (w_log r) v (dirty_writes_lost r) (w_env r).
Definition set_dirty_writes_lost v (r : world) : world :=
  mk_world (w_db r) (w_dn r) (w_arc r) (w_kmem r) (w_brk r) (w_log r) (w_io_queued r) v (w_env r).
Definition set_w_env v (r : world) : world :=
  mk_world (w_db r) (w_dn r) (w_arc r) (w_kmem r) (w_brk r) (w_log r) (w_io_queued r) (dirty_writes_lost r) v.

(** ** The monad *)

(** What stops a run: a fault ([NULL] or freed memory dereferenced, a
    copy outside a buffer), a failed [VERIFY], a thread that sleeps with
    nobody to wake it, and a loop of the embedding that was given too
    few iterations. *)
Inductive error : Type :=
  | EFAULT (what : string)
  | EPANIC (what : string)
  | EBLOCKED (what : string)
  | ENOFUEL.

Inductive result (A : Type) : Type :=
  | Ok (a : A) (w : world)
  | Err (e : error).
Arguments Ok {A} a w.
Arguments Err {A} e.

Definition M (A : Type) : Type := world → result A.

Definition ret {A} (a : A) : M A := fun w => Ok a w.
Definition bind {A B} (m : M A) (k : A → M B) : M B :=
  fun w => match m w with Ok a w' => k a w' | Err e => Err e end.
Definition fail {A} (e : error) : M A := fun _ => Err e.

Notation "'let*' x ':=' m 'in' k" := (bind m (fun x => k))
  (at level 10, x pattern, m at level 200, k at level 200, only parsing).
Notation "m ';;' k" := (bind m (fun _ => k))
  (at level 100, k at level 200, right associativity, only parsing).

Definition skip : M unit := ret tt.
Definition when (b : bool) (m : M unit) : M unit := if b then m else skip.

Definition get_db : M dmu_buf_impl_t := fun w => Ok (w_db w) w.
Definition get_world : M world := fun w => Ok w w.

Section Dbuf.
Context `{hdr : dbuf_headers}.

Definition state_mask (s : dbuf_states_t) : Z := 2 ^ state_bit s.

Definition DB_UNCACHED : Z := state_mask ST_UNCACHED.
Definition DB_FILL : Z := state_mask ST_FILL.
Definition DB_NOFILL : Z := state_mask ST_NOFILL.
Definition DB_READ : Z := state_mask ST_READ.
Definition DB_CACHED : Z := state_mask ST_CACHED.
Definition DB_EVICTING : Z := state_mask ST_EVICTING.
Definition DB_PARTIAL : Z := state_mask ST_PARTIAL.

Definition SPA_MINBLOCKSIZE : Z := Z.shiftl 1 SPA_MINBLOCKSHIFT.
Definition SPA_MAXBLOCKSIZE : Z := Z.shiftl 1 SPA_MAXBLOCKSHIFT.

(** Modelled from the spec: [P2ROUNDUP] is a macro of [sys/sysmacros.h],
    which is not part of the sources at hand.  It rounds [x] up to the
    next multiple of [align], in the 64-bit type of [x]. *)
Definition P2ROUNDUP (x align : Z) : Z :=
  wrap_u64 (align * ((x + align - 1) / align)).

Definition modify_db (f : dmu_buf_impl_t → dmu_buf_impl_t) : M unit :=
  fun w => Ok tt (set_w_db (f (w_db w)) w).
Definition modify_dn (f : dnode_t → dnode_t) : M unit :=
  fun w => Ok tt (set_w_dn (f (w_dn w)) w).
Definition emit (e : event) : M unit :=
  fun w => Ok tt (set_w_log (e :: w_log w) w).

(** Dereferencing: [NULL] faults. *)
Definition deref {A} (what : string) (p : option A) : M A :=
  match p with Some a => ret a | None => fail (EFAULT what) end.

(** *** ARC buffers and memory *)

Definition arc_buf_get (b : nat) : M arc_buf_t :=
  fun w => match w_arc w !! b with
           | Some a => Ok a w
           | None => Err (EFAULT "arc_buf_t")
           end.
Definition arc_buf_put (b : nat) (a : arc_buf_t) : M unit :=
  fun w => Ok tt (set_w_arc (<[b := a]> (w_arc w)) w).

Definition arc_buf_size (b : nat) : M Z :=
  let* a := arc_buf_get b in ret (Z.of_nat (length (b_data a))).
Definition arc_released (b : nat) : M bool :=
  let* a := arc_buf_get b in ret (b_released a).

(** [arc_buf_alloc]: a fresh anonymous buffer of [size] bytes, whose
    contents are whatever the allocator left there. *)
Definition arc_buf_alloc (size : Z) : M nat :=
  fun w =>
    let b := w_brk w in
    let a := mk_arc_buf (replicate (Z.to_nat size) (env_uninit (w_env w))) true in
    Ok b (set_w_brk (S b) (set_w_arc (<[b := a]> (w_arc w)) w)).

Definition arc_release (buf : ptr) : M unit :=
  let* b := deref "arc_buf_t" buf in
  let* a := arc_buf_get b in
  arc_buf_put b (set_b_released true a) ;; emit (EvArcRelease b).
Definition arc_buf_freeze (buf : ptr) : M unit :=
  let* b := deref "arc_buf_t" buf in emit (EvArcBufFreeze b).
Definition arc_buf_thaw (buf : ptr) : M unit :=
  let* b := deref "arc_buf_t" buf in emit (EvArcBufThaw b).
Definition arc_discard_buf (b : nat) : M unit := emit (EvArcDiscardBuf b).
Definition arc_set_callback (b : nat) : M unit := emit (EvArcSetCallback b).
(** [arc_buf_remove_ref] is only called under [VERIFY], with the answer
    the caller insists on; the ARC is taken to give that answer. *)
Definition arc_buf_remove_ref (b : nat) : M unit := emit (EvArcBufRemoveRef b).

(** The bytes of [dst] with [n] bytes at [doff] replaced by those of
    [src] at [soff]; [None] when a range leaves its buffer or [n], as a
    [size_t], is out of reach. *)
Definition copy_bytes (dst : list Byte.byte) (doff : Z)
    (src : list Byte.byte) (soff n : Z) : option (list Byte.byte) :=
  if (0 <=? n) && (0 <=? doff) && (0 <=? soff)
     && (doff + n <=? Z.of_nat (length dst))
     && (soff + n <=? Z.of_nat (length src))
  then Some (take (Z.to_nat doff) dst
             ++ take (Z.to_nat n) (drop (Z.to_nat soff) src)
             ++ drop (Z.to_nat (doff + n)) dst)
  else None.

(** A [caddr_t] into a buffer: the buffer and the offset. *)
Definition caddr_t : Type := (nat * Z)%type.

Definition memcpy (dst src : caddr_t) (n : Z) : M unit :=
  let* s := arc_buf_get src.1 in
  let* d := arc_buf_get dst.1 in
  match copy_bytes (b_data d) dst.2 (b_data s) src.2 n with
  | Some bytes => arc_buf_put dst.1 (set_b_data bytes d)
  | None => fail (EFAULT "memcpy")
  end.
Definition bcopy (src dst : caddr_t) (n : Z) : M unit := memcpy dst src n.

Definition bzero (dst : caddr_t) (n : Z) : M unit :=
  let* d := arc_buf_get dst.1 in
  let zeros := replicate (Z.to_nat n) Byte.x00 in
  match copy_bytes (b_data d) dst.2 zeros 0 n with
  | Some bytes => arc_buf_put dst.1 (set_b_data bytes d)
  | None => fail (EFAULT "bzero")
  end.

(** *** Dirty records and their list *)

(** A dirty record is reached through its address, on
    [db_dirty_records] or, while it is on no list, in [w_kmem]. *)
Definition dr_has_addr (a : nat) (dr : dbuf_dirty_record_t) : bool :=
  Nat.eqb (dr_addr dr) a.

Definition find_dr (a : nat) (w : world) : option dbuf_dirty_record_t :=
  List.find (dr_has_addr a) (db_dirty_records (w_db w) ++ w_kmem w).

(** [dr->...]: faults on [NULL] and on a record that was freed. *)
Definition get_dr (p : ptr) : M dbuf_dirty_record_t :=
  let* a := deref "dbuf_dirty_record_t" p in
  fun w => deref "dbuf_dirty_record_t" (find_dr a w) w.

Definition update_dr (a : nat) (f : dbuf_dirty_record_t → dbuf_dirty_record_t)
    (l : list dbuf_dirty_record_t) : list dbuf_dirty_record_t :=
  List.map (fun dr => if dr_has_addr a dr then f dr else dr) l.

Definition update_dr_world (a : nat)
    (f : dbuf_dirty_record_t → dbuf_dirty_record_t) (w : world) : world :=
  set_w_kmem (update_dr a f (w_kmem w))
    (set_w_db (set_db_dirty_records
                 (update_dr a f (db_dirty_records (w_db w))) (w_db w)) w).

(** An assignment through [dr->]. *)
Definition modify_dr (p : ptr)
    (f : dbuf_dirty_record_t → dbuf_dirty_record_t) : M unit :=
  get_dr p ;;
  let* a := deref "dbuf_dirty_record_t" p in
  fun w => Ok tt (update_dr_world a f w).

(** [kmem_zalloc(sizeof (dbuf_dirty_record_t))]: a zero-filled record
    at a fresh address. *)
Definition kmem_zalloc_dr : M ptr :=
  fun w =>
    let a := w_brk w in
    let dr := mk_dr a 0 None None None [] DR_NOT_OVERRIDDEN false false in
    Ok (Some a) (set_w_brk (S a) (set_w_kmem (dr :: w_kmem w) w)).

Definition remove_dr (a : nat) (l : list dbuf_dirty_record_t) :
    list dbuf_dirty_record_t :=
  List.filter (fun dr => negb (dr_has_addr a dr)) l.

Definition kmem_free_dr (a : nat) : M unit :=
  fun w => Ok tt (set_w_kmem (remove_dr a (w_kmem w)) w).

(** [list_insert_after(list, after, dr)] puts [dr] behind [after], or
    at the head when [after] is [NULL]. *)
Fixpoint insert_after (after : nat) (dr : dbuf_dirty_record_t)
    (l : list dbuf_dirty_record_t) : list dbuf_dirty_record_t :=
  match l with
  | [] => [dr]
  | x :: l' => if dr_has_addr after x then x :: dr :: l'
               else x :: insert_after after dr l'
  end.

Definition list_insert_after (after : ptr) (p : ptr) : M unit :=
  let* dr := get_dr p in
  let* a := deref "dbuf_dirty_record_t" p in
  fun w =>
    let l := db_dirty_records (w_db w) in
    let l' := match after with
              | None => dr :: l
              | Some p => insert_after p dr l
              end in
    Ok tt (set_w_kmem (remove_dr a (w_kmem w))
             (set_w_db (set_db_dirty_records l' (w_db w)) w)).

(** [list_remove(&db->db_dirty_records, dr)]: the record stays
    allocated. *)
Definition list_remove (p : ptr) : M unit :=
  let* dr := get_dr p in
  let* a := deref "dbuf_dirty_record_t" p in
  fun w =>
    Ok tt (set_w_kmem (dr :: w_kmem w)
             (set_w_db (set_db_dirty_records
                          (remove_dr a (db_dirty_records (w_db w))) (w_db w)) w)).

(** [list_head], [list_tail], [list_next] and [list_prev] on
    [db_dirty_records], by address. *)
Definition list_head (l : list dbuf_dirty_record_t) : ptr :=
  dr_addr <$> head l.
Definition list_tail (l : list dbuf_dirty_record_t) : ptr :=
  dr_addr <$> last l.

(** [DBUF_STATE_CHANGE(db, op, state, why)]: the assignment and the
    DTrace probe. *)
Definition DBUF_STATE_CHANGE (op : Z → Z → Z) (state : Z) (why : string) : M unit :=
  let* db := get_db in
  let s := op (db_state db) state in
  modify_db (set_db_state s) ;; emit (EvStateChange s why).

Definition op_set (old new : Z) : Z := new.
Definition op_or (old new : Z) : Z := Z.lor old new.
Definition op_and (old new : Z) : Z := Z.land old new.

Definition ptr_eqb (p q : ptr) : bool := bool_decide (p = q).

(** ** The user of a dbuf (dbuf.c, lines 246-365) *)

(** The assertions of [dbuf_verify_user], which only a debug build
    executes. *)
Definition dbuf_verify_user (db : dmu_buf_impl_t) (evicting : bool) : bool :=
  (if negb (db_level db =? 0) then db_user db =? 0 else true)
  && (if db_user db =? 0 then true
      else negb (ptr_eqb (db_data db) None) && (db_state db =? DB_CACHED)
           && (if evicting then true
               else if db_immediate_evict db
                    then db_dirtycnt db <? db_holds db
                    else 0 <? db_holds db)).

Definition dbuf_evict_user : M unit :=
  let* db := get_db in
  if db_user db =? 0 then skip
  else emit (EvUserEvict (db_user db)) ;; modify_db (set_db_user 0).

Definition dmu_buf_replace_user (old_user new_user : Z) : M Z :=
  let* db := get_db in
  if db_user db =? old_user
  then modify_db (set_db_user new_user) ;; ret old_user
  else ret (db_user db).

Definition dmu_buf_set_user (user : Z) : M Z :=
  dmu_buf_replace_user 0 user.

Definition dmu_buf_remove_user (user : Z) : M Z :=
  dmu_buf_replace_user user 0.

Definition dmu_buf_set_user_ie (user : Z) : M Z :=
  modify_db (set_db_immediate_evict true) ;; dmu_buf_set_user user.

Definition dmu_buf_get_user : M Z :=
  let* db := get_db in ret (db_user db).

(** ** The frontend (lines 367-399, 638-648) *)

Definition dbuf_clear_data : M unit :=
  dbuf_evict_user ;;
  modify_db (set_db_buf None) ;;
  modify_db (set_db_data None) ;;
  let* db := get_db in
  when (negb (db_state db =? DB_NOFILL))
       (DBUF_STATE_CHANGE op_set DB_UNCACHED "clear data").

Definition dbuf_set_data (buf : ptr) : M unit :=
  let* b := deref "arc_buf_t" buf in
  modify_db (set_db_buf buf) ;;
  arc_buf_get b ;;
  modify_db (set_db_data buf) ;;
  let* released := arc_released b in
  when (negb released) (arc_set_callback b).

Definition dbuf_alloc_arcbuf : M nat :=
  let* db := get_db in arc_buf_alloc (db_size db).

(** ** Write ranges (lines 2188-2276, 2631-2647, 1636-1665) *)

Definition dbuf_dirty_record_cleanup_ranges (dr : ptr) : M unit :=
  get_dr dr ;;
  let* db := get_db in
  if negb (db_level db =? 0) then skip
  else modify_dr dr (set_write_ranges []).

(** The assertions of [dbuf_dirty_record_check_ranges]: walking the
    list with [prev], [cur] and [next]. *)
Fixpoint check_ranges_from (prev : option dbuf_dirty_range_t)
    (l : list dbuf_dirty_range_t) : bool :=
  match l with
  | [] => true
  | cur :: rest =>
      (match prev with None => true | Some p => rg_end p <? rg_start cur end)
      && (match rest with [] => true | next :: _ => rg_end cur <? rg_start next end)
      && check_ranges_from (Some cur) rest
  end.

Definition dbuf_dirty_record_check_ranges (l : list dbuf_dirty_range_t) : bool :=
  check_ranges_from None l.

(** The accumulating loop of [dbuf_dirty_record_add_range].  It returns
    the ranges it walked past and kept, the range to insert, and the
    ranges from [old_range] on, before which the insertion happens. *)
Fixpoint add_range_loop (range : dbuf_dirty_range_t)
    (l : list dbuf_dirty_range_t) :
    list dbuf_dirty_range_t * dbuf_dirty_range_t * list dbuf_dirty_range_t :=
  match l with
  | [] => ([], range, [])
  | old_range :: rest =>
      if rg_start old_range <=? rg_end range then
        if (rg_start range <=? rg_end old_range)
           && (rg_end range >=? rg_start old_range)
        then
          let s := MIN (rg_start range) (rg_start old_range) in
          let e := MAX (rg_end range) (rg_end old_range) in
          add_range_loop (mk_range s e (wrap_int (e - s))) rest
        else
          let '(kept, r, tl) := add_range_loop range rest in
          (old_range :: kept, r, tl)
      else ([], range, l)
  end.

(** The list [dbuf_dirty_record_add_range] leaves when the incoming
    range does not fill the block by itself. *)
Definition add_range_list (db_size : Z) (offset size : Z)
    (l : list dbuf_dirty_range_t) : list dbuf_dirty_range_t :=
  let range := mk_range offset (wrap_int (offset + size)) size in
  let '(kept, r, tl) := add_range_loop range l in
  if (rg_start r =? 0) && (wrap_u64 (rg_size r) =? db_size)
  then kept ++ tl
  else kept ++ r :: tl.

Definition dbuf_dirty_record_add_range (dr : ptr) (offset size : Z) : M unit :=
  let* r := get_dr dr in
  let* db := get_db in
  (if (offset =? 0) && (wrap_u64 size =? db_size db)
   then dbuf_dirty_record_cleanup_ranges dr
   else modify_dr dr
          (set_write_ranges (add_range_list (db_size db) offset size (write_ranges r)))) ;;
  let* db := get_db in
  let* r := get_dr dr in
  when (negb (Z.land (db_state db) (Z.lor DB_READ DB_PARTIAL) =? 0))
       (when (bool_decide (write_ranges r = []))
             (DBUF_STATE_CHANGE op_set DB_FILL "complete filler")).

(** The loop of [dbuf_dirty_record_truncate_ranges], on the list read
    from its tail.  [list_tail] of an empty list is [NULL]. *)
Fixpoint truncate_ranges_loop (new_size : Z) (from_tail : list dbuf_dirty_range_t) :
    option (list dbuf_dirty_range_t) :=
  match from_tail with
  | [] => None
  | range :: rest =>
      if new_size <=? rg_start range then truncate_ranges_loop new_size rest
      else
        let e := MIN new_size (rg_end range) in
        Some (mk_range (rg_start range) e (wrap_int (e - rg_size range)) :: rest)
  end.

Definition dbuf_dirty_record_truncate_ranges (dr : ptr) (new_size : Z) : M unit :=
  let* r := get_dr dr in
  let* db := get_db in
  if negb (db_level db =? 0) then skip
  else
    let* l := deref "dbuf_dirty_range_t"
                (truncate_ranges_loop new_size (rev (write_ranges r))) in
    modify_dr dr (set_write_ranges (rev l)).

(** ** Holes of a dirty record (lines 691-765) *)

Record dbuf_dirty_record_hole_t : Type := mk_hole {
  hole_src : option caddr_t;
  hole_dst : option caddr_t;
  hole_size : Z
}.

(** [itr_range] is the list of write ranges from [range] on; the empty
    list is [range == NULL]. *)
Record dbuf_dirty_record_hole_itr_t : Type := mk_itr {
  itr_src : ptr;
  itr_dl : ptr;
  itr_range : list dbuf_dirty_range_t;
  max_offset : Z;
  hole_start : Z;
  hole : dbuf_dirty_record_hole_t
}.

Definition dbuf_dirty_record_hole_itr_init (dl : ptr) (src_buf : ptr) :
    M dbuf_dirty_record_hole_itr_t :=
  let* src := deref "arc_buf_t" src_buf in
  let* src_size := arc_buf_size src in
  let* dr := get_dr dl in
  let* dst := deref "arc_buf_t" (dr_data dr) in
  let* dst_size := arc_buf_size dst in
  let max := wrap_int (MIN src_size dst_size) in
  let h := mk_hole None None 0 in
  match write_ranges dr with
  | [] => ret (mk_itr src_buf dl [] max max h)
  | range :: next =>
      if rg_start range =? 0
      then ret (mk_itr src_buf dl next max (rg_size range) h)
      else ret (mk_itr src_buf dl (range :: next) max 0 h)
  end.

Definition dbuf_dirty_record_hole_itr_next (itr : dbuf_dirty_record_hole_itr_t) :
    M (option dbuf_dirty_record_hole_t * dbuf_dirty_record_hole_itr_t) :=
  if hole_start itr >=? max_offset itr then ret (None, itr)
  else
    let* src := deref "arc_buf_t" (itr_src itr) in
    let* dr := get_dr (itr_dl itr) in
    let* dst := deref "arc_buf_t" (dr_data dr) in
    let hsrc := Some (src, hole_start itr) in
    let hdst := Some (dst, hole_start itr) in
    match itr_range itr with
    | range :: next =>
        let h := mk_hole hsrc hdst
                   (wrap_int (MIN (max_offset itr) (rg_start range) - hole_start itr)) in
        ret (Some h, mk_itr (itr_src itr) (itr_dl itr) next (max_offset itr)
                       (rg_end range) h)
    | [] =>
        let h := mk_hole hsrc hdst (wrap_int (max_offset itr - hole_start itr)) in
        ret (Some h, mk_itr (itr_src itr) (itr_dl itr) [] (max_offset itr)
                       (max_offset itr) h)
    end.

(** ** Resolving (lines 767-899) *)

Definition dbuf_syncer_split (syncer_dr : ptr) (deferred_split : bool) : M unit :=
  let* db := get_db in
  if negb (ptr_eqb syncer_dr None)
     && (Z.land (db_state db) DB_NOFILL =? 0)
     && (1 <? db_holds db)
  then
    let* sdr := get_dr syncer_dr in
    if ptr_eqb (dr_data sdr) (db_buf db) then
      let* buf := dbuf_alloc_arcbuf in
      let* data := deref "db.db_data" (db_data db) in
      bcopy (data, 0) (buf, 0) (db_size db) ;;
      if deferred_split
      then dbuf_set_data (Some buf)
      else modify_dr syncer_dr (set_dr_data (Some buf))
    else skip
  else skip.

(** The [while] loop of [dbuf_merge_write_ranges]; [fuel] bounds the
    calls of the iterator. *)
Fixpoint merge_write_ranges_loop (fuel : nat)
    (itr : dbuf_dirty_record_hole_itr_t) : M unit :=
  match fuel with
  | O => fail ENOFUEL
  | S fuel' =>
      let* next := dbuf_dirty_record_hole_itr_next itr in
      match next.1 with
      | None => skip
      | Some hole =>
          let* dst := deref "hole->dst" (hole_dst hole) in
          let* src := deref "hole->src" (hole_src hole) in
          memcpy dst src (hole_size hole) ;;
          merge_write_ranges_loop fuel' next.2
      end
  end.

Definition dbuf_merge_write_ranges (dl : ptr) (old_buf : ptr) : M unit :=
  let* dr := get_dr dl in
  if bool_decide (write_ranges dr = []) then skip
  else
    let* itr := dbuf_dirty_record_hole_itr_init dl old_buf in
    merge_write_ranges_loop (2 + length (write_ranges dr)) itr.

(** The loop of [dbuf_resolve_ranges] over the dirty records, from the
    tail of the list ([drs] is read in that order). *)
Fixpoint resolve_ranges_loop (drs : list nat) (old_buf : ptr) : M unit :=
  match drs with
  | [] => skip
  | a :: prev =>
      let dr := Some a in
      dbuf_merge_write_ranges dr old_buf ;;
      let* db := get_db in
      let* dl := get_dr dr in
      when (negb (ptr_eqb (dr_data dl) (db_buf db))
            || (Z.land (db_state db) DB_FILL =? 0))
           (arc_buf_freeze (dr_data dl)) ;;
      dbuf_dirty_record_cleanup_ranges dr ;;
      resolve_ranges_loop prev (dr_data dl)
  end.

Definition dbuf_resolve_ranges (buf : ptr) : M unit :=
  let* db := get_db in
  resolve_ranges_loop (rev (dr_addr <$> db_dirty_records db)) buf ;;
  let* db := get_db in
  dbuf_syncer_split (db_data_pending db) true.

(** ** Read completion (lines 901-1036) *)

Definition dbuf_process_buf_sets (err : Z) : M unit :=
  let* db := get_db in
  (fun w => Ok tt (set_w_log
     (rev ((fun b => EvBufSetRele b err) <$> db_buf_sets db) ++ w_log w) w)) ;;
  modify_db (set_db_buf_sets []).

Definition zio_nowait (zio : ptr) : M unit :=
  let* z := deref "zio_t" zio in emit (EvZioNowait z).

Definition dbuf_dispatch_override_zio (dr : ptr) : M unit :=
  if ptr_eqb dr None then skip
  else
    let* r := get_dr dr in
    if ptr_eqb (dr_override_zio r) None then skip
    else zio_nowait (dr_override_zio r) ;;
         modify_dr dr (set_dr_override_zio None).

Definition dbuf_read_complete (buf : ptr) (is_hole_read : bool) : M unit :=
  let* db := get_db in
  let oldest_dr := list_tail (db_dirty_records db) in
  let resolve :=
    match last (db_dirty_records db) with
    | Some oldest =>
        (db_level db =? 0) && negb is_hole_read
        && negb (bool_decide (write_ranges oldest = []))
    | None => false
    end in
  (if resolve then
     dbuf_resolve_ranges buf ;;
     let* db := get_db in
     (if db_state db =? DB_READ
      then DBUF_STATE_CHANGE op_set DB_CACHED "resolve of records with only READ set"
      else when (negb (Z.land (db_state db) DB_READ =? 0))
             (DBUF_STATE_CHANGE op_and (Z.lnot DB_READ)
                "resolve of records with READ state bit set")) ;;
     let* b := deref "arc_buf_t" buf in
     arc_discard_buf b ;;
     let* oldest := get_dr oldest_dr in
     when (negb (ptr_eqb (dr_zio oldest) None)) (zio_nowait (dr_zio oldest)) ;;
     dbuf_dispatch_override_zio oldest_dr
   else if db_state db =? DB_READ then
     dbuf_set_data buf ;;
     DBUF_STATE_CHANGE op_set DB_CACHED "read completed with no dirty records"
   else
     let* b := deref "arc_buf_t" buf in
     arc_discard_buf b) ;;
  dbuf_process_buf_sets 0.

(** ** Holds and eviction (lines 417-426, 3063-3128, 3310 ff., 3561-3691)

    The dbuf's parent, the hash table and the dnode's list of dbufs are
    not part of the state: of [dbuf_clear] and [dbuf_destroy] the
    embedding keeps what happens to the dbuf itself. *)

Definition dbuf_add_ref : M unit :=
  modify_db (fun db => set_db_holds (db_holds db + 1) db).

Definition dbuf_destroy : M unit := emit EvDbufDestroy.

Definition dbuf_clear : M unit :=
  dbuf_evict_user ;;
  let* db := get_db in
  when (db_state db =? DB_CACHED)
       (when (db_blkid db =? DMU_BONUS_BLKID)
             (let* d := deref "db.db_data" (db_data db) in emit (EvZioBufFree d)) ;;
        modify_db (set_db_data None) ;;
        DBUF_STATE_CHANGE op_set DB_UNCACHED "buffer cleared") ;;
  DBUF_STATE_CHANGE op_set DB_EVICTING "buffer eviction started" ;;
  modify_db (set_db_blkptr None) ;;
  let* db := get_db in
  match db_buf db with
  | Some b => emit (EvArcBufEvict b)
  | None => skip
  end.

Definition dbuf_evict : M unit :=
  dbuf_clear ;; dbuf_destroy.

Definition dbuf_rele_and_unlock : M unit :=
  modify_db (fun db => set_db_holds (db_holds db - 1) db) ;;
  let* db := get_db in
  let holds := db_holds db in
  when (negb (ptr_eqb (db_buf db) None) && (db_state db =? DB_CACHED)
        && (holds =? (if db_level db =? 0 then db_dirtycnt db else 0)))
       (arc_buf_freeze (db_buf db)) ;;
  when ((holds =? db_dirtycnt db) && (db_level db =? 0) && db_immediate_evict db)
       dbuf_evict_user ;;
  if holds =? 0 then
    if db_blkid db =? DMU_BONUS_BLKID then skip
    else
      match db_buf db with
      | None => dbuf_evict
      | Some b =>
          let* released := arc_released b in
          if released then
            dbuf_clear_data ;;
            arc_buf_remove_ref b ;;
            dbuf_evict
          else
            arc_buf_remove_ref b ;;
            let* w := get_world in
            when (negb (env_cacheable (w_env w)) || env_eviction_needed (w_env w))
                 dbuf_clear
      end
  else skip.

Definition dbuf_rele : M unit := dbuf_rele_and_unlock.

Definition atomic_add_64_dirty_writes_lost (delta : Z) : M unit :=
  fun w => Ok tt (set_dirty_writes_lost (wrap_u64 (dirty_writes_lost w + delta)) w).

Definition dbuf_read_done (zio : option zio_t) (buf : ptr) : M unit :=
  let failed := match zio with
                | None => false
                | Some z => negb (io_error z =? 0)
                end in
  (if negb failed then dbuf_read_complete buf false
   else
     let* db := get_db in
     (if 0 <? db_dirtycnt db then
        let* b := deref "arc_buf_t" buf in
        let* size := arc_buf_size b in
        bzero (b, 0) size ;;
        arc_buf_freeze buf ;;
        dbuf_read_complete buf false ;;
        atomic_add_64_dirty_writes_lost 1
      else
        modify_db (set_db_state DB_UNCACHED) ;;
        DBUF_STATE_CHANGE op_set DB_UNCACHED "read failed" ;;
        dbuf_process_buf_sets (match zio with Some z => io_error z | None => 0 end)) ;;
     let* b := deref "arc_buf_t" buf in
     arc_buf_remove_ref b) ;;
  emit EvCvBroadcast ;;
  dbuf_rele_and_unlock.

(** ** Reading (lines 1038-1311) *)

(** The [DB_RF_*] bits of the [flags] argument. *)
Record read_flags : Type := mk_rf {
  DB_RF_MUST_SUCCEED : bool;
  DB_RF_CANFAIL : bool;
  DB_RF_HAVESTRUCT : bool;
  DB_RF_NOPREFETCH : bool;
  DB_RF_NEVERWAIT : bool;
  DB_RF_CACHED : bool;
  DB_RF_CACHED_ONLY : bool
}.

Definition set_DB_RF_CACHED (v : bool) (f : read_flags) : read_flags :=
  mk_rf (DB_RF_MUST_SUCCEED f) (DB_RF_CANFAIL f) (DB_RF_HAVESTRUCT f)
        (DB_RF_NOPREFETCH f) (DB_RF_NEVERWAIT f) v (DB_RF_CACHED_ONLY f).

(** [zio_buf_alloc(size)]: a plain buffer, kept in the same store. *)
Definition zio_buf_alloc (size : Z) : M nat := arc_buf_alloc size.

Definition dbuf_read_bonus : M bool :=
  let* db := get_db in
  let* w := get_world in
  let dn := w_dn w in
  let bonuslen := wrap_int (MIN (dn_bonuslen dn) (dn_phys_bonuslen dn)) in
  if negb (db_blkid db =? DMU_BONUS_BLKID) then ret false
  else
    let* data := zio_buf_alloc DN_MAX_BONUSLEN in
    modify_db (set_db_data (Some data)) ;;
    when (bonuslen <? DN_MAX_BONUSLEN) (bzero (data, 0) DN_MAX_BONUSLEN) ;;
    when (negb (bonuslen =? 0))
         (let* d := arc_buf_get data in
          match copy_bytes (b_data d) 0 (dn_phys_bonus dn) 0 bonuslen with
          | Some bytes => arc_buf_put data (set_b_data bytes d)
          | None => fail (EFAULT "bcopy")
          end) ;;
    DBUF_STATE_CHANGE op_set DB_CACHED "bonus buffer filled" ;;
    ret true.

Definition BP_IS_HOLE (bp : option blkptr_t) : M bool :=
  let* b := deref "blkptr_t" bp in ret (bp_is_hole b).

Definition dbuf_read_hole : M bool :=
  let* db := get_db in
  if negb (db_state db =? DB_UNCACHED) then ret false
  else
    let* is_hole :=
      match db_blkptr db with
      | None => ret true
      | Some bp => ret (bp_is_hole bp)
      end in
    let* is_hole :=
      if negb is_hole && (db_level db =? 0)
      then let* w := get_world in
           if env_block_freed (w_env w) then ret true else BP_IS_HOLE (db_blkptr db)
      else ret is_hole in
    if is_hole then
      let* buf := dbuf_alloc_arcbuf in
      bzero (buf, 0) (db_size db) ;;
      DBUF_STATE_CHANGE op_set DB_READ "hole read satisfied" ;;
      dbuf_read_complete (Some buf) true ;;
      ret true
    else ret false.

Definition dbuf_read_cached_done (buf : ptr) : M unit :=
  if negb (ptr_eqb buf None) then
    modify_db (set_db_state DB_READ) ;;
    dbuf_read_complete buf false
  else skip.

(** [arc_read].  A block the ARC holds is handed to [done] at once, in
    a buffer of its own and with a [NULL] zio.  Otherwise a cached-only
    read reports the miss to [done] and a normal read is queued under
    [zio].  The value returned is [aflags & ARC_CACHED]. *)
Definition arc_read (zio : ptr) (done : option zio_t → ptr → M unit)
    (cached_only : bool) : M bool :=
  emit (EvArcRead cached_only) ;;
  let* w := get_world in
  match env_arc_cached (w_env w) with
  | Some bytes =>
      let* b := (fun w => Ok (w_brk w)
                   (set_w_brk (S (w_brk w))
                      (set_w_arc (<[w_brk w := mk_arc_buf bytes false]> (w_arc w)) w))) in
      done None (Some b) ;;
      ret true
  | None =>
      (if cached_only then done None None
       else fun w => Ok tt (set_w_io_queued zio w)) ;;
      ret false
  end.

Definition dbuf_read_impl (zio : ptr) (flags : read_flags) : M read_flags :=
  let* bonus := dbuf_read_bonus in
  let* done := if bonus then ret true else dbuf_read_hole in
  if done then ret (set_DB_RF_CACHED true flags)
  else if DB_RF_CACHED_ONLY flags then
    let* cached := arc_read None (fun _ buf => dbuf_read_cached_done buf) true in
    ret (if cached then set_DB_RF_CACHED true flags else flags)
  else
    DBUF_STATE_CHANGE op_set DB_READ "read issued" ;;
    dbuf_add_ref ;;
    let* cached := arc_read zio dbuf_read_done false in
    ret (if cached then set_DB_RF_CACHED true flags else flags).

Definition dbuf_read_cached : M bool :=
  let* rflags := dbuf_read_impl None (mk_rf false false false false false false true) in
  ret (DB_RF_CACHED rflags).

(** [zio_root]: a new zio. *)
Definition zio_root : M ptr :=
  fun w => Ok (Some (w_brk w)) (set_w_brk (S (w_brk w)) w).

(** [zio_wait(zio)] returns once the I/O under [zio] is over: the read
    that is queued under it completes with what the environment says,
    and its error is the value returned. *)
Definition zio_wait (zio : ptr) : M Z :=
  let* w := get_world in
  if negb (ptr_eqb (w_io_queued w) None) && ptr_eqb (w_io_queued w) zio then
    (fun w => Ok tt (set_w_io_queued None w)) ;;
    let* b := (fun w => Ok (w_brk w)
                 (set_w_brk (S (w_brk w))
                    (set_w_arc (<[w_brk w := mk_arc_buf (env_disk (w_env w)) false]>
                                  (w_arc w)) w))) in
    dbuf_read_done (Some (mk_zio (default 0%nat zio) (env_read_error (w_env w)))) (Some b) ;;
    ret (env_read_error (w_env w))
  else ret 0.

Definition dbuf_read (zio : ptr) (flags : read_flags) : M Z :=
  let havepzio := negb (ptr_eqb zio None) in
  let* db := get_db in
  if db_state db =? DB_NOFILL then ret EIO
  else if db_state db =? DB_CACHED then ret 0
  else if negb (Z.land (db_state db) (Z.lor DB_UNCACHED DB_PARTIAL) =? 0) then
    let* zio := if ptr_eqb zio None then zio_root else ret zio in
    dbuf_read_impl zio flags ;;
    if negb havepzio then zio_wait zio else ret 0
  else
    if negb (DB_RF_NEVERWAIT flags) then
      if negb (Z.land (db_state db) (Z.lor DB_READ DB_FILL) =? 0)
      then fail (EBLOCKED "cv_wait(&db->db_changed)")
      else if db_state db =? DB_UNCACHED then ret EIO else ret 0
    else ret 0.

(** ** Dirtying (lines 1313-1355, 1738-2623)

    Space accounting ([dbuf_new_dirty_record_accounting], the free
    accounting of [dbuf_dirty_exit]) and [dnode_set_dirtyctx] only call
    into the dnode layer; they are left out.  [dbuf_dirty_parent], which
    dirties the parent and links the new record to it, is an event. *)

Definition dbuf_unoverride (dr : ptr) : M unit :=
  let* r := get_dr dr in
  let* db := get_db in
  if (db_blkid db =? DMU_BONUS_BLKID)
     || bool_decide (dr_override_state r = DR_NOT_OVERRIDDEN)
  then skip
  else
    when (negb (dr_overridden_by_hole r) && negb (dr_nopwrite r))
         (emit (EvZioFree (dr_txg r))) ;;
    modify_dr dr (set_dr_override_state DR_NOT_OVERRIDDEN) ;;
    modify_dr dr (set_dr_nopwrite false) ;;
    arc_release (dr_data r).

(** [dbuf_dirty_state_t]; [db], [tx] and [dn] are the dbuf at hand, the
    transaction and the dbuf's dnode, the eviction list is the log. *)
Record dbuf_dirty_state_t : Type := mk_dds {
  dds_tx : dmu_tx_t;
  insert_pt : ptr;
  txg_dr : ptr;
  txg_already_dirty : bool;
  fill_buf : ptr;
  dds_offset : Z;
  dds_size : Z
}.

Definition set_insert_pt v (r : dbuf_dirty_state_t) : dbuf_dirty_state_t :=
  mk_dds (dds_tx r) v (txg_dr r) (txg_already_dirty r) (fill_buf r) (dds_offset r) (dds_size r).
Definition set_txg_dr v (r : dbuf_dirty_state_t) : dbuf_dirty_state_t :=
  mk_dds (dds_tx r) (insert_pt r) v (txg_already_dirty r) (fill_buf r) (dds_offset r) (dds_size r).
Definition set_txg_already_dirty v (r : dbuf_dirty_state_t) : dbuf_dirty_state_t :=
  mk_dds (dds_tx r) (insert_pt r) (txg_dr r) v (fill_buf r) (dds_offset r) (dds_size r).
Definition set_fill_buf v (r : dbuf_dirty_state_t) : dbuf_dirty_state_t :=
  mk_dds (dds_tx r) (insert_pt r) (txg_dr r) (txg_already_dirty r) v (dds_offset r) (dds_size r).
Definition set_dds_offset v (r : dbuf_dirty_state_t) : dbuf_dirty_state_t :=
  mk_dds (dds_tx r) (insert_pt r) (txg_dr r) (txg_already_dirty r) (fill_buf r) v (dds_size r).
Definition set_dds_size v (r : dbuf_dirty_state_t) : dbuf_dirty_state_t :=
  mk_dds (dds_tx r) (insert_pt r) (txg_dr r) (txg_already_dirty r) (fill_buf r) (dds_offset r) v.

Definition dbuf_dirty_record_create (dds : dbuf_dirty_state_t) : M dbuf_dirty_state_t :=
  let* dr := kmem_zalloc_dr in
  modify_dr dr (set_dr_txg (tx_txg (dds_tx dds))) ;;
  ret (set_txg_dr dr dds).

Definition dbuf_dirty_record_register (dds : dbuf_dirty_state_t) : M unit :=
  list_insert_after (insert_pt dds) (txg_dr dds) ;;
  dbuf_add_ref ;;
  modify_db (fun db => set_db_dirtycnt (db_dirtycnt db + 1) db).

Definition dbuf_dirty_record_create_indirect (dds : dbuf_dirty_state_t) :
    M dbuf_dirty_state_t :=
  let* dds := dbuf_dirty_record_create dds in
  dbuf_dirty_record_register dds ;;
  ret dds.

Definition dbuf_dirty_record_update_leaf (dds : dbuf_dirty_state_t) : M unit :=
  let* db := get_db in
  if db_blkid db =? DMU_BONUS_BLKID
  then modify_dr (txg_dr dds) (set_dr_data (db_data db))
  else modify_dr (txg_dr dds) (set_dr_data (db_buf db)).

Definition dbuf_dirty_record_register_as_leaf (dds : dbuf_dirty_state_t) : M unit :=
  dbuf_dirty_record_update_leaf dds ;;
  modify_dr (txg_dr dds) (set_write_ranges []) ;;
  dbuf_dirty_record_register dds.

Definition dbuf_dirty_record_create_nofill (dds : dbuf_dirty_state_t) :
    M dbuf_dirty_state_t :=
  let* dds := dbuf_dirty_record_create dds in
  dbuf_dirty_record_register_as_leaf dds ;;
  ret dds.


Definition dbuf_dirty_enter (tx : dmu_tx_t) : M dbuf_dirty_state_t :=
  ret (mk_dds tx None None false None 0 0).

(** The [for] loop of [dbuf_dirty_compute_state]: it returns
    [dds->insert_pt] and the record [dr] the loop stopped at. *)
Fixpoint compute_state_loop (txg : Z) (insert_pt : ptr)
    (l : list dbuf_dirty_record_t) : ptr * option dbuf_dirty_record_t :=
  match l with
  | [] => (insert_pt, None)
  | dr :: next =>
      if dr_txg dr >? txg
      then compute_state_loop txg (Some (dr_addr dr)) next
      else (insert_pt, Some dr)
  end.

Definition dbuf_dirty_compute_state (dds : dbuf_dirty_state_t) : M dbuf_dirty_state_t :=
  let* db := get_db in
  if negb (Z.land (db_state db) DB_FILL =? 0)
  then fail (EBLOCKED "cv_wait(&db->db_changed)")
  else
    when (db_blkid db =? DMU_SPILL_BLKID) (modify_dn (set_dn_have_spill true)) ;;
    let '(pt, dr) := compute_state_loop (tx_txg (dds_tx dds)) None (db_dirty_records db) in
    let dds := set_insert_pt pt dds in
    let dds := match dr with
               | Some r => if dr_txg r =? tx_txg (dds_tx dds)
                           then set_txg_dr (Some (dr_addr r)) dds else dds
               | None => dds
               end in
    ret (set_txg_already_dirty (negb (ptr_eqb (txg_dr dds) None)) dds).

Definition dbuf_dirty_parent (dds : dbuf_dirty_state_t) : M unit :=
  let* dr := deref "dbuf_dirty_record_t" (txg_dr dds) in
  emit (EvDirtyParent dr (tx_txg (dds_tx dds))).

Definition dbuf_dirty_exit (dds : dbuf_dirty_state_t) : M unit :=
  when (negb (txg_already_dirty dds)) (dbuf_dirty_parent dds).

Definition dbuf_dirty_nofill (tx : dmu_tx_t) : M ptr :=
  let* dds := dbuf_dirty_enter tx in
  DBUF_STATE_CHANGE op_set DB_NOFILL "allocating NOFILL buffer" ;;
  dbuf_clear_data ;;
  let* dds := dbuf_dirty_compute_state dds in
  let* dds := if txg_already_dirty dds
              then dbuf_unoverride (txg_dr dds) ;; ret dds
              else dbuf_dirty_record_create_nofill dds in
  dbuf_dirty_exit dds ;;
  ret (txg_dr dds).

Definition dbuf_dirty_indirect (tx : dmu_tx_t) : M ptr :=
  let* dds := dbuf_dirty_enter tx in
  let* dds := dbuf_dirty_compute_state dds in
  let* dds := if negb (txg_already_dirty dds)
              then dbuf_dirty_record_create_indirect dds
              else ret dds in
  dbuf_dirty_exit dds ;;
  ret (txg_dr dds).

Definition dbuf_dirty_set_data (dds : dbuf_dirty_state_t) : M unit :=
  let* buf := if ptr_eqb (fill_buf dds) None
              then let* b := dbuf_alloc_arcbuf in ret (Some b)
              else ret (fill_buf dds) in
  dbuf_set_data buf.

Definition dbuf_dirty_leaf_with_existing_frontend (dds : dbuf_dirty_state_t) : M unit :=
  let* db := get_db in
  let size := db_size db in
  let newest := head (db_dirty_records db) in
  let old_txg_is_frontend :=
    negb (txg_already_dirty dds)
    && match newest with
       | Some n => ptr_eqb (dr_data n) (db_buf db)
       | None => false
       end in
  when (txg_already_dirty dds) (dbuf_unoverride (txg_dr dds)) ;;
  if old_txg_is_frontend then
    if ptr_eqb (dr_addr <$> newest) (db_data_pending db)
    then dbuf_dirty_set_data dds
    else
      let* buf := dbuf_alloc_arcbuf in
      modify_dr (dr_addr <$> newest) (set_dr_data (Some buf)) ;;
      let* data := deref "db.db_data" (db_data db) in
      bcopy (data, 0) (buf, 0) size ;;
      arc_release (db_buf db) ;;
      match fill_buf dds with
      | Some fb => bcopy (fb, 0) (data, 0) size ;; arc_buf_remove_ref fb
      | None => skip
      end
  else
    match fill_buf dds with
    | Some fb =>
        arc_release (db_buf db) ;;
        let* data := deref "db.db_data" (db_data db) in
        bcopy (fb, 0) (data, 0) size ;;
        arc_buf_remove_ref fb
    | None =>
        if txg_already_dirty dds
        then arc_buf_thaw (db_buf db)
        else arc_release (db_buf db)
    end.

Definition dbuf_dirty_record_create_leaf (dds : dbuf_dirty_state_t) :
    M dbuf_dirty_state_t :=
  let* dds := dbuf_dirty_record_create dds in
  let* db := get_db in
  when (negb (db_blkid db =? DMU_SPILL_BLKID))
       (modify_db (set_db_freed_in_flight false)) ;;
  dbuf_dirty_record_register_as_leaf dds ;;
  ret dds.

Definition dbuf_dirty_leaf_common (dds : dbuf_dirty_state_t) : M dbuf_dirty_state_t :=
  let* db := get_db in
  (if ptr_eqb (db_buf db) None
   then dbuf_dirty_set_data dds
   else dbuf_dirty_leaf_with_existing_frontend dds) ;;
  let* dds := if negb (txg_already_dirty dds)
              then dbuf_dirty_record_create_leaf dds
              else dbuf_dirty_record_update_leaf dds ;; ret dds in
  let* db := get_db in
  when (negb (db_state db =? DB_CACHED))
       (dbuf_dirty_record_add_range (txg_dr dds) (dds_offset dds) (dds_size dds)) ;;
  ret dds.

Definition dbuf_dirty_record_create_bonus (dds : dbuf_dirty_state_t) :
    M dbuf_dirty_state_t :=
  let* db := get_db in
  let newest := head (db_dirty_records db) in
  let last_txg_is_frontend :=
    match newest with
    | Some n => ptr_eqb (dr_data n) (db_data db)
    | None => false
    end in
  when last_txg_is_frontend
       (let* buf := zio_buf_alloc DN_MAX_BONUSLEN in
        modify_dr (dr_addr <$> newest) (set_dr_data (Some buf)) ;;
        let* data := deref "db.db_data" (db_data db) in
        bcopy (data, 0) (buf, 0) DN_MAX_BONUSLEN) ;;
  let* dds := dbuf_dirty_record_create dds in
  dbuf_dirty_record_register_as_leaf dds ;;
  ret dds.

Definition dbuf_dirty_mdn_object (tx : dmu_tx_t) : M ptr :=
  let* dds := dbuf_dirty_enter tx in
  let* dds := dbuf_dirty_compute_state dds in
  let* db := get_db in
  when (ptr_eqb (db_buf db) None)
       (let* b := dbuf_alloc_arcbuf in dbuf_set_data (Some b)) ;;
  let* dds := if txg_already_dirty dds
              then dbuf_unoverride (txg_dr dds) ;; ret dds
              else dbuf_dirty_record_create_leaf dds in
  dbuf_dirty_exit dds ;;
  ret (txg_dr dds).

Definition dbuf_dirty_bonus (tx : dmu_tx_t) : M ptr :=
  let* dds := dbuf_dirty_enter tx in
  let* dds := dbuf_dirty_compute_state dds in
  let* dds := if negb (txg_already_dirty dds)
              then dbuf_dirty_record_create_bonus dds
              else ret dds in
  dbuf_dirty_exit dds ;;
  ret (txg_dr dds).

(** [dbuf_transition_to_read] (lines 2880-2914). *)
Definition dbuf_transition_to_read : M unit :=
  let rf := mk_rf true false false true true false false in
  let* zio := zio_root in
  dbuf_read zio rf ;;
  zio_nowait zio.

Definition dbuf_dirty_handle_fault (dds : dbuf_dirty_state_t) : M unit :=
  let* db := get_db in
  if negb (Z.land (db_state db) DB_PARTIAL =? 0) then
    let* dr := get_dr (list_head (db_dirty_records db)) in
    when (negb (dr_txg dr =? tx_txg (dds_tx dds))) dbuf_transition_to_read
  else if db_state db =? DB_UNCACHED then
    let write_end := wrap_int (dds_offset dds + dds_size dds) in
    if negb (dds_offset dds =? 0) && negb (wrap_u64 write_end =? db_size db)
    then dbuf_transition_to_read
    else if negb (wrap_u64 (dds_size dds) =? db_size db)
    then dbuf_read_cached ;; skip
    else skip
  else skip.

Definition dbuf_dirty_leaf_enter (tx : dmu_tx_t) (offset size : Z) :
    M dbuf_dirty_state_t :=
  let* dds := dbuf_dirty_enter tx in
  let dds := set_dds_size size (set_dds_offset offset dds) in
  dbuf_dirty_handle_fault dds ;;
  dbuf_dirty_compute_state dds.

Definition dbuf_dirty_leaf (tx : dmu_tx_t) (offset size : Z) : M ptr :=
  let* dds := dbuf_dirty_leaf_enter tx offset size in
  let* db := get_db in
  (if db_state db =? DB_UNCACHED
   then DBUF_STATE_CHANGE op_set (Z.lor DB_PARTIAL DB_FILL)
          "notifying of initial partial fill"
   else when (negb (Z.land (db_state db) (Z.lor DB_READ DB_PARTIAL) =? 0))
          (DBUF_STATE_CHANGE op_or DB_FILL "notifying of followup partial fill")) ;;
  let* dds := dbuf_dirty_leaf_common dds in
  dbuf_dirty_exit dds ;;
  ret (txg_dr dds).

Definition dbuf_dirty_with_arcbuf (tx : dmu_tx_t) (fill : ptr) : M ptr :=
  let* db := get_db in
  let* dds := dbuf_dirty_leaf_enter tx 0 (wrap_int (db_size db)) in
  let dds := set_fill_buf fill dds in
  let* db := get_db in
  when (negb (db_state db =? DB_CACHED))
       (DBUF_STATE_CHANGE op_set DB_FILL "assigning filled buffer") ;;
  let* dds := dbuf_dirty_leaf_common dds in
  dbuf_dirty_exit dds ;;
  ret (txg_dr dds).

Definition dbuf_dirty (tx : dmu_tx_t) : M ptr :=
  let* db := get_db in
  if db_blkid db =? DMU_BONUS_BLKID then dbuf_dirty_bonus tx
  else if db_level db =? 0 then
    if db_object db =? DMU_META_DNODE_OBJECT
    then dbuf_dirty_mdn_object tx
    else dbuf_dirty_leaf tx 0 (wrap_int (db_size db))
  else dbuf_dirty_indirect tx.

Definition dbuf_will_dirty (tx : dmu_tx_t) : M unit :=
  let rf := mk_rf true false false true false false false in
  dbuf_read None rf ;;
  dbuf_dirty tx ;;
  skip.

Definition dbuf_will_dirty_range (tx : dmu_tx_t) (offset size : Z) : M unit :=
  dbuf_dirty_leaf tx offset size ;; skip.

Definition dmu_buf_will_not_fill (tx : dmu_tx_t) : M unit :=
  dbuf_dirty_nofill tx ;; skip.

Definition dmu_buf_will_fill (tx : dmu_tx_t) : M unit :=
  let* db := get_db in
  if negb (Z.land (db_state db) DB_FILL =? 0)
  then fail (EBLOCKED "cv_wait(&db->db_changed)")
  else dbuf_dirty_leaf tx 0 (wrap_int (db_size db)) ;; skip.

(** [dbuf_fill_done] (lines 2974-3021). *)
Definition dbuf_fill_done (tx : dmu_tx_t) : M unit :=
  let* db := get_db in
  if negb (Z.land (db_state db) DB_FILL =? 0) then
    let dr := list_head (db_dirty_records db) in
    (if db_freed_in_flight db then
       let* data := deref "db.db_data" (db_data db) in
       bzero (data, 0) (db_size db) ;;
       modify_db (set_db_freed_in_flight false) ;;
       dbuf_dirty_record_cleanup_ranges dr ;;
       DBUF_STATE_CHANGE op_set DB_CACHED "fill done handling freed in flight" ;;
       dbuf_process_buf_sets 0 ;;
       dbuf_dispatch_override_zio dr
     else if db_state db =? DB_FILL then
       DBUF_STATE_CHANGE op_set DB_CACHED "filler finished, complete buffer" ;;
       dbuf_process_buf_sets 0 ;;
       dbuf_dispatch_override_zio dr
     else
       DBUF_STATE_CHANGE op_and (Z.lnot DB_FILL) "filler finished, incomplete buffer") ;;
    emit EvCvBroadcast
  else skip.

Definition dbuf_assign_arcbuf (buf : ptr) (tx : dmu_tx_t) : M unit :=
  dbuf_dirty_with_arcbuf tx buf ;;
  dbuf_fill_done tx.

(** ** Undirtying and freeing a range (lines 1357-1602, 2762-2860) *)

(** Modelled from the spec: [dbuf_get_dirty_record_for_txg] is not
    defined in the sources at hand.  By its name, and by the assertion
    [dr->dr_txg == txg] that follows its call, it returns the dirty
    record of the dbuf for that transaction group, or [NULL]. *)
Definition dbuf_get_dirty_record_for_txg (txg : Z) : M ptr :=
  let* db := get_db in
  ret (dr_addr <$> List.find (fun dr => dr_txg dr =? txg) (db_dirty_records db)).

Definition dbuf_undirty (tx : dmu_tx_t) : M bool :=
  let txg := tx_txg tx in
  let* dr := dbuf_get_dirty_record_for_txg txg in
  if ptr_eqb dr None then ret false
  else
    list_remove dr ;;
    let* db := get_db in
    when (negb (db_state db =? DB_NOFILL))
         (dbuf_unoverride dr ;;
          let* r := get_dr dr in
          when (negb (ptr_eqb (dr_data r) (db_buf db)))
               (let* b := deref "arc_buf_t" (dr_data r) in arc_buf_remove_ref b)) ;;
    dbuf_dirty_record_cleanup_ranges dr ;;
    let* a := deref "dbuf_dirty_record_t" dr in
    kmem_free_dr a ;;
    modify_db (fun db => set_db_dirtycnt (db_dirtycnt db - 1) db) ;;
    modify_db (fun db => set_db_holds (db_holds db - 1) db) ;;
    let* db := get_db in
    if db_holds db =? 0 then
      let buf := db_buf db in
      dbuf_clear_data ;;
      let* b := deref "arc_buf_t" buf in
      arc_buf_remove_ref b ;;
      dbuf_evict ;;
      ret true
    else ret false.

Definition dbuf_free_range_disassociate_frontend (tx : dmu_tx_t) : M unit :=
  let* db := get_db in
  match head (db_dirty_records db) with
  | None => skip
  | Some r =>
      let dr := Some (dr_addr r) in
      if dr_txg r =? tx_txg tx then
        let* w := get_world in
        when (negb (db_blkid db =? DMU_SPILL_BLKID)
              && (db_blkid db >? dn_maxblkid (w_dn w)))
             (modify_dn (set_dn_maxblkid (db_blkid db))) ;;
        dbuf_unoverride dr ;;
        dbuf_dirty_record_cleanup_ranges dr
      else
        when (negb (Z.land (db_state db) DB_PARTIAL =? 0)) dbuf_transition_to_read ;;
        let* db := get_db in
        let* r := get_dr dr in
        when (ptr_eqb (dr_data r) (db_buf db))
             (let* buf := dbuf_alloc_arcbuf in
              if db_holds db >? db_dirtycnt db then
                if negb (Z.land (db_state db) DB_READ =? 0)
                then dbuf_set_data (Some buf)
                else
                  let* data := deref "db.db_data" (db_data db) in
                  bcopy (data, 0) (buf, 0) (db_size db) ;;
                  modify_dr dr (set_dr_data (Some buf))
              else dbuf_set_data (Some buf))
  end.

Definition dbuf_free_range_indirects (start end_ : Z) (tx : dmu_tx_t) : M bool :=
  let* db := get_db in
  let* w := get_world in
  let epbs := wrap_int (dn_indblkshift (w_dn w) - SPA_BLKPTRSHIFT) in
  let first_l1 := Z.shiftr start epbs in
  let last_l1 := Z.shiftr end_ epbs in
  if db_level db =? 0 then ret false
  else
    when ((db_level db =? 1) && IN_RANGE first_l1 (db_blkid db) last_l1)
         (match head (db_dirty_records db) with
          | Some dr =>
              when (dr_txg dr <? tx_txg tx)
                   (dbuf_add_ref ;; dbuf_will_dirty tx ;; dbuf_rele)
          | None => skip
          end) ;;
    ret true.

Definition dbuf_free_range_already_freed : M bool :=
  let* db := get_db in
  ret ((db_state db =? DB_UNCACHED) || (db_state db =? DB_NOFILL)
       || (db_state db =? DB_EVICTING)).

Definition dbuf_free_range_filler_will_free : M bool :=
  let* db := get_db in
  if negb (Z.land (db_state db) DB_FILL =? 0) then
    modify_db (set_db_freed_in_flight true) ;;
    ret true
  else ret false.

Definition dbuf_clear_successful : M bool :=
  let* db := get_db in
  if db_holds db =? 0 then dbuf_clear ;; ret true
  else ret false.

(** [dbuf_free_range] for a dnode whose list [dn_dbufs] holds the dbuf
    at hand: the body of the loop runs on it. *)
Definition dbuf_free_range (start end_ : Z) (tx : dmu_tx_t) : M unit :=
  let* w := get_world in
  let end_ := if (end_ >? dn_maxblkid (w_dn w)) && negb (end_ =? DMU_SPILL_BLKID)
              then dn_maxblkid (w_dn w) else end_ in
  let* indirect := dbuf_free_range_indirects start end_ tx in
  if indirect then skip
  else
    let* db := get_db in
    if negb (IN_RANGE start (db_blkid db) end_) then skip
    else
      let* gone := dbuf_undirty tx in
      if gone then skip
      else
        let* db := get_db in
        let dr := match head (db_dirty_records db) with
                  | Some r => if negb (dr_txg r =? tx_txg tx) then None
                              else Some (dr_addr r)
                  | None => None
                  end in
        let* freed := dbuf_free_range_already_freed in
        if freed then skip
        else
          let* filler := dbuf_free_range_filler_will_free in
          if filler then skip
          else
            let* cleared := dbuf_clear_successful in
            if cleared then skip
            else
              dbuf_free_range_disassociate_frontend tx ;;
              let* db := get_db in
              (if ptr_eqb (db_buf db) None
               then let* b := dbuf_alloc_arcbuf in dbuf_set_data (Some b)
               else arc_release (db_buf db)) ;;
              let* db := get_db in
              let* data := deref "db.db_data" (db_data db) in
              bzero (data, 0) (db_size db) ;;
              arc_buf_freeze (db_buf db) ;;
              dbuf_dispatch_override_zio dr ;;
              DBUF_STATE_CHANGE op_set DB_CACHED "zeroed by free" ;;
              dbuf_process_buf_sets 0 ;;
              emit EvCvBroadcast.

(** ** Resizing (lines 1667-1722, 3530-3553) *)

Definition dbuf_new_size (size : Z) (tx : dmu_tx_t) : M unit :=
  let* db := get_db in
  let osize := wrap_int (db_size db) in
  dbuf_will_dirty tx ;;
  let* buf := arc_buf_alloc size in
  let* db := get_db in
  let* old_buf := deref "arc_buf_t" (db_buf db) in
  bcopy (old_buf, 0) (buf, 0) (MIN osize size) ;;
  when (size >? osize) (bzero (buf, osize) (size - osize)) ;;
  dbuf_set_data (Some buf) ;;
  arc_buf_remove_ref old_buf ;;
  modify_db (set_db_size size) ;;
  let* db := get_db in
  when (db_level db =? 0)
       (modify_dr (list_head (db_dirty_records db)) (set_dr_data (Some buf))).

(** The size [dbuf_spill_set_blksz] passes on (lines 3538-3543). *)
Definition spill_blksz (blksz : Z) : Z :=
  let blksz := if blksz =? 0 then SPA_MINBLOCKSIZE else blksz in
  if blksz >? SPA_MAXBLOCKSIZE then SPA_MAXBLOCKSIZE
  else P2ROUNDUP blksz SPA_MINBLOCKSIZE.

Definition dbuf_spill_set_blksz (blksz : Z) (tx : dmu_tx_t) : M Z :=
  let* db := get_db in
  if negb (db_blkid db =? DMU_SPILL_BLKID) then ret ENOTSUP
  else
    dbuf_new_size (wrap_int (spill_blksz blksz)) tx ;;
    ret 0.

Definition dbuf_rm_spill (tx : dmu_tx_t) : M unit :=
  dbuf_free_range DMU_SPILL_BLKID DMU_SPILL_BLKID tx.

End Dbuf.

(** ** Vocabulary of the properties *)

(** A write range describes bytes: it starts at or after 0, does not
    end before it starts, and its [size] is the distance between the
    two. *)
Definition range_wf (r : dbuf_dirty_range_t) : Prop :=
  0 ≤ rg_start r ∧ rg_start r ≤ rg_end r ∧ rg_end r ≤ INT_MAX
  ∧ rg_size r = rg_end r - rg_start r.

(** The write ranges of a dirty record as the code keeps them: each
    one well formed, and the list as
    [dbuf_dirty_record_check_ranges] asserts it. *)
Definition ranges_inv (l : list dbuf_dirty_range_t) : Prop :=
  Forall range_wf l ∧ dbuf_dirty_record_check_ranges l = true.

(** Byte [i] lies in the range [r]. *)
Definition range_covers (r : dbuf_dirty_range_t) (i : Z) : Prop :=
  rg_start r ≤ i < rg_end r.

(** Byte [i] lies in one of the ranges of [l]. *)
Definition covered (l : list dbuf_dirty_range_t) (i : Z) : Prop :=
  Exists (fun r => range_covers r i) l.

(** Each range ends strictly before the next one starts. *)
Fixpoint gapped (l : list dbuf_dirty_range_t) : Prop :=
  match l with
  | [] => True
  | r :: l' =>
      match l' with [] => True | s :: _ => rg_end r < rg_start s end ∧ gapped l'
  end.


(** The order of the dirty records, as [dbuf_verify] asserts it (lines
    517-527): [dr_next == NULL || dr->dr_txg > dr_next->dr_txg] for
    every record [dr] of the list. *)
Fixpoint dbuf_verify_dirty_records (l : list dbuf_dirty_record_t) : bool :=
  match l with
  | [] => true
  | dr :: next =>
      match next with [] => true | dr_next :: _ => dr_txg dr >? dr_txg dr_next end
      && dbuf_verify_dirty_records next
  end.

(** The addresses of the records on the list are distinct and were
    handed out by the allocator: they lie below the next free one. *)
Definition dirty_records_allocated (w : world) : Prop :=
  NoDup (dr_addr <$> db_dirty_records (w_db w))
  ∧ Forall (fun r => (dr_addr r < w_brk w)%nat) (db_dirty_records (w_db w)).



(** *** Vocabulary of the dirty operations *)

(** The dirty records of the dbuf are at the addresses [addrs], of the
    transaction groups [txgs], in that order, and the allocator has
    handed out the addresses below [brk] at least. *)
Definition records_frame (addrs : list nat) (txgs : list Z) (brk : nat)
    (w : world) : Prop :=
  dr_addr <$> db_dirty_records (w_db w) = addrs
  ∧ dr_txg <$> db_dirty_records (w_db w) = txgs
  ∧ (brk ≤ w_brk w)%nat.

(** A piece of code keeps a property of the state, whenever it
    returns. *)
Definition stable {A} (S : world → Prop) (m : M A) : Prop :=
  ∀ w a w', S w → m w = Ok a w' → S w'.






(** A piece of code returns in the state [w]. *)
Definition returns {A} (m : M A) (w : world) : Prop :=
  ∃ a w', m w = Ok a w'.


(** [b] is an ARC buffer of [n] bytes at least. *)
Definition buf_has (n : Z) (w : world) (b : nat) : Prop :=
  ∃ a, w_arc w !! b = Some a ∧ n ≤ Z.of_nat (length (b_data a)).



(** An allocation, a copy and a release leave the dbuf and its records
    alone, and every buffer keeps its size. *)
Definition arc_step (n : Z) (w w' : world) : Prop :=
  w_db w' = w_db w ∧ w_kmem w' = w_kmem w
  ∧ ∀ c, buf_has n w c → buf_has n w' c.

(** Whether [dbuf_read_hole] takes the block of a level-0 dbuf for a
    hole: there is no block pointer, or it is a hole, or the dnode
    says the block was freed. *)
Definition block_is_hole (w : world) : bool :=
  match db_blkptr (w_db w) with
  | None => true
  | Some bp => bp_is_hole bp || env_block_freed (w_env w)
  end.

(** ** Vocabulary of the resolve *)

(** Whether byte [i] lies in one of the ranges. *)
Definition covered_b (l : list dbuf_dirty_range_t) (i : Z) : bool :=
  existsb (fun r => (rg_start r <=? i) && (i <? rg_end r)) l.

(** An inverse merge of the buffer [old] into [new]: the bytes of
    [new] that the write ranges cover are kept, the others are taken
    from [old]. *)
Definition inverse_merge (ranges : list dbuf_dirty_range_t)
    (old new : list Byte.byte) : list Byte.byte :=
  imap (fun i x => if covered_b ranges (Z.of_nat i) then x else default x (old !! i)) new.

(** What [dbuf_merge_write_ranges] leaves in the buffer of a dirty
    record: a record without write ranges is entirely valid. *)
Definition merged (ranges : list dbuf_dirty_range_t)
    (old new : list Byte.byte) : list Byte.byte :=
  match ranges with
  | [] => new
  | _ :: _ => inverse_merge ranges old new
  end.

(** The buffers of the dirty records [todo], oldest first, after the
    resolve against the bytes [old]: each record is merged from the
    record before it. *)
Fixpoint resolve_arc (old : list Byte.byte) (todo : list dbuf_dirty_record_t)
    (arc : gmap nat arc_buf_t) : gmap nat arc_buf_t :=
  match todo with
  | [] => arc
  | r :: newer =>
      match dr_data r with
      | Some b =>
          match arc !! b with
          | Some a =>
              let bytes := merged (write_ranges r) old (b_data a) in
              resolve_arc bytes newer (<[b := set_b_data bytes a]> arc)
          | None => arc
          end
      | None => arc
      end
  end.

(** The bytes behind a pointer to a buffer; none behind [NULL]. *)
Definition bytes_of (arc : gmap nat arc_buf_t) (p : ptr) : list Byte.byte :=
  match p with
  | Some b => match arc !! b with Some a => b_data a | None => [] end
  | None => []
  end.

(** What the resolve leaves in the buffer of the newest record of [l]
    (newest first): the merge of its bytes with what it leaves in the
    next older record, the oldest being merged with [old]. *)
Fixpoint resolved_bytes (arc : gmap nat arc_buf_t) (old : list Byte.byte)
    (l : list dbuf_dirty_record_t) : list Byte.byte :=
  match l with
  | [] => old
  | r :: older =>
      merged (write_ranges r) (resolved_bytes arc old older) (bytes_of arc (dr_data r))
  end.

(** The record [r] has a buffer of [n] bytes, and its write ranges are
    as [dbuf_dirty_record_check_ranges] wants them, within the buffer. *)
Definition dr_resolvable (arc : gmap nat arc_buf_t) (n : Z)
    (r : dbuf_dirty_record_t) : Prop :=
  (∃ b a, dr_data r = Some b ∧ arc !! b = Some a ∧ Z.of_nat (length (b_data a)) = n)
  ∧ ranges_inv (write_ranges r)
  ∧ Forall (fun g => rg_end g ≤ n) (write_ranges r).

Definition is_freeze (e : event) : Prop := ∃ b, e = EvArcBufFreeze b.

(** The guard of the resolve in [dbuf_read_complete] (line 929): a
    level-0 dbuf, an oldest dirty record, not a hole read, and write
    ranges on the oldest record. *)
Definition resolve_wanted (db : dmu_buf_impl_t) (is_hole_read : bool) : bool :=
  match last (db_dirty_records db) with
  | Some oldest_dr =>
      (db_level db =? 0) && negb is_hole_read
      && negb (bool_decide (write_ranges oldest_dr = []))
  | None => false
  end.

(** What the resolve of a read with the buffer [b0] finds in a sound
    store: the dirty records have distinct addresses and distinct
    buffers of the size of the dbuf, allocated below the next free
    address and none of them [b0]; their write ranges are in order and
    inside the block; [b0] has the size of the dbuf; the frontend is
    [db_buf]; the pending record is on the list. *)
Definition resolve_ready (w : world) (b0 : nat) (a0 : arc_buf_t) : Prop :=
  NoDup (dr_addr <$> (db_dirty_records (w_db w) ++ w_kmem w))
  ∧ Forall (dr_resolvable (w_arc w) (db_size (w_db w))) (db_dirty_records (w_db w))
  ∧ Forall (fun r => ∀ b, dr_data r = Some b → (b < w_brk w)%nat)
           (db_dirty_records (w_db w))
  ∧ NoDup (dr_data <$> db_dirty_records (w_db w))
  ∧ (Some b0 ∉ dr_data <$> db_dirty_records (w_db w))
  ∧ Z.of_nat (length (b_data a0)) = db_size (w_db w)
  ∧ db_size (w_db w) ≤ INT_MAX
  ∧ db_data (w_db w) = db_buf (w_db w)
  ∧ (∀ p, db_data_pending (w_db w) = Some p →
          p ∈ dr_addr <$> db_dirty_records (w_db w)).

(** ** The hash table of dbufs (lines 110-245, 429-476) *)

(** A dbuf as the hash table holds it: its address, its objset (the
    pointer, as a number) and the dbuf.  The chain of the
    [db_hash_next] pointers of a bucket is the list of its dbufs, from
    the head of the bucket. *)
Record hashed_dbuf_t : Type := mk_hdb {
  hd_addr : nat;
  hd_objset : Z;
  hd_db : dmu_buf_impl_t
}.

(** [dbuf_hash_table_t], and with it the counter [dbuf_hash_count]. *)
Record dbuf_hash_table_t : Type := mk_hash_table {
  hash_table_mask : Z;
  hash_table : list (list hashed_dbuf_t);
  dbuf_hash_count : Z
}.

Section HashTable.
Context `{hdr : dbuf_headers}.

(** [zfs_crc64_table] is filled elsewhere; its entries are [uint64_t]. *)
Variable zfs_crc64_table : Z → Z.

(** One line of [dbuf_hash]:
    [crc = (crc >> 8) ^ zfs_crc64_table[(crc ^ x) & 0xFF]]. *)
Definition dbuf_hash_step (crc x : Z) : Z :=
  Z.lxor (Z.shiftr crc 8)
         (wrap_u64 (zfs_crc64_table (Z.land (Z.lxor crc x) 255))).

Definition dbuf_hash (os obj lvl blkid : Z) : Z :=
  let osv := wrap_u64 os in
  let obj := wrap_u64 obj in
  let lvl := Z.land lvl 255 in
  let blkid := wrap_u64 blkid in
  let crc := wrap_u64 (-1) in
  let crc := dbuf_hash_step crc lvl in
  let crc := dbuf_hash_step crc (Z.shiftr osv 6) in
  let crc := dbuf_hash_step crc (Z.shiftr obj 0) in
  let crc := dbuf_hash_step crc (Z.shiftr obj 8) in
  let crc := dbuf_hash_step crc (Z.shiftr blkid 0) in
  let crc := dbuf_hash_step crc (Z.shiftr blkid 8) in
  Z.lxor crc (Z.lxor (Z.lxor (Z.shiftr osv 14) (Z.shiftr obj 16)) (Z.shiftr blkid 16)).

Definition DBUF_HASH (os obj level blkid : Z) : Z := dbuf_hash os obj level blkid.

Definition DBUF_EQUAL (dbuf : hashed_dbuf_t) (os obj level blkid : Z) : bool :=
  (db_object (hd_db dbuf) =? obj) && (hd_objset dbuf =? os)
  && (db_level (hd_db dbuf) =? level) && (db_blkid (hd_db dbuf) =? blkid).

(** The [for] loop of [dbuf_find] and of [dbuf_hash_insert] along a
    chain. *)
Fixpoint hash_chain_find (os obj level blkid : Z) (chain : list hashed_dbuf_t) :
    option hashed_dbuf_t :=
  match chain with
  | [] => None
  | db :: db_hash_next =>
      if DBUF_EQUAL db os obj level blkid
         && negb (db_state (hd_db db) =? DB_EVICTING)
      then Some db
      else hash_chain_find os obj level blkid db_hash_next
  end.

(** [h->hash_table[idx]]; there is nothing to read beyond the table. *)
Definition hash_bucket (h : dbuf_hash_table_t) (idx : Z) : option (list hashed_dbuf_t) :=
  hash_table h !! Z.to_nat idx.

(** [dbuf_find(dn, level, blkid)], with the objset and the object of
    the dnode; [None] is a fault. *)
Definition dbuf_find (os obj level blkid : Z) (h : dbuf_hash_table_t) :
    option (option hashed_dbuf_t) :=
  let hv := DBUF_HASH os obj level blkid in
  let idx := Z.land hv (hash_table_mask h) in
  chain ← hash_bucket h idx;
  Some (hash_chain_find os obj level blkid chain).

Definition dbuf_hash_insert (db : hashed_dbuf_t) (h : dbuf_hash_table_t) :
    option (option hashed_dbuf_t * dbuf_hash_table_t) :=
  let os := hd_objset db in
  let obj := db_object (hd_db db) in
  let level := db_level (hd_db db) in
  let blkid := db_blkid (hd_db db) in
  let hv := DBUF_HASH os obj level blkid in
  let idx := Z.land hv (hash_table_mask h) in
  chain ← hash_bucket h idx;
  match hash_chain_find os obj level blkid chain with
  | Some dbf => Some (Some dbf, h)
  | None =>
      Some (None,
            mk_hash_table (hash_table_mask h)
              (<[Z.to_nat idx := db :: chain]> (hash_table h))
              (wrap_u64 (dbuf_hash_count h + 1)))
  end.

(** The [while] loop of [dbuf_hash_remove]: it follows the chain to
    [db] and unlinks it; at the end of the chain it dereferences
    [NULL]. *)
Fixpoint hash_chain_remove (db : nat) (chain : list hashed_dbuf_t) :
    option (list hashed_dbuf_t) :=
  match chain with
  | [] => None
  | dbf :: db_hash_next =>
      if Nat.eqb (hd_addr dbf) db then Some db_hash_next
      else cons dbf <$> hash_chain_remove db db_hash_next
  end.

Definition dbuf_hash_remove (db : hashed_dbuf_t) (h : dbuf_hash_table_t) :
    option dbuf_hash_table_t :=
  let hv := DBUF_HASH (hd_objset db) (db_object (hd_db db)) (db_level (hd_db db))
              (db_blkid (hd_db db)) in
  let idx := Z.land hv (hash_table_mask h) in
  chain ← hash_bucket h idx;
  chain' ← hash_chain_remove (hd_addr db) chain;
  Some (mk_hash_table (hash_table_mask h)
          (<[Z.to_nat idx := chain']> (hash_table h))
          (wrap_u64 (dbuf_hash_count h - 1))).

(** The first loop of [dbuf_init]:
    [while (hsize * 4096 < (uint64_t)physmem * PAGESIZE) hsize <<= 1]. *)
Fixpoint dbuf_init_hsize (fuel : nat) (hsize mem : Z) : option Z :=
  if wrap_u64 (hsize * 4096) <? mem then
    match fuel with
    | O => None
    | S fuel' => dbuf_init_hsize fuel' (wrap_u64 (Z.shiftl hsize 1)) mem
    end
  else Some hsize.

(** The [retry] loop of [dbuf_init], for a [kmem_zalloc] that returns
    [NULL] [failures] times before it gives the table. *)
Fixpoint dbuf_init_retry (failures : nat) (hsize : Z) : Z :=
  match failures with
  | O => hsize
  | S failures' => dbuf_init_retry failures' (Z.shiftr hsize 1)
  end.

Definition dbuf_init (physmem PAGESIZE : Z) (failures : nat) (fuel : nat)
    (h : dbuf_hash_table_t) : option dbuf_hash_table_t :=
  hsize ← dbuf_init_hsize fuel (Z.shiftl 1 16) (wrap_u64 (wrap_u64 physmem * PAGESIZE));
  let hsize := dbuf_init_retry failures hsize in
  Some (mk_hash_table (wrap_u64 (hsize - 1)) (replicate (Z.to_nat hsize) [])
          (dbuf_hash_count h)).

End HashTable.

(** The bucket a dbuf belongs to. *)
Definition hash_idx `{hdr : dbuf_headers} (crc : Z → Z) (db : hashed_dbuf_t)
    (h : dbuf_hash_table_t) : Z :=
  Z.land (DBUF_HASH crc (hd_objset db) (db_object (hd_db db)) (db_level (hd_db db))
            (db_blkid (hd_db db)))
         (hash_table_mask h).

(** The hash table as [dbuf_init] builds it and the other functions
    keep it: a power of two of buckets, the mask one less; each dbuf in
    the bucket of its hash; [dbuf_hash_count] the number of dbufs. *)
Definition hash_table_inv `{hdr : dbuf_headers} (crc : Z → Z)
    (h : dbuf_hash_table_t) : Prop :=
  (∃ k, 0 ≤ k ∧ hash_table_mask h = Z.ones k
        ∧ length (hash_table h) = Z.to_nat (2 ^ k))
  ∧ (∀ (i : nat) chain db,
       hash_table h !! i = Some chain → db ∈ chain →
       hash_idx crc db h = Z.of_nat i)
  ∧ dbuf_hash_count h = wrap_u64 (Z.of_nat (length (concat (hash_table h)))).

(** ** The values of illumos

    An instance of the header constants with the values illumos gives
    them: the states as the bits [0x01] to [0x40], 512-byte to 128K
    blocks, [DMU_BONUS_BLKID = -1ULL], [DMU_SPILL_BLKID = -2ULL]. *)

Definition illumos_state_bit (s : dbuf_states_t) : Z :=
  match s with
  | ST_UNCACHED => 0 | ST_FILL => 1 | ST_NOFILL => 2 | ST_READ => 3
  | ST_CACHED => 4 | ST_EVICTING => 5 | ST_PARTIAL => 6
  end.

#[global] Program Instance illumos_headers : dbuf_headers := {|
  state_bit := illumos_state_bit;
  SPA_MINBLOCKSHIFT := 9;
  SPA_MAXBLOCKSHIFT := 17;
  DMU_BONUS_BLKID := 2 ^ 64 - 1;
  DMU_SPILL_BLKID := 2 ^ 64 - 2;
  DMU_META_DNODE_OBJECT := 0;
  SPA_BLKPTRSHIFT := 7;
  DN_MAX_BONUSLEN := 320;
  EIO := 5;
  ENOTSUP := 48
|}.
Next Obligation. intros []; cbn; lia. Qed.
Next Obligation. intros [] []; cbn; intros; congruence. Qed.
Next Obligation. lia. Qed.
Next Obligation. lia. Qed.
Next Obligation. lia. Qed.
Next Obligation. lia. Qed.
Next Obligation. lia. Qed.

(** ** States for the examples

    A 512-byte level-0 dbuf of object 42, block 7, and the pieces the
    examples below vary. *)

Definition example_dn : dnode_t := mk_dn 42 100 14 false 0 0 [].

Definition example_env : environment :=
  mk_env None (replicate 8 Byte.xdd) 0 false true false Byte.xff.

Definition example_db (state : Z) (buf : ptr) (holds : Z)
    (drs : list dbuf_dirty_record_t) : dmu_buf_impl_t :=
  mk_db 42 8 buf 0 7 state buf (Some (mk_bp false 5)) holds
        (Z.of_nat (length drs)) drs None 0 false false [].

Definition example_world (db : dmu_buf_impl_t) (arc : gmap nat arc_buf_t) : world :=
  mk_world db example_dn arc [] 200 [] None 0 example_env.

(** A cached dbuf whose user is [user]. *)
Definition user_world (user : Z) : world :=
  example_world
    (set_db_user user (example_db DB_CACHED (Some 1%nat) 1 []))
    {[ 1%nat := mk_arc_buf (replicate 8 Byte.x00) false ]}.

(** A dirty record at address 100 of transaction group 1 whose buffer
    is buffer 1 and whose write ranges are [ranges]. *)
Definition example_dr (ranges : list dbuf_dirty_range_t) : dbuf_dirty_record_t :=
  mk_dr 100 1 None None (Some 1%nat) ranges DR_NOT_OVERRIDDEN false false.

Definition ranges_world (ranges : list dbuf_dirty_range_t) : world :=
  example_world
    (example_db (Z.lor DB_PARTIAL DB_FILL) (Some 1%nat) 2 [example_dr ranges])
    {[ 1%nat := mk_arc_buf (replicate 8 Byte.xcc) true ]}.


(** A cached spill dbuf of 8 bytes that is not dirty. *)
Definition spill_world : world :=
  example_world
    (set_db_blkid DMU_SPILL_BLKID (example_db DB_CACHED (Some 1%nat) 1 []))
    {[ 1%nat := mk_arc_buf (replicate 8 Byte.xcc) false ]}.

(** An uncached dbuf of 8 bytes: no frontend buffer, no dirty record. *)
Definition uncached_world : world :=
  example_world (example_db DB_UNCACHED None 1 []) ∅.

(** A dbuf on which a read is outstanding, in [state], with two dirty
    records.  The record of transaction group 1 has written bytes 2
    and 3 of its buffer 1, and the syncer has stashed its write (zio
    9).  The record of transaction group 2 has written the whole block
    and has no write range; its buffer 2 is the frontend.  Buffer 3 is
    the one the read fills. *)
Definition resolve_world (state : Z) : world :=
  example_world
    (example_db state (Some 2%nat) 3
       [mk_dr 101 2 None None (Some 2%nat) [] DR_NOT_OVERRIDDEN false false;
        mk_dr 100 1 (Some 9%nat) None (Some 1%nat) [mk_range 2 4 2]
          DR_NOT_OVERRIDDEN false false])
    {[ 1%nat := mk_arc_buf (replicate 8 Byte.xaa) true;
       2%nat := mk_arc_buf (replicate 8 Byte.xcc) true;
       3%nat := mk_arc_buf (replicate 8 Byte.xdd) true ]}.

(** The dbuf of [resolve_world] after its block was freed: it is
    uncached, has no block pointer and no frontend; the dirty records
    and their buffers are those of [resolve_world]. *)
Definition freed_world : world :=
  example_world
    (set_db_blkptr None
       (example_db DB_UNCACHED None 3
          [mk_dr 101 2 None None (Some 2%nat) [] DR_NOT_OVERRIDDEN false false;
           mk_dr 100 1 (Some 9%nat) None (Some 1%nat) [mk_range 2 4 2]
             DR_NOT_OVERRIDDEN false false]))
    {[ 1%nat := mk_arc_buf (replicate 8 Byte.xaa) true;
       2%nat := mk_arc_buf (replicate 8 Byte.xcc) true ]}.

(** A table for [dbuf_hash]; the real [zfs_crc64_table] is not in the
    sources at hand. *)
Definition example_crc64_table (i : Z) : Z := i * 2654435761 + 97.

(** A hash table of four buckets without dbufs, the dbuf of
    [example_db] at address 500 in the objset at 64, and the table
    [dbuf_hash_insert] makes of the two. *)
Definition empty_hash_table : dbuf_hash_table_t :=
  mk_hash_table 3 [[]; []; []; []] 0.

Definition example_hashed (blkid : Z) : hashed_dbuf_t :=
  mk_hdb (500 + Z.to_nat blkid) 64
    (set_db_blkid blkid (example_db DB_CACHED (Some 1%nat) 1 [])).

Definition one_hash_table : dbuf_hash_table_t :=
  Eval vm_compute in
  match dbuf_hash_insert example_crc64_table (example_hashed 7) empty_hash_table with
  | Some (_, h) => h
  | None => empty_hash_table
  end.

(** * Properties *)

Section Properties.
Context `{hdr : dbuf_headers}.

(** ** The state bits *)

Lemma state_mask_pos (s : dbuf_states_t) : 0 < state_mask s.
Proof. unfold state_mask. pose proof (state_bit_range s). apply Z.pow_pos_nonneg; lia. Qed.

Lemma state_mask_testbit (s : dbuf_states_t) (i : Z) :
  Z.testbit (state_mask s) i = (state_bit s =? i).
Proof. unfold state_mask. apply Z.pow2_bits_eqb. apply state_bit_range. Qed.

Lemma state_mask_inj (s t : dbuf_states_t) : state_mask s = state_mask t → s = t.
Proof.
  intros H. apply state_bit_inj. unfold state_mask in H.
  pose proof (state_bit_range s). pose proof (state_bit_range t).
  apply (Z.pow_inj_r 2); lia.
Qed.

Lemma state_land (s t : dbuf_states_t) :
  Z.land (state_mask s) (state_mask t) = if decide (s = t) then state_mask s else 0.
Proof.
  destruct (decide (s = t)) as [->|Hne].
  - apply Z.land_diag.
  - apply Z.bits_inj'. intros i _.
    rewrite Z.land_spec, !state_mask_testbit, Z.bits_0.
    destruct (state_bit s =? i) eqn:E1, (state_bit t =? i) eqn:E2; try reflexivity.
    exfalso. apply Hne, state_bit_inj. lia.
Qed.

Lemma state_land_lnot (s t : dbuf_states_t) :
  Z.land (state_mask s) (Z.lnot (state_mask t)) = if decide (s = t) then 0 else state_mask s.
Proof.
  apply Z.bits_inj'. intros i Hi.
  rewrite Z.land_spec, Z.lnot_spec, !state_mask_testbit by done.
  destruct (decide (s = t)) as [->|Hne].
  - rewrite Z.bits_0. destruct (state_bit t =? i); reflexivity.
  - rewrite state_mask_testbit.
    destruct (state_bit s =? i) eqn:E1, (state_bit t =? i) eqn:E2; try reflexivity.
    exfalso. apply Hne, state_bit_inj. lia.
Qed.

Lemma state_mask_nonzero (s : dbuf_states_t) : state_mask s ≠ 0.
Proof. pose proof (state_mask_pos s). lia. Qed.

Lemma state_lor_nonzero_l (s : dbuf_states_t) (x : Z) : 0 ≤ x → Z.lor (state_mask s) x ≠ 0.
Proof.
  intros Hx H. apply Z.lor_eq_0_iff in H as [H _]. by apply state_mask_nonzero in H.
Qed.


Lemma state_lor_0_l x : Z.lor 0 x = x. Proof. apply Z.lor_0_l. Qed.
Lemma state_lor_0_r x : Z.lor x 0 = x. Proof. apply Z.lor_0_r. Qed.

End Properties.

Create Rewrite HintDb dbuf_state.

#[global] Hint Rewrite @state_land @state_land_lnot Z.land_lor_distr_l Z.land_lor_distr_r
  Z.lor_0_l Z.lor_0_r Z.land_0_l Z.land_0_r Z.lor_diag Z.land_diag : dbuf_state.

Ltac state_unfold :=
  unfold DB_UNCACHED, DB_FILL, DB_NOFILL, DB_READ, DB_CACHED, DB_EVICTING, DB_PARTIAL,
    op_set, op_or, op_and in *.

Ltac state_norm :=
  state_unfold;
  repeat (progress (autorewrite with dbuf_state; cbn [decide decide_rel dbuf_states_eq_dec
            dbuf_states_t_rect dbuf_states_t_rec sumbool_rec sumbool_rect]));
  repeat (rewrite decide_True by reflexivity || rewrite decide_False by discriminate).

Ltac state_norm_in H :=
  state_unfold;
  repeat (progress (autorewrite with dbuf_state in H));
  repeat (rewrite decide_True in H by reflexivity || rewrite decide_False in H by discriminate);
  repeat (progress (autorewrite with dbuf_state in H)).

Ltac state_absurd H :=
  solve [ exfalso; first
    [ exact (state_mask_nonzero _ H)
    | exact (state_mask_nonzero _ (eq_sym H))
    | apply Z.lor_eq_0_iff in H; destruct H as [H _]; exact (state_mask_nonzero _ H)
    | symmetry in H; apply Z.lor_eq_0_iff in H; destruct H as [H _];
      exact (state_mask_nonzero _ H) ] ].

Ltac state_probe H s :=
  let H' := fresh in
  pose proof (f_equal (fun x => Z.land x (state_mask s)) H) as H';
  cbv beta in H'; state_norm_in H'; state_absurd H'.

(** Two masks built from distinct sets of states differ. *)
Ltac state_neq :=
  let H := fresh "Hst" in
  intro H; state_unfold;
  first [ state_probe H ST_UNCACHED | state_probe H ST_FILL | state_probe H ST_NOFILL
        | state_probe H ST_READ | state_probe H ST_CACHED | state_probe H ST_EVICTING
        | state_probe H ST_PARTIAL ].


Section UserAndSpill.
Context `{hdr : dbuf_headers}.

(** ** Running the monad *)

Lemma bind_Ok {A B} (m : M A) (k : A → M B) (w w' : world) (b : B) :
  bind m k w = Ok b w' ↔ ∃ a w1, m w = Ok a w1 ∧ k a w1 = Ok b w'.
Proof.
  unfold bind. split.
  - destruct (m w) as [a w1|e]; [eauto|discriminate].
  - intros (a & w1 & -> & H). exact H.
Qed.

Lemma bind_eq {A B} (m : M A) (k : A → M B) (w w1 : world) (a : A) :
  m w = Ok a w1 → bind m k w = k a w1.
Proof. unfold bind. by intros ->. Qed.

(** ** Block sizes *)

Lemma SPA_MINBLOCKSIZE_eq : SPA_MINBLOCKSIZE = 2 ^ SPA_MINBLOCKSHIFT.
Proof.
  unfold SPA_MINBLOCKSIZE. pose proof spa_shift_range.
  rewrite Z.shiftl_mul_pow2 by lia. lia.
Qed.

Lemma SPA_MAXBLOCKSIZE_eq : SPA_MAXBLOCKSIZE = 2 ^ SPA_MAXBLOCKSHIFT.
Proof.
  unfold SPA_MAXBLOCKSIZE. pose proof spa_shift_range.
  rewrite Z.shiftl_mul_pow2 by lia. lia.
Qed.

Lemma SPA_MINBLOCKSIZE_pos : 0 < SPA_MINBLOCKSIZE.
Proof.
  rewrite SPA_MINBLOCKSIZE_eq. pose proof spa_shift_range.
  apply Z.pow_pos_nonneg; lia.
Qed.

Lemma SPA_MAXBLOCKSIZE_multiple :
  SPA_MAXBLOCKSIZE = 2 ^ (SPA_MAXBLOCKSHIFT - SPA_MINBLOCKSHIFT) * SPA_MINBLOCKSIZE.
Proof.
  rewrite SPA_MINBLOCKSIZE_eq, SPA_MAXBLOCKSIZE_eq. pose proof spa_shift_range.
  rewrite <- Z.pow_add_r by lia. f_equal. lia.
Qed.

Lemma SPA_MAXBLOCKSIZE_bound : SPA_MINBLOCKSIZE ≤ SPA_MAXBLOCKSIZE < 2 ^ 31.
Proof.
  rewrite SPA_MINBLOCKSIZE_eq, SPA_MAXBLOCKSIZE_eq. pose proof spa_shift_range.
  split.
  - apply Z.pow_le_mono_r; lia.
  - apply Z.pow_lt_mono_r; lia.
Qed.

(** [P2ROUNDUP x align] is the least multiple of [align] that is not
    below [x], as long as it fits 64 bits. *)
Lemma P2ROUNDUP_spec (x align bound : Z) :
  0 < align → 0 ≤ x ≤ bound → bound < 2 ^ 64 → (∃ k, bound = k * align) →
  (∃ k, P2ROUNDUP x align = k * align)
  ∧ x ≤ P2ROUNDUP x align < x + align
  ∧ P2ROUNDUP x align ≤ bound.
Proof.
  intros Ha Hx Hb [kb Hkb]. unfold P2ROUNDUP, wrap_u64.
  set (q := (x + align - 1) / align).
  assert (Hq : align * q ≤ x + align - 1 < align * q + align).
  { pose proof (Z.mul_div_le (x + align - 1) align Ha).
    pose proof (Z.mul_succ_div_gt (x + align - 1) align Ha). fold q in H, H0. lia. }
  assert (Hqb : q ≤ kb) by nia.
  assert (0 ≤ q) by (apply Z.div_pos; lia).
  rewrite Z.mod_small by nia.
  split; [exists q; lia|]. split; nia.
Qed.

Lemma spill_blksz_zero : spill_blksz 0 = SPA_MINBLOCKSIZE.
Proof.
  unfold spill_blksz. cbn [Z.eqb].
  pose proof SPA_MAXBLOCKSIZE_bound. pose proof SPA_MINBLOCKSIZE_pos.
  destruct (Z.gtb_spec SPA_MINBLOCKSIZE SPA_MAXBLOCKSIZE); [lia|].
  destruct (P2ROUNDUP_spec SPA_MINBLOCKSIZE SPA_MINBLOCKSIZE SPA_MINBLOCKSIZE)
    as ([k Hk] & ? & ?); try lia.
  exists 1; lia.
Qed.

Lemma spill_blksz_large (blksz : Z) :
  SPA_MAXBLOCKSIZE < blksz → spill_blksz blksz = SPA_MAXBLOCKSIZE.
Proof.
  intros H. unfold spill_blksz. pose proof SPA_MINBLOCKSIZE_pos.
  pose proof SPA_MAXBLOCKSIZE_bound.
  destruct (Z.eqb_spec blksz 0); [lia|].
  destruct (Z.gtb_spec blksz SPA_MAXBLOCKSIZE); [done|lia].
Qed.

Lemma spill_blksz_round (blksz : Z) :
  0 < blksz ≤ SPA_MAXBLOCKSIZE →
  (∃ k, spill_blksz blksz = k * SPA_MINBLOCKSIZE)
  ∧ blksz ≤ spill_blksz blksz < blksz + SPA_MINBLOCKSIZE
  ∧ spill_blksz blksz ≤ SPA_MAXBLOCKSIZE.
Proof.
  intros H. unfold spill_blksz. pose proof SPA_MINBLOCKSIZE_pos.
  pose proof SPA_MAXBLOCKSIZE_bound.
  destruct (Z.eqb_spec blksz 0); [lia|].
  destruct (Z.gtb_spec blksz SPA_MAXBLOCKSIZE); [lia|].
  apply P2ROUNDUP_spec; try lia.
  eexists. apply SPA_MAXBLOCKSIZE_multiple.
Qed.

Lemma spill_blksz_range (blksz : Z) :
  0 ≤ blksz → 0 < spill_blksz blksz ≤ SPA_MAXBLOCKSIZE.
Proof.
  intros H. pose proof SPA_MINBLOCKSIZE_pos. pose proof SPA_MAXBLOCKSIZE_bound.
  destruct (Z.eq_dec blksz 0) as [->|].
  - rewrite spill_blksz_zero. lia.
  - destruct (Z_lt_le_dec SPA_MAXBLOCKSIZE blksz).
    + rewrite spill_blksz_large by done. lia.
    + pose proof (spill_blksz_round blksz). lia.
Qed.

Lemma wrap_int_small (z : Z) : - 2 ^ 31 ≤ z < 2 ^ 31 → wrap_int z = z.
Proof. intros H. unfold wrap_int. rewrite Z.mod_small; lia. Qed.

Lemma wrap_u64_small (z : Z) : 0 ≤ z < 2 ^ 64 → wrap_u64 z = z.
Proof. intros H. unfold wrap_u64. by rewrite Z.mod_small. Qed.

End UserAndSpill.

Section Ranges.

Lemma check_ranges_from_gapped (prev : option dbuf_dirty_range_t)
    (l : list dbuf_dirty_range_t) :
  check_ranges_from prev l = true ↔
  match prev, l with
  | Some p, cur :: _ => rg_end p < rg_start cur
  | _, _ => True
  end ∧ gapped l.
Proof.
  revert prev. induction l as [|cur rest IH]; intros prev; cbn [check_ranges_from gapped].
  - destruct prev; tauto.
  - rewrite !andb_true_iff, IH.
    destruct prev as [p|], rest as [|next rest']; rewrite ?Z.ltb_lt; cbn [gapped]; tauto.
Qed.

Lemma check_ranges_gapped (l : list dbuf_dirty_range_t) :
  dbuf_dirty_record_check_ranges l = true ↔ gapped l.
Proof. unfold dbuf_dirty_record_check_ranges. rewrite check_ranges_from_gapped. tauto. Qed.

(** In a gapped list of well-formed ranges, what follows a range starts
    beyond its end. *)
Lemma gapped_cons_Forall (r : dbuf_dirty_range_t) (l : list dbuf_dirty_range_t) :
  Forall range_wf l → gapped (r :: l) → Forall (fun s => rg_end r < rg_start s) l.
Proof.
  revert r. induction l as [|s l IH]; intros r Hwf Hg; [constructor|].
  destruct Hg as [Hrs Hg]. inversion Hwf as [|? ? Hs Hl]; subst.
  constructor; [exact Hrs|].
  eapply Forall_impl; [apply (IH s Hl Hg)|].
  cbn. intros x Hx. destruct Hs as (? & ? & ? & ?). lia.
Qed.

Lemma gapped_app_cons (a : list dbuf_dirty_range_t) (r : dbuf_dirty_range_t)
    (b : list dbuf_dirty_range_t) :
  gapped (a ++ r :: b) ↔
  gapped a ∧ gapped b
  ∧ match last a with Some x => rg_end x < rg_start r | None => True end
  ∧ match b with s :: _ => rg_end r < rg_start s | [] => True end.
Proof.
  induction a as [|x a IH]; cbn [app gapped last].
  - destruct b; cbn [gapped]; tauto.
  - rewrite IH. destruct a as [|y a]; cbn [app last gapped]; [tauto|].
    cbn [last] in *. 
    change (last (x :: y :: a)) with (last (y :: a)). tauto.
Qed.


Lemma gapped_app (a b : list dbuf_dirty_range_t) :
  gapped (a ++ b) ↔
  gapped a ∧ gapped b
  ∧ match last a, b with Some x, s :: _ => rg_end x < rg_start s | _, _ => True end.
Proof.
  induction a as [|x a IH]; cbn [app gapped last].
  - tauto.
  - rewrite IH. destruct a as [|y a]; cbn [app last gapped].
    + destruct b; tauto.
    + change (last (x :: y :: a)) with (last (y :: a)). tauto.
Qed.

Lemma covered_nil (i : Z) : covered [] i ↔ False.
Proof. unfold covered. apply Exists_nil. Qed.

Lemma covered_cons (r : dbuf_dirty_range_t) (l : list dbuf_dirty_range_t) (i : Z) :
  covered (r :: l) i ↔ range_covers r i ∨ covered l i.
Proof. unfold covered. apply Exists_cons. Qed.

Lemma covered_app (a b : list dbuf_dirty_range_t) (i : Z) :
  covered (a ++ b) i ↔ covered a i ∨ covered b i.
Proof. unfold covered. apply Exists_app. Qed.

Lemma add_range_loop_spec (l : list dbuf_dirty_range_t) :
  ∀ (range : dbuf_dirty_range_t) (lo : Z) kept r tl,
  Forall range_wf l → gapped l → range_wf range →
  lo < rg_start range →
  match l with x :: _ => lo < rg_start x | [] => True end →
  add_range_loop range l = (kept, r, tl) →
  range_wf r ∧ lo < rg_start r
  ∧ rg_start r ≤ rg_start range ∧ rg_end range ≤ rg_end r
  ∧ Forall range_wf kept ∧ Forall range_wf tl
  ∧ gapped kept ∧ gapped tl
  ∧ match kept with x :: _ => lo < rg_start x | [] => True end
  ∧ match last kept with Some x => rg_end x < rg_start r | None => True end
  ∧ match tl with s :: _ => rg_end r < rg_start s | [] => True end
  ∧ (∀ i, covered (kept ++ r :: tl) i ↔ covered l i ∨ range_covers range i)
  ∧ (∀ x, x ∈ kept ∨ x ∈ tl → x ∈ l)
  ∧ (rg_end r = rg_end range ∨ ∃ x, x ∈ l ∧ rg_end r = rg_end x).
Proof.
  induction l as [|old rest IH]; intros range lo kept r tl Hwf Hg Hr Hlo Hhd Heq.
  - cbn in Heq. inversion Heq; subst. cbn.
    split_and!; try done; try lia.
    all: first [ by left | intros x [Hx|Hx]; exact Hx | intros i; rewrite covered_cons; tauto ].
  - cbn [add_range_loop] in Heq.
    inversion Hwf as [|? ? Hold Hrest]; subst.
    pose proof (gapped_cons_Forall old rest Hrest Hg) as Hafter.
    destruct Hg as [Hg1 Hg].
    pose proof Hr as (Hr0 & Hr1 & Hr2 & Hr3). pose proof Hold as (Ho0 & Ho1 & Ho2 & Ho3).
    destruct (Z.leb_spec (rg_start old) (rg_end range)) as [Hle|Hgt].
    + destruct (Z.leb_spec (rg_start range) (rg_end old)) as [Hle2|Hgt2];
        cbn [andb] in Heq.
      * destruct (Z.geb_spec (rg_end range) (rg_start old)) as [_|?]; [|lia].
        set (s := MIN (rg_start range) (rg_start old)) in *.
        set (e := MAX (rg_end range) (rg_end old)) in *.
        assert (Hs : s = Z.min (rg_start range) (rg_start old)).
        { unfold s, MIN. destruct (Z.ltb_spec (rg_start range) (rg_start old)); lia. }
        assert (He : e = Z.max (rg_end range) (rg_end old)).
        { unfold e, MAX. destruct (Z.ltb_spec (rg_end range) (rg_end old)); lia. }
        unfold INT_MAX in *.
        rewrite wrap_int_small in Heq by lia.
        apply (IH _ lo) in Heq; cycle 1.
        { done. } { done. }
        { unfold range_wf, INT_MAX. cbn. lia. }
        { cbn. lia. }
        { destruct rest as [|x rest']; [done|]. inversion Hafter; subst. lia. }
        cbn [rg_start rg_end] in Heq.
        destruct Heq as (Hwr & Hlor & Hsr & Her & Hk & Ht & Hgk & Hgt' & Hkh & Hkl & Hth
                         & Hcov & Hsub & Hend).
        split_and!; try done; try lia.
        -- intros i. rewrite Hcov, covered_cons. unfold range_covers. cbn.
           split; intros Hc.
           ++ destruct Hc as [Hc|Hc]; [tauto|].
              destruct (Z_lt_le_dec i (rg_end range)).
              ** destruct (Z_le_gt_dec (rg_start range) i); [right; lia|left; left; lia].
              ** left; left; lia.
           ++ destruct Hc as [[Hc|Hc]|Hc]; [right; lia|tauto|right; lia].
        -- intros x Hx. apply elem_of_cons. right. by apply Hsub.
        -- destruct Hend as [Hend|(x & Hx & Hend)].
           ++ cbn in Hend. destruct (Z_le_gt_dec (rg_end old) (rg_end range)).
              ** left. lia.
              ** right. exists old. split; [apply elem_of_cons; by left|lia].
           ++ right. exists x. split; [apply elem_of_cons; by right|done].
      * destruct (add_range_loop range rest) as [[kept' r'] tl'] eqn:Hloop.
        inversion Heq; subst. clear Heq.
        apply (IH _ (rg_end old)) in Hloop; [|done|done|done|lia|].
        2:{ destruct rest as [|x rest']; [done|]. inversion Hafter; subst. lia. }
        destruct Hloop as (Hwr & Hlor & Hsr & Her & Hk & Ht & Hgk & Hgt' & Hkh & Hkl & Hth
                           & Hcov & Hsub & Hend).
        split_and!; try done; try lia; try (by constructor).
        -- destruct kept' as [|y k']; [cbn; lia|].
           change (last (old :: y :: k')) with (last (y :: k')). done.
        -- intros i. cbn [app]. rewrite !covered_cons, Hcov. tauto.
        -- intros x [Hx|Hx].
           ++ apply elem_of_cons in Hx as [->|Hx]; [apply elem_of_cons; by left|].
              apply elem_of_cons. right. apply Hsub. by left.
           ++ apply elem_of_cons. right. apply Hsub. by right.
        -- destruct Hend as [Hend|(x & Hx & Hend)]; [by left|].
           right. exists x. split; [apply elem_of_cons; by right|done].
    + inversion Heq; subst. cbn.
      split_and!; try done; try lia.
      all: first [ by left | intros x [Hx|Hx]; [by apply elem_of_nil in Hx|done]
                 | intros i; rewrite !covered_cons; tauto ].
Qed.

End Ranges.
Section Store.

Lemma find_update_dr_eq (a : nat) (f : dbuf_dirty_record_t → dbuf_dirty_record_t)
    (l : list dbuf_dirty_record_t) :
  (∀ r, dr_addr (f r) = dr_addr r) →
  List.find (dr_has_addr a) (update_dr a f l) = f <$> List.find (dr_has_addr a) l.
Proof.
  intros Hf. induction l as [|x l IH]; [done|]. cbn.
  destruct (dr_has_addr a x) eqn:E.
  - unfold dr_has_addr at 1. rewrite Hf. fold (dr_has_addr a x). by rewrite E.
  - by rewrite E.
Qed.

Lemma find_update_dr_ne (a b : nat) (f : dbuf_dirty_record_t → dbuf_dirty_record_t)
    (l : list dbuf_dirty_record_t) :
  (∀ r, dr_addr (f r) = dr_addr r) → a ≠ b →
  List.find (dr_has_addr b) (update_dr a f l) = List.find (dr_has_addr b) l.
Proof.
  intros Hf Hne. induction l as [|x l IH]; [done|]. cbn.
  destruct (dr_has_addr a x) eqn:E.
  - unfold dr_has_addr at 1. rewrite Hf.
    assert (dr_has_addr b x = false) as Hb.
    { unfold dr_has_addr in *. apply Nat.eqb_eq in E. apply Nat.eqb_neq. lia. }
    fold (dr_has_addr b x). by rewrite Hb.
  - destruct (dr_has_addr b x); [done|exact IH].
Qed.

Lemma update_dr_app a f l1 l2 : update_dr a f (l1 ++ l2) = update_dr a f l1 ++ update_dr a f l2.
Proof. unfold update_dr. apply List.map_app. Qed.

Lemma find_dr_update_world_eq (a : nat) (f : dbuf_dirty_record_t → dbuf_dirty_record_t)
    (w : world) :
  (∀ r, dr_addr (f r) = dr_addr r) →
  find_dr a (update_dr_world a f w) = f <$> find_dr a w.
Proof.
  intros Hf. unfold find_dr, update_dr_world. cbn.
  rewrite <- update_dr_app. by apply find_update_dr_eq.
Qed.

Lemma find_dr_update_world_ne (a b : nat) (f : dbuf_dirty_record_t → dbuf_dirty_record_t)
    (w : world) :
  (∀ r, dr_addr (f r) = dr_addr r) → a ≠ b →
  find_dr b (update_dr_world a f w) = find_dr b w.
Proof.
  intros Hf Hne. unfold find_dr, update_dr_world. cbn.
  rewrite <- update_dr_app. by apply find_update_dr_ne.
Qed.

Lemma get_dr_run (a : nat) (w : world) (r : dbuf_dirty_record_t) :
  find_dr a w = Some r → get_dr (Some a) w = Ok r w.
Proof. intros H. unfold get_dr, bind, deref, ret. by rewrite H. Qed.

Lemma modify_dr_run (a : nat) (f : dbuf_dirty_record_t → dbuf_dirty_record_t)
    (w : world) (r : dbuf_dirty_record_t) :
  find_dr a w = Some r → modify_dr (Some a) f w = Ok tt (update_dr_world a f w).
Proof.
  intros H. unfold modify_dr, bind. rewrite (get_dr_run a w r H). done.
Qed.

End Store.

Section AddRange.
Context `{hdr : dbuf_headers}.

Lemma ranges_inv_sorted (l : list dbuf_dirty_range_t) :
  ranges_inv l → StronglySorted (fun r s => rg_start r < rg_start s) l.
Proof.
  intros [Hwf Hg]. apply check_ranges_gapped in Hg.
  induction l as [|r l IH]; [constructor|].
  inversion Hwf as [|? ? Hr Hl]; subst.
  pose proof (gapped_cons_Forall r l Hl Hg) as Hafter.
  constructor.
  - apply IH; [done|]. by destruct Hg.
  - eapply Forall_impl; [exact Hafter|]. cbn. intros s Hs.
    destruct Hr as (? & ? & ? & ?). lia.
Qed.

Lemma last_None_nil {A} (l : list A) : last l = None → l = [].
Proof. destruct l using rev_ind; [done|]. rewrite last_snoc. discriminate. Qed.

Lemma add_range_list_spec (dbsize offset size : Z) (l : list dbuf_dirty_range_t) :
  ranges_inv l → Forall (fun r => rg_end r ≤ dbsize) l →
  0 ≤ offset → 0 ≤ size → offset + size ≤ dbsize → dbsize ≤ INT_MAX →
  let l' := add_range_list dbsize offset size l in
  ranges_inv l' ∧ Forall (fun r => rg_end r ≤ dbsize) l'
  ∧ ((∀ i, covered l' i ↔ covered l i ∨ offset ≤ i < offset + size)
     ∨ (l' = [] ∧ ∀ i, 0 ≤ i < dbsize ↔ covered l i ∨ offset ≤ i < offset + size)).
Proof.
  intros [Hwf Hg] Hin Ho Hs Hos Hmax. apply check_ranges_gapped in Hg.
  cbn zeta. unfold add_range_list.
  unfold INT_MAX in *.
  rewrite wrap_int_small by lia.
  set (range := mk_range offset (offset + size) size).
  destruct (add_range_loop range l) as [[kept r] tl] eqn:Hloop.
  assert (Hrange : range_wf range) by (unfold range_wf, INT_MAX; cbn; lia).
  apply (add_range_loop_spec l range (-1)) in Hloop; [|done|done|done|cbn; lia|].
  2:{ destruct l as [|x l']; [done|]. inversion Hwf as [|? ? Hx ?]; subst.
      destruct Hx as (? & _). lia. }
  destruct Hloop as (Hwr & Hlor & Hsr & Her & Hk & Ht & Hgk & Hgt' & Hkh & Hkl & Hth
                     & Hcov & Hsub & Hend).
  rewrite Forall_forall in Hin.
  assert (Hinr : rg_end r ≤ dbsize).
  { destruct Hend as [->|(x & Hx & ->)]; [cbn; lia|by apply Hin]. }
  assert (Hink : Forall (fun r => rg_end r ≤ dbsize) kept).
  { rewrite Forall_forall. intros x Hx. apply Hin, Hsub. by left. }
  assert (Hint : Forall (fun r => rg_end r ≤ dbsize) tl).
  { rewrite Forall_forall. intros x Hx. apply Hin, Hsub. by right. }
  pose proof Hwr as (Hr0 & Hr1 & Hr2 & Hr3).
  destruct ((rg_start r =? 0) && (wrap_u64 (rg_size r) =? dbsize)) eqn:Hfull.
  - apply andb_true_iff in Hfull as [H0 Hsz].
    apply Z.eqb_eq in H0. apply Z.eqb_eq in Hsz.
    unfold wrap_u64 in Hsz. rewrite Z.mod_small in Hsz by lia.
    assert (kept = []) as ->.
    { apply last_None_nil. destruct (last kept) as [x|] eqn:Hl; [|done]. exfalso.
      assert (x ∈ kept) as Hx.
      { destruct kept as [|y k] using rev_ind; [done|].
        rewrite last_snoc in Hl. inversion Hl; subst. apply elem_of_app. right.
        by apply list_elem_of_singleton. }
      rewrite Forall_forall in Hk. destruct (Hk x Hx) as (? & ? & ?). lia. }
    assert (tl = []) as ->.
    { destruct tl as [|x tl']; [done|]. exfalso.
      inversion Ht as [|? ? Hx _]; subst. inversion Hint; subst.
      destruct Hx as (? & ? & ?). lia. }
    cbn [app]. split_and!.
    + split; [constructor|done].
    + constructor.
    + right. split; [done|]. intros i. specialize (Hcov i). cbn [app] in Hcov.
      rewrite covered_cons, covered_nil in Hcov. unfold range_covers in Hcov.
      cbn [rg_start rg_end range] in Hcov. rewrite <- Hcov. lia.
  - split_and!.
    + split.
      * apply Forall_app. split; [done|]. by constructor.
      * apply check_ranges_gapped, gapped_app_cons. done.
    + apply Forall_app. split; [done|]. by constructor.
    + left. intros i. rewrite Hcov. unfold range_covers. by cbn.
Qed.


Lemma DBUF_STATE_CHANGE_run (op : Z → Z → Z) (state : Z) (why : string) (w : world) :
  DBUF_STATE_CHANGE op state why w
  = Ok tt (set_w_log (EvStateChange (op (db_state (w_db w)) state) why :: w_log w)
             (set_w_db (set_db_state (op (db_state (w_db w)) state) (w_db w)) w)).
Proof. reflexivity. Qed.

(** C7.  The write ranges of a level-0 dirty record are sorted by their
    start, and each range ends strictly before the next one starts:
    this is what [dbuf_dirty_record_check_ranges] asserts.  On such a
    list, for a write that lies within the block,
    [dbuf_dirty_record_add_range] returns and leaves a list of the same
    kind, in which the new range is merged with the ranges it overlaps
    or touches: a byte is covered afterwards exactly when it was
    covered before or lies in the new range.  When the ranges together
    cover the whole block, the list is emptied instead. *)
Theorem dbuf_dirty_record_add_range_keeps_ranges (w : world) (a : nat)
    (dr : dbuf_dirty_record_t) (offset size : Z) :
  find_dr a w = Some dr →
  db_level (w_db w) = 0 →
  db_size (w_db w) ≤ INT_MAX →
  ranges_inv (write_ranges dr) →
  Forall (fun r => rg_end r ≤ db_size (w_db w)) (write_ranges dr) →
  0 ≤ offset → 0 ≤ size → offset + size ≤ db_size (w_db w) →
  ∃ w' dr',
    dbuf_dirty_record_add_range (Some a) offset size w = Ok tt w'
    ∧ find_dr a w' = Some dr'
    ∧ dbuf_dirty_record_check_ranges (write_ranges dr') = true
    ∧ gapped (write_ranges dr')
    ∧ ranges_inv (write_ranges dr')
    ∧ StronglySorted (fun r s => rg_start r < rg_start s) (write_ranges dr')
    ∧ Forall (fun r => rg_end r ≤ db_size (w_db w')) (write_ranges dr')
    ∧ ((∀ i, covered (write_ranges dr') i
             ↔ covered (write_ranges dr) i ∨ offset ≤ i < offset + size)
       ∨ (write_ranges dr' = []
          ∧ ∀ i, 0 ≤ i < db_size (w_db w)
                 ↔ covered (write_ranges dr) i ∨ offset ≤ i < offset + size)).
Proof.
  intros Hfind Hlevel Hmax Hinv Hin Ho Hs Hos.
  set (dbsize := db_size (w_db w)) in *.
  pose proof (add_range_list_spec dbsize offset size (write_ranges dr)
                Hinv Hin Ho Hs Hos Hmax) as Hspec. cbn zeta in Hspec.
  set (l' := if (offset =? 0) && (wrap_u64 size =? dbsize) then []
             else add_range_list dbsize offset size (write_ranges dr)).
  set (w1 := update_dr_world a (set_write_ranges l') w).
  assert (Hstep : ∀ k : unit → M unit,
    bind (if (offset =? 0) && (wrap_u64 size =? db_size (w_db w))
          then dbuf_dirty_record_cleanup_ranges (Some a)
          else modify_dr (Some a)
                 (set_write_ranges
                    (add_range_list (db_size (w_db w)) offset size (write_ranges dr))))
         k w = k tt w1).
  { intros k. apply bind_eq. fold dbsize. subst w1 l'.
    destruct ((offset =? 0) && (wrap_u64 size =? dbsize)).
    - unfold dbuf_dirty_record_cleanup_ranges.
      rewrite (bind_eq _ _ _ _ _ (get_dr_run a w dr Hfind)).
      unfold get_db at 1. unfold bind at 1. rewrite Hlevel. cbn [Z.eqb negb].
      by apply (modify_dr_run a _ w dr).
    - by apply (modify_dr_run a _ w dr). }
  assert (Hfind1 : find_dr a w1 = Some (set_write_ranges l' dr)).
  { subst w1. rewrite find_dr_update_world_eq by done. by rewrite Hfind. }
  assert (Hl' : ranges_inv l' ∧ Forall (fun r => rg_end r ≤ dbsize) l'
       ∧ ((∀ i, covered l' i ↔ covered (write_ranges dr) i ∨ offset ≤ i < offset + size)
          ∨ (l' = [] ∧ ∀ i, 0 ≤ i < dbsize
                            ↔ covered (write_ranges dr) i ∨ offset ≤ i < offset + size))).
  { subst l'. destruct ((offset =? 0) && (wrap_u64 size =? dbsize)) eqn:Hfull; [|done].
    apply andb_true_iff in Hfull as [H0 Hsz].
    apply Z.eqb_eq in H0. apply Z.eqb_eq in Hsz. unfold INT_MAX in *.
    rewrite wrap_u64_small in Hsz by lia.
    split_and!; [split; [constructor|done]|constructor|].
    right. split; [done|]. intros i. split; [lia|].
    intros [Hc|Hc]; [|lia].
    unfold covered in Hc. rewrite Exists_exists in Hc. destruct Hc as (x & Hx & Hcx).
    destruct Hinv as [Hwf _]. rewrite Forall_forall in Hwf, Hin.
    specialize (Hwf x Hx) as (? & ? & ?). specialize (Hin x Hx).
    unfold range_covers in Hcx. lia. }
  destruct Hl' as (Hinv' & Hin' & Hcov').
  unfold dbuf_dirty_record_add_range.
  rewrite (bind_eq _ _ _ _ _ (get_dr_run a w dr Hfind)).
  unfold get_db at 1. unfold bind at 1.
  rewrite Hstep.
  unfold get_db at 1. unfold bind at 1.
  rewrite (bind_eq _ _ _ _ _ (get_dr_run a w1 _ Hfind1)).
  cbn [write_ranges set_write_ranges].
  assert (Hsz1 : db_size (w_db w1) = dbsize) by done.
  destruct (negb (Z.land (db_state (w_db w1)) (Z.lor DB_READ DB_PARTIAL) =? 0)
            && bool_decide (l' = [])) eqn:Hchg.
  - apply andb_true_iff in Hchg as [Hc1 Hc2]. rewrite Hc1, Hc2. cbn [when].
    rewrite DBUF_STATE_CHANGE_run.
    eexists _, _. split; [reflexivity|].
    split; [exact Hfind1|]. cbn [write_ranges set_write_ranges].
    split_and!; try done;
      [apply Hinv'|apply check_ranges_gapped, Hinv'|by apply ranges_inv_sorted].
  - exists w1, (set_write_ranges l' dr).
    split.
    { destruct (negb (Z.land (db_state (w_db w1)) (Z.lor DB_READ DB_PARTIAL) =? 0));
        [|done]. cbn [andb] in Hchg. rewrite Hchg. done. }
    split; [exact Hfind1|]. cbn [write_ranges set_write_ranges].
    split_and!; try done;
      [apply Hinv'|apply check_ranges_gapped, Hinv'|by apply ranges_inv_sorted].
Qed.

End AddRange.

(** The record of [ranges_world] has written the bytes 2 and 3 of its
    8-byte block; a write of the bytes 3 to 5 is added. *)
Lemma dbuf_dirty_record_add_range_keeps_ranges_witness :
  ∃ w' dr',
    dbuf_dirty_record_add_range (Some 100%nat) 3 3 (ranges_world [mk_range 2 4 2])
    = Ok tt w'
    ∧ find_dr 100 w' = Some dr'
    ∧ dbuf_dirty_record_check_ranges (write_ranges dr') = true
    ∧ gapped (write_ranges dr').
Proof.
  destruct (dbuf_dirty_record_add_range_keeps_ranges
              (ranges_world [mk_range 2 4 2]) 100
              (example_dr [mk_range 2 4 2]) 3 3)
    as (w' & dr' & Hrun & Hfind & Hcheck & Hgap & _).
  - reflexivity.
  - reflexivity.
  - unfold INT_MAX. cbn. lia.
  - split; [|reflexivity]. constructor; [|constructor].
    unfold range_wf, INT_MAX. cbn. lia.
  - constructor; [|constructor]. cbn. lia.
  - lia.
  - lia.
  - cbn. lia.
  - by exists w', dr'.
Defined.

Section User.

(** C3.  On a dbuf without a user, [dmu_buf_set_user x]
    succeeds (it returns [NULL]) and [dmu_buf_get_user] then returns
    [x]; [dmu_buf_remove_user x] then returns [x] and leaves no user.
    On a dbuf whose user is [y], with [y] other than [x],
    [dmu_buf_remove_user x] returns [y], the user in place, and leaves
    it in place. *)
Theorem dmu_buf_user_roundtrip (w : world) (x y : Z) :
  (db_user (w_db w) = 0 →
   let w1 := set_w_db (set_db_user x (w_db w)) w in
   let w2 := set_w_db (set_db_user 0 (w_db w1)) w1 in
   dmu_buf_set_user x w = Ok 0 w1
   ∧ dmu_buf_get_user w1 = Ok x w1
   ∧ dmu_buf_remove_user x w1 = Ok x w2
   ∧ dmu_buf_get_user w2 = Ok 0 w2)
  ∧ (db_user (w_db w) = y → y ≠ x → dmu_buf_remove_user x w = Ok y w).
Proof.
  split.
  - intros Hu. cbn zeta.
    unfold dmu_buf_set_user, dmu_buf_remove_user, dmu_buf_get_user,
      dmu_buf_replace_user, bind, get_db, modify_db, ret.
    cbn. rewrite Hu, Z.eqb_refl. cbn. rewrite Z.eqb_refl. done.
  - intros Hu Hne.
    unfold dmu_buf_remove_user, dmu_buf_replace_user, bind, get_db, ret.
    rewrite Hu. destruct (Z.eqb_spec y x); [contradiction|done].
Qed.

End User.

(** The dbuf of [user_world 0] has no user, and 2 is another user
    than 1. *)
Lemma dmu_buf_user_roundtrip_witness :
  db_user (w_db (user_world 0)) = 0
  ∧ dmu_buf_get_user (set_w_db (set_db_user 1 (w_db (user_world 0))) (user_world 0))
    = Ok 1 (set_w_db (set_db_user 1 (w_db (user_world 0))) (user_world 0))
  ∧ dmu_buf_remove_user 1 (user_world 2) = Ok 2 (user_world 2).
Proof.
  pose proof (dmu_buf_user_roundtrip (user_world 0) 1 2) as [H1 _].
  pose proof (dmu_buf_user_roundtrip (user_world 2) 1 2) as [_ H2].
  split; [reflexivity|]. split.
  - exact (proj1 (proj2 (H1 eq_refl))).
  - apply H2; [reflexivity|lia].
Defined.

(** C3, as it is stated, fails: with user 2 in place,
    [dmu_buf_remove_user 1] does not return [NULL]. *)
Lemma dmu_buf_remove_user_other_not_null :
  ¬ ∃ w', dmu_buf_remove_user 1 (user_world 2) = Ok 0 w'
          ∧ db_user (w_db w') = 2.
Proof. intros (w' & H & _). vm_compute in H. discriminate H. Qed.

(** C2.  [dbuf_dirty_record_truncate_ranges] on the range
    [{start = 100, end = 300, size = 200}] with [new_size = 250]: the
    range ends at 250, and [size] becomes [end - size = 50] where
    [end - start] is 150. *)
Lemma dbuf_dirty_record_truncate_ranges_size :
  ∃ w', dbuf_dirty_record_truncate_ranges (Some 100%nat) 250
          (ranges_world [mk_range 100 300 200]) = Ok tt w'
        ∧ write_ranges <$> find_dr 100 w' = Some [mk_range 100 250 50]
        ∧ 250 - 100 ≠ 50.
Proof. eexists. split; [vm_compute; reflexivity|]. split; [reflexivity|lia]. Qed.

(** ** The order of the dirty records *)

Section Order.
Context `{hdr : dbuf_headers}.

Lemma dbuf_verify_dirty_records_sorted (l : list dbuf_dirty_record_t) :
  dbuf_verify_dirty_records l = true
  ↔ StronglySorted (fun r s => dr_txg r > dr_txg s) l.
Proof.
  induction l as [|r l IH]; cbn [dbuf_verify_dirty_records].
  - split; [constructor|done].
  - rewrite andb_true_iff, IH. split.
    + intros [Hh Hs]. constructor; [done|].
      destruct l as [|s l]; [constructor|].
      apply Z.gtb_gt in Hh. inversion Hs as [|? ? Hs' Hall]; subst.
      constructor; [lia|]. eapply Forall_impl; [exact Hall|]. cbn. intros; lia.
    + intros Hs. inversion Hs as [|? ? Hs' Hall]; subst. split; [|done].
      destruct l as [|s l]; [done|]. inversion Hall; subst. apply Z.gtb_gt. lia.
Qed.

(** What the loop of [dbuf_dirty_compute_state] finds in a list that is
    in order: the records newer than [txg], the last of which is the
    insertion point, and the first record that is not newer. *)
Lemma compute_state_loop_spec (txg : Z) (l : list dbuf_dirty_record_t) (pt0 : ptr) :
  ∃ newer rest,
    l = newer ++ rest
    ∧ Forall (fun r => dr_txg r > txg) newer
    ∧ match rest with r :: _ => dr_txg r ≤ txg | [] => True end
    ∧ compute_state_loop txg pt0 l
      = (match last newer with Some r => Some (dr_addr r) | None => pt0 end, head rest).
Proof.
  revert pt0. induction l as [|r l IH]; intros pt0.
  - exists [], []. by split_and!.
  - cbn [compute_state_loop]. destruct (Z.gtb_spec (dr_txg r) txg) as [Hgt|Hle].
    + destruct (IH (Some (dr_addr r))) as (newer & rest & -> & Hn & Hr & Heq).
      exists (r :: newer), rest. split_and!; [done|constructor; [lia|done]|done|].
      rewrite Heq. f_equal. destruct newer as [|x n] using rev_ind; [done|].
      change (r :: n ++ [x]) with ((r :: n) ++ [x]). by rewrite !last_snoc.
    + exists [], (r :: l). by split_and!.
Qed.

Lemma insert_after_last (newer rest : list dbuf_dirty_record_t)
    (x dr : dbuf_dirty_record_t) :
  NoDup (dr_addr <$> newer ++ [x]) →
  insert_after (dr_addr x) dr ((newer ++ [x]) ++ rest) = (newer ++ [x]) ++ dr :: rest.
Proof.
  induction newer as [|y n IH]; intros Hnd.
  - cbn. unfold dr_has_addr. by rewrite Nat.eqb_refl.
  - cbn [app insert_after fmap list_fmap] in *.
    assert (dr_has_addr (dr_addr x) y = false) as ->.
    { unfold dr_has_addr. apply Nat.eqb_neq. intros Heq.
      apply NoDup_cons in Hnd as [Hnotin _]. apply Hnotin.
      rewrite Heq. apply list_elem_of_fmap_2.
      apply elem_of_app. right. by apply list_elem_of_singleton. }
    f_equal. apply IH. by apply NoDup_cons in Hnd as [_ ?].
Qed.


Lemma update_dr_absent (a : nat) (f : dbuf_dirty_record_t → dbuf_dirty_record_t)
    (l : list dbuf_dirty_record_t) :
  Forall (fun r => dr_addr r ≠ a) l → update_dr a f l = l.
Proof.
  induction 1 as [|r l Hr _ IH]; [done|]. unfold update_dr in *.
  cbn [List.map]. rewrite IH.
  unfold dr_has_addr. by rewrite (proj2 (Nat.eqb_neq _ _) Hr).
Qed.

Lemma find_absent (a : nat) (l : list dbuf_dirty_record_t) :
  Forall (fun r => dr_addr r ≠ a) l → List.find (dr_has_addr a) l = None.
Proof.
  induction 1 as [|r l Hr _ IH]; [done|]. cbn.
  unfold dr_has_addr at 1. by rewrite (proj2 (Nat.eqb_neq _ _) Hr).
Qed.

Lemma find_dr_app (a : nat) (l k : list dbuf_dirty_record_t) :
  List.find (dr_has_addr a) (l ++ k)
  = match List.find (dr_has_addr a) l with
    | Some r => Some r
    | None => List.find (dr_has_addr a) k
    end.
Proof.
  induction l as [|x l IH]; [done|]. cbn. by destruct (dr_has_addr a x).
Qed.




Lemma set_db_dirty_records_id (db : dmu_buf_impl_t) :
  set_db_dirty_records (db_dirty_records db) db = db.
Proof. by destruct db. Qed.


Lemma bind_assoc {A B C} (m : M A) (k : A → M B) (h : B → M C) (w : world) :
  bind (bind m k) h w = bind m (fun a => bind (k a) h) w.
Proof. unfold bind. by destruct (m w). Qed.

Lemma bind_ret {A B} (a : A) (k : A → M B) (w : world) : bind (ret a) k w = k a w.
Proof. done. Qed.

Lemma when_true (m : M unit) : when true m = m.
Proof. done. Qed.

Lemma when_false (m : M unit) : when false m = skip.
Proof. done. Qed.

End Order.

Create HintDb run.

(** One step of a run: the first action of a sequence is replaced by
    its result. *)
Ltac mstep :=
  first
    [ rewrite bind_assoc
    | rewrite bind_ret
    | erewrite bind_eq by (first [ solve [eauto with run] | reflexivity ]) ].

Ltac mrun := repeat mstep.

(** Nested sequences, flattened. *)
Ltac mflat := repeat first [rewrite bind_assoc | rewrite bind_ret].

#[global] Hint Resolve get_dr_run modify_dr_run DBUF_STATE_CHANGE_run : run.

Section Order2.
Context `{hdr : dbuf_headers}.




Lemma dbuf_dirty_compute_state_run (dds0 : dbuf_dirty_state_t) (w : world) :
  Z.land (db_state (w_db w)) DB_FILL = 0 → txg_dr dds0 = None →
  let txg := tx_txg (dds_tx dds0) in
  ∃ newer rest w1 dds,
    dbuf_dirty_compute_state dds0 w = Ok dds w1
    ∧ w_db w1 = w_db w ∧ w_brk w1 = w_brk w ∧ w_arc w1 = w_arc w
    ∧ db_dirty_records (w_db w) = newer ++ rest
    ∧ Forall (fun r => dr_txg r > txg) newer
    ∧ match rest with r :: _ => dr_txg r ≤ txg | [] => True end
    ∧ insert_pt dds = dr_addr <$> last newer
    ∧ dds_tx dds = dds_tx dds0
    ∧ match rest with
      | r :: _ =>
          if dr_txg r =? txg
          then txg_dr dds = Some (dr_addr r) ∧ txg_already_dirty dds = true
          else txg_dr dds = None ∧ txg_already_dirty dds = false
      | [] => txg_dr dds = None ∧ txg_already_dirty dds = false
      end.
Proof.
  intros Hfill Hnone txg.
  destruct (compute_state_loop_spec txg (db_dirty_records (w_db w)) None)
    as (newer & rest & Hl & Hn & Hr & Hloop).
  exists newer, rest.
  unfold dbuf_dirty_compute_state. mrun. rewrite Hfill. cbn [Z.eqb negb].
  fold txg. rewrite Hloop.
  assert (Hwhen : ∃ w1, when (db_blkid (w_db w) =? DMU_SPILL_BLKID)
                          (modify_dn (set_dn_have_spill true)) w = Ok tt w1
                        ∧ w_db w1 = w_db w ∧ w_brk w1 = w_brk w ∧ w_arc w1 = w_arc w).
  { destruct (db_blkid (w_db w) =? DMU_SPILL_BLKID); eexists; (split; [reflexivity|done]). }
  destruct Hwhen as (w1 & Hw1 & Hdb & Hbrk & Harc).
  rewrite (bind_eq _ _ _ _ _ Hw1).
  assert (Hpt : match last newer with
                | Some r => Some (dr_addr r)
                | None => None
                end = dr_addr <$> last newer) by (by destruct (last newer)).
  rewrite Hpt.
  destruct rest as [|r rest']; cbn [head].
  - eexists w1, _. split; [reflexivity|]. cbn. rewrite Hnone. by split_and!.
  - cbn [dds_tx set_insert_pt]. fold txg.
    destruct (dr_txg r =? txg) eqn:E.
    + eexists w1, _. split; [reflexivity|]. cbn. by split_and!.
    + eexists w1, _. split; [reflexivity|]. cbn. rewrite Hnone. by split_and!.
Qed.

Lemma dirty_records_insert (newer rest : list dbuf_dirty_record_t)
    (r : dbuf_dirty_record_t) :
  NoDup (dr_addr <$> newer ++ rest) →
  match dr_addr <$> last newer with
  | None => r :: newer ++ rest
  | Some p => insert_after p r (newer ++ rest)
  end = newer ++ r :: rest.
Proof.
  intros Hnd. destruct newer as [|x n _] using rev_ind; [done|].
  rewrite last_snoc. cbn [fmap option_fmap option_map].
  apply insert_after_last. rewrite fmap_app in Hnd. by apply NoDup_app in Hnd as [? _].
Qed.




End Order2.

(** ** Every dirty operation keeps the order *)

Section DirtyOrder.
Context `{hdr : dbuf_headers}.

Lemma sorted_older (txg : Z) (l : list dbuf_dirty_record_t) :
  StronglySorted (fun r s => dr_txg r > dr_txg s) l →
  match l with r :: _ => dr_txg r ≤ txg | [] => True end →
  Forall (fun r => dr_txg r ≤ txg) l.
Proof.
  intros Hs Hh. destruct l as [|r l]; [constructor|].
  inversion Hs as [|? ? _ Hall]; subst. constructor; [done|].
  eapply Forall_impl; [exact Hall|]. cbn. intros; lia.
Qed.




End DirtyOrder.

Section Frames.
Context `{hdr : dbuf_headers}.


Lemma bzero_frame (dst : caddr_t) (n : Z) (w w' : world) :
  bzero dst n w = Ok tt w' → ∃ arc, w' = set_w_arc arc w.
Proof.
  unfold bzero, bind, arc_buf_get, arc_buf_put, fail.
  destruct (w_arc w !! dst.1); [|done].
  destruct (copy_bytes _ _ _ _ _); [|done]. intros [= <-]. by eexists.
Qed.

Lemma update_dr_addr (a : nat) (f : dbuf_dirty_record_t → dbuf_dirty_record_t)
    (l : list dbuf_dirty_record_t) :
  (∀ r, dr_addr (f r) = dr_addr r) → dr_addr <$> update_dr a f l = dr_addr <$> l.
Proof.
  intros Hf. induction l as [|x l IH]; [done|]. unfold update_dr in *. cbn.
  rewrite IH. by destruct (dr_has_addr a x); rewrite ?Hf.
Qed.

Lemma update_dr_txg (a : nat) (f : dbuf_dirty_record_t → dbuf_dirty_record_t)
    (l : list dbuf_dirty_record_t) :
  (∀ r, dr_txg (f r) = dr_txg r) → dr_txg <$> update_dr a f l = dr_txg <$> l.
Proof.
  intros Hf. induction l as [|x l IH]; [done|]. unfold update_dr in *. cbn.
  rewrite IH. by destruct (dr_has_addr a x); rewrite ?Hf.
Qed.





End Frames.

Section DirtyOrderTheorem.
Context `{hdr : dbuf_headers}.



End DirtyOrderTheorem.

(** ** Stepping through a run *)

(** The fields of a state that was built by field updates. *)
Ltac wsimpl :=
  cbn [w_db w_dn w_arc w_kmem w_brk w_log w_io_queued dirty_writes_lost w_env
       set_w_db set_w_dn set_w_arc set_w_kmem set_w_brk set_w_log set_w_io_queued
       set_dirty_writes_lost set_w_env
       db_object db_size db_data db_level db_blkid db_state db_buf db_blkptr db_holds
       db_dirtycnt db_dirty_records db_data_pending db_user db_immediate_evict
       db_freed_in_flight db_buf_sets
       set_db_object set_db_size set_db_data set_db_level set_db_blkid set_db_state
       set_db_buf set_db_blkptr set_db_holds set_db_dirtycnt set_db_dirty_records
       set_db_data_pending set_db_user set_db_immediate_evict set_db_freed_in_flight
       set_db_buf_sets
       dr_addr dr_txg dr_zio dr_override_zio dr_data write_ranges dr_override_state
       dr_nopwrite dr_overridden_by_hole
       set_dr_addr set_dr_txg set_dr_zio set_dr_override_zio set_dr_data
       set_write_ranges set_dr_override_state set_dr_nopwrite set_dr_overridden_by_hole
       dds_tx insert_pt txg_dr txg_already_dirty fill_buf dds_offset dds_size
       set_insert_pt set_txg_dr set_txg_already_dirty set_fill_buf set_dds_offset
       set_dds_size
       b_data b_released set_b_data set_b_released tx_txg
       fst snd].

Ltac wsimpl_in H :=
  cbn [w_db w_dn w_arc w_kmem w_brk w_log w_io_queued dirty_writes_lost w_env
       set_w_db set_w_dn set_w_arc set_w_kmem set_w_brk set_w_log set_w_io_queued
       set_dirty_writes_lost set_w_env
       db_object db_size db_data db_level db_blkid db_state db_buf db_blkptr db_holds
       db_dirtycnt db_dirty_records db_data_pending db_user db_immediate_evict
       db_freed_in_flight db_buf_sets
       set_db_object set_db_size set_db_data set_db_level set_db_blkid set_db_state
       set_db_buf set_db_blkptr set_db_holds set_db_dirtycnt set_db_dirty_records
       set_db_data_pending set_db_user set_db_immediate_evict set_db_freed_in_flight
       set_db_buf_sets
       dr_addr dr_txg dr_zio dr_override_zio dr_data write_ranges dr_override_state
       dr_nopwrite dr_overridden_by_hole
       set_dr_addr set_dr_txg set_dr_zio set_dr_override_zio set_dr_data
       set_write_ranges set_dr_override_state set_dr_nopwrite set_dr_overridden_by_hole
       dds_tx insert_pt txg_dr txg_already_dirty fill_buf dds_offset dds_size
       set_insert_pt set_txg_dr set_txg_already_dirty set_fill_buf set_dds_offset
       set_dds_size
       b_data b_released set_b_data set_b_released tx_txg
       fst snd] in H.

(** The state a run has reached, written out field by field. *)
Lemma world_eta (w : world) :
  w = mk_world (w_db w) (w_dn w) (w_arc w) (w_kmem w) (w_brk w) (w_log w)
        (w_io_queued w) (dirty_writes_lost w) (w_env w).
Proof. by destruct w. Qed.

Lemma db_eta (db : dmu_buf_impl_t) :
  db = mk_db (db_object db) (db_size db) (db_data db) (db_level db) (db_blkid db)
         (db_state db) (db_buf db) (db_blkptr db) (db_holds db) (db_dirtycnt db)
         (db_dirty_records db) (db_data_pending db) (db_user db)
         (db_immediate_evict db) (db_freed_in_flight db) (db_buf_sets db).
Proof. by destruct db. Qed.

Ltac wnorm_world W :=
  lazymatch W with
  | mk_world _ _ _ _ _ _ _ _ _ => idtac
  | _ => tryif is_var W then idtac
         else (rewrite (world_eta W); unfold update_dr_world; wsimpl)
  end;
  try match goal with
  | |- context [mk_world ?d _ _ _ _ _ _ _ _] =>
      lazymatch d with
      | mk_db _ _ _ _ _ _ _ _ _ _ _ _ _ _ _ _ => fail
      | w_db ?v => fail
      | _ => rewrite (db_eta d); wsimpl
      end
  end;
  unfold op_set, op_or, op_and.

Ltac wnorm :=
  wsimpl;
  try match goal with
  | |- context [bind ?m ?k ?W] => wnorm_world W
  end.

(** Steps of a run, the state written out after each. *)
Ltac mrun' := repeat (mstep; wnorm).

(** A test [x =? y] on state masks, decided. *)
Ltac state_test :=
  match goal with
  | |- context [?x =? ?y] =>
      first [ rewrite (proj2 (Z.eqb_eq x y)) by (state_norm; reflexivity)
            | rewrite (proj2 (Z.eqb_neq x y)) by state_neq ]
  end.

(** ** Runs of the dirty path *)

Section Runs.
Context `{hdr : dbuf_headers}.

Lemma bind_get_db {B} (k : dmu_buf_impl_t → M B) (w : world) :
  bind get_db k w = k (w_db w) w.
Proof. reflexivity. Qed.

Lemma bind_get_world {B} (k : world → M B) (w : world) :
  bind get_world k w = k w w.
Proof. reflexivity. Qed.

Lemma remove_dr_absent (a : nat) (l : list dbuf_dirty_record_t) :
  Forall (fun r => dr_addr r ≠ a) l → remove_dr a l = l.
Proof.
  induction 1 as [|r l Hr _ IH]; [done|]. unfold remove_dr in *. cbn [List.filter].
  rewrite IH. unfold dr_has_addr. by rewrite (proj2 (Nat.eqb_neq _ _) Hr).
Qed.

Lemma below_absent (a : nat) (l : list dbuf_dirty_record_t) :
  Forall (fun r => (dr_addr r < a)%nat) l → Forall (fun r => dr_addr r ≠ a) l.
Proof. intros H. eapply Forall_impl; [exact H|]. cbn. intros; lia. Qed.

(** A record in [w_kmem] at an address no record of the list has. *)
Lemma find_dr_kmem (a : nat) (r : dbuf_dirty_record_t) (w : world)
    (k : list dbuf_dirty_record_t) :
  Forall (fun r => dr_addr r ≠ a) (db_dirty_records (w_db w)) →
  w_kmem w = r :: k → dr_addr r = a →
  find_dr a w = Some r.
Proof.
  intros Habs Hk Ha. unfold find_dr. rewrite find_dr_app, find_absent, Hk by done.
  cbn. unfold dr_has_addr. by rewrite Ha, Nat.eqb_refl.
Qed.

Lemma update_dr_world_kmem (a : nat) (f : dbuf_dirty_record_t → dbuf_dirty_record_t)
    (r : dbuf_dirty_record_t) (w : world) (k : list dbuf_dirty_record_t) :
  Forall (fun r => dr_addr r ≠ a) (db_dirty_records (w_db w)) →
  Forall (fun r => dr_addr r ≠ a) k →
  w_kmem w = r :: k → dr_addr r = a →
  update_dr_world a f w = set_w_kmem (f r :: k) w.
Proof.
  intros Habs Hk Hw Ha. unfold update_dr_world.
  rewrite (update_dr_absent a f (db_dirty_records (w_db w))), set_db_dirty_records_id by done.
  rewrite Hw. unfold update_dr. cbn [List.map]. fold (update_dr a f k).
  rewrite update_dr_absent by done. unfold dr_has_addr. rewrite Ha, Nat.eqb_refl.
  by destruct w.
Qed.

Lemma modify_dr_kmem (a : nat) (f : dbuf_dirty_record_t → dbuf_dirty_record_t)
    (r : dbuf_dirty_record_t) (w : world) (k : list dbuf_dirty_record_t) :
  Forall (fun r => dr_addr r ≠ a) (db_dirty_records (w_db w)) →
  Forall (fun r => dr_addr r ≠ a) k →
  w_kmem w = r :: k → dr_addr r = a →
  modify_dr (Some a) f w = Ok tt (set_w_kmem (f r :: k) w).
Proof.
  intros Habs Hk Hw Ha.
  rewrite (modify_dr_run a f w r) by by apply (find_dr_kmem a r w k).
  by rewrite (update_dr_world_kmem a f r w k).
Qed.

(** Linking a record that sits in [w_kmem] takes it from there. *)
Lemma list_insert_after_kmem (pt : ptr) (a : nat) (r : dbuf_dirty_record_t)
    (w : world) (k : list dbuf_dirty_record_t) :
  Forall (fun r => dr_addr r ≠ a) (db_dirty_records (w_db w)) →
  Forall (fun r => dr_addr r ≠ a) k →
  w_kmem w = r :: k → dr_addr r = a →
  list_insert_after pt (Some a) w
  = Ok tt (set_w_kmem k
             (set_w_db (set_db_dirty_records
                          (match pt with
                           | None => r :: db_dirty_records (w_db w)
                           | Some p => insert_after p r (db_dirty_records (w_db w))
                           end) (w_db w)) w)).
Proof.
  intros Habs Hk Hw Ha. unfold list_insert_after.
  rewrite (bind_eq _ _ _ _ _ (get_dr_run a w r (find_dr_kmem a r w k Habs Hw Ha))).
  cbn [deref]. rewrite bind_ret. rewrite Hw. unfold remove_dr. cbn [List.filter].
  fold (remove_dr a k). rewrite remove_dr_absent by done.
  unfold dr_has_addr. by rewrite Ha, Nat.eqb_refl.
Qed.

Lemma dbuf_dirty_record_create_leaf_run (dds : dbuf_dirty_state_t) (w : world) :
  Forall (fun r => (dr_addr r < w_brk w)%nat) (db_dirty_records (w_db w)) →
  Forall (fun r => (dr_addr r < w_brk w)%nat) (w_kmem w) →
  let a := w_brk w in
  let db := w_db w in
  let r := mk_dr a (tx_txg (dds_tx dds)) None None
             (if db_blkid db =? DMU_BONUS_BLKID then db_data db else db_buf db)
             [] DR_NOT_OVERRIDDEN false false in
  dbuf_dirty_record_create_leaf dds w
  = Ok (set_txg_dr (Some a) dds)
      (set_w_brk (S a)
         (set_w_db
            (set_db_dirtycnt (db_dirtycnt db + 1)
               (set_db_holds (db_holds db + 1)
                  (set_db_dirty_records
                     (match insert_pt dds with
                      | None => r :: db_dirty_records db
                      | Some p => insert_after p r (db_dirty_records db)
                      end)
                     (set_db_freed_in_flight
                        (if negb (db_blkid db =? DMU_SPILL_BLKID)
                         then false else db_freed_in_flight db) db)))) w)).
Proof.
  intros Hl Hk a db r.
  apply below_absent in Hl, Hk. fold a in Hl, Hk.
  unfold dbuf_dirty_record_create_leaf, dbuf_dirty_record_create, kmem_zalloc_dr.
  mrun. fold a.
  erewrite bind_eq by (by apply modify_dr_kmem). mrun.
  wsimpl. fold db.
  assert (Hreg : ∀ w0 r0,
    db_dirty_records (w_db w0) = db_dirty_records db →
    w_kmem w0 = r0 :: w_kmem w → dr_addr r0 = a →
    dbuf_dirty_record_register_as_leaf (set_txg_dr (Some a) dds) w0
    = Ok tt
        (set_w_kmem (w_kmem w)
          (set_w_db
            (set_db_dirtycnt (db_dirtycnt (w_db w0) + 1)
               (set_db_holds (db_holds (w_db w0) + 1)
                  (set_db_dirty_records
                     (let r1 := set_write_ranges []
                                  (set_dr_data (if db_blkid (w_db w0) =? DMU_BONUS_BLKID
                                                then db_data (w_db w0)
                                                else db_buf (w_db w0)) r0) in
                      match insert_pt dds with
                      | None => r1 :: db_dirty_records db
                      | Some p => insert_after p r1 (db_dirty_records db)
                      end)
                     (w_db w0)))) w0))).
  { intros w0 r0 Hl0 Hk0 Ha0.
    unfold dbuf_dirty_record_register_as_leaf, dbuf_dirty_record_update_leaf,
      dbuf_dirty_record_register, dbuf_add_ref.
    mrun. wsimpl.
    assert (Hupd : ∀ f g : dbuf_dirty_record_t → dbuf_dirty_record_t,
               (if db_blkid (w_db w0) =? DMU_BONUS_BLKID
                then modify_dr (Some a) f else modify_dr (Some a) g) w0
               = Ok tt (set_w_kmem ((if db_blkid (w_db w0) =? DMU_BONUS_BLKID
                                     then f r0 else g r0) :: w_kmem w) w0)).
    { intros f g. destruct (db_blkid (w_db w0) =? DMU_BONUS_BLKID);
        apply modify_dr_kmem; by rewrite ?Hl0. }
    rewrite (bind_eq _ _ _ _ _ (Hupd _ _)). clear Hupd.
    erewrite bind_eq by (apply modify_dr_kmem; [wsimpl; by rewrite Hl0|exact Hk|reflexivity|];
                         by destruct (db_blkid (w_db w0) =? DMU_BONUS_BLKID)).
    erewrite bind_eq
      by (apply list_insert_after_kmem; [wsimpl; by rewrite Hl0|exact Hk|reflexivity|];
          by destruct (db_blkid (w_db w0) =? DMU_BONUS_BLKID)).
    mrun. wsimpl. rewrite Hl0. by destruct (db_blkid (w_db w0) =? DMU_BONUS_BLKID). }
  destruct (db_blkid db =? DMU_SPILL_BLKID) eqn:Hspill; cbn [negb when]; mrun.
  - unfold ret. wsimpl. subst r db. destruct w as [db0 ? ? ? ? ? ? ? ?]. by destruct db0.
  - unfold ret. wsimpl. subst r db. by destruct w.
Qed.

End Runs.

Section Runs2.
Context `{hdr : dbuf_headers}.

(** [dbuf_dirty_compute_state] writes [dn_have_spill] and nothing else,
    and leaves the description of the write as it was. *)
Lemma dbuf_dirty_compute_state_frame (dds0 dds : dbuf_dirty_state_t) (w w1 : world) :
  dbuf_dirty_compute_state dds0 w = Ok dds w1 →
  (∃ dn, w1 = set_w_dn dn w)
  ∧ fill_buf dds = fill_buf dds0 ∧ dds_offset dds = dds_offset dds0
  ∧ dds_size dds = dds_size dds0 ∧ dds_tx dds = dds_tx dds0.
Proof.
  unfold dbuf_dirty_compute_state. rewrite bind_get_db.
  destruct (negb _); [done|].
  intros H. apply bind_Ok in H as ([] & w2 & Hw & H).
  assert (Hdn : ∃ dn, w2 = set_w_dn dn w).
  { destruct (db_blkid (w_db w) =? DMU_SPILL_BLKID).
    - injection Hw as <-. by eexists.
    - injection Hw as <-. exists (w_dn w). by destruct w. }
  destruct (compute_state_loop _ _ _) as [pt [r|]].
  - destruct (dr_txg r =? _); injection H as <- <-; by split_and!.
  - injection H as <- <-; by split_and!.
Qed.

(** On a dbuf without dirty records [dbuf_dirty_compute_state] finds
    nothing. *)
Lemma dbuf_dirty_compute_state_clean (tx : dmu_tx_t) (fill : ptr) (offset size : Z)
    (w : world) :
  Z.land (db_state (w_db w)) DB_FILL = 0 →
  db_dirty_records (w_db w) = [] →
  dbuf_dirty_compute_state (mk_dds tx None None false fill offset size) w
  = Ok (mk_dds tx None None false fill offset size)
       (if db_blkid (w_db w) =? DMU_SPILL_BLKID
        then set_w_dn (set_dn_have_spill true (w_dn w)) w else w).
Proof.
  intros Hfill Hl. unfold dbuf_dirty_compute_state. rewrite bind_get_db, Hfill, Hl.
  cbn [Z.eqb negb compute_state_loop].
  by destruct (db_blkid (w_db w) =? DMU_SPILL_BLKID).
Qed.

Lemma arc_buf_get_run (b : nat) (a : arc_buf_t) (w : world) :
  w_arc w !! b = Some a → arc_buf_get b w = Ok a w.
Proof. unfold arc_buf_get. by intros ->. Qed.

Lemma arc_release_run (b : nat) (a : arc_buf_t) (w : world) :
  w_arc w !! b = Some a →
  arc_release (Some b) w
  = Ok tt (set_w_log (EvArcRelease b :: w_log w)
             (set_w_arc (<[b := set_b_released true a]> (w_arc w)) w)).
Proof.
  intros H. unfold arc_release. cbn [deref]. rewrite bind_ret.
  by rewrite (bind_eq _ _ _ _ _ (arc_buf_get_run b a w H)).
Qed.

Lemma ptr_eqb_refl (p : ptr) : ptr_eqb p p = true.
Proof. by apply bool_decide_eq_true. Qed.

Lemma ptr_eqb_Some_None (a : nat) : ptr_eqb (Some a) None = false.
Proof. by apply bool_decide_eq_false. Qed.

Lemma ptr_eqb_None_Some (a : nat) : ptr_eqb None (Some a) = false.
Proof. by apply bool_decide_eq_false. Qed.

Lemma dbuf_dirty_leaf_cached_run (w : world) (tx : dmu_tx_t) (offset size : Z)
    (b : nat) (a : arc_buf_t) :
  db_state (w_db w) = DB_CACHED →
  db_dirty_records (w_db w) = [] →
  db_buf (w_db w) = Some b →
  w_arc w !! b = Some a →
  db_blkid (w_db w) ≠ DMU_BONUS_BLKID →
  Forall (fun r => (dr_addr r < w_brk w)%nat) (w_kmem w) →
  ∃ w',
    dbuf_dirty_leaf tx offset size w = Ok (Some (w_brk w)) w'
    ∧ w_db w'
      = set_db_dirtycnt (db_dirtycnt (w_db w) + 1)
          (set_db_holds (db_holds (w_db w) + 1)
             (set_db_dirty_records
                [mk_dr (w_brk w) (tx_txg tx) None None (Some b) []
                   DR_NOT_OVERRIDDEN false false]
                (set_db_freed_in_flight
                   (if negb (db_blkid (w_db w) =? DMU_SPILL_BLKID)
                    then false else db_freed_in_flight (w_db w)) (w_db w))))
    ∧ w_arc w' = <[b := set_b_released true a]> (w_arc w)
    ∧ w_brk w' = S (w_brk w)
    ∧ w_kmem w' = w_kmem w
    ∧ w_log w' = EvDirtyParent (w_brk w) (tx_txg tx) :: EvArcRelease b :: w_log w.
Proof.
  intros Hst Hl Hbuf Harc Hblk Hk.
  unfold dbuf_dirty_leaf, dbuf_dirty_leaf_enter, dbuf_dirty_enter.
  mrun. unfold dbuf_dirty_handle_fault. mrun. rewrite Hst.
  repeat state_test. cbn [negb]. mrun.
  cbn [set_dds_size set_dds_offset dds_tx insert_pt txg_dr txg_already_dirty fill_buf].
  rewrite (bind_eq _ _ _ _ _ (dbuf_dirty_compute_state_clean tx None offset size w
             ltac:(rewrite Hst; by state_norm) Hl)).
  apply Z.eqb_neq in Hblk.
  destruct (db_blkid (w_db w) =? DMU_SPILL_BLKID) eqn:Hspill.
  all: mrun; wsimpl; rewrite Hst; repeat state_test; cbn [negb when]; mrun.
  all: unfold dbuf_dirty_leaf_common; mrun; wsimpl; rewrite Hbuf, ptr_eqb_Some_None.
  all: unfold dbuf_dirty_leaf_with_existing_frontend; mrun; wsimpl; rewrite Hl, Hbuf.
  all: cbn [txg_already_dirty negb andb head when fill_buf]; mrun.
  all: erewrite bind_eq by (by apply arc_release_run).
  all: mrun.
  all: erewrite bind_eq
         by (apply dbuf_dirty_record_create_leaf_run; wsimpl; rewrite ?Hl; done).
  all: mrun; wsimpl.
  all: rewrite Hst, Z.eqb_refl; cbn [negb when]; mrun.
  all: unfold dbuf_dirty_exit, dbuf_dirty_parent; wsimpl; cbn [negb when deref]; mrun.
  all: (eexists; split; [reflexivity|]); wsimpl.
  all: rewrite ?Hl, ?Hbuf, ?Hblk, ?Hspill; done.
Qed.

Lemma copy_bytes_Some (dst src : list Byte.byte) (doff soff n : Z) :
  0 ≤ n → 0 ≤ doff → 0 ≤ soff →
  doff + n ≤ Z.of_nat (length dst) → soff + n ≤ Z.of_nat (length src) →
  copy_bytes dst doff src soff n
  = Some (take (Z.to_nat doff) dst ++ take (Z.to_nat n) (drop (Z.to_nat soff) src)
          ++ drop (Z.to_nat (doff + n)) dst).
Proof.
  intros. unfold copy_bytes.
  rewrite !(proj2 (Z.leb_le _ _)) by lia. done.
Qed.

Lemma copy_bytes_length (dst src bytes : list Byte.byte) (doff soff n : Z) :
  copy_bytes dst doff src soff n = Some bytes → length bytes = length dst.
Proof.
  unfold copy_bytes. destruct (_ && _) eqn:E; [|done]. intros [= <-].
  repeat (apply andb_true_iff in E as [E ?]).
  repeat match goal with H : (_ <=? _) = true |- _ => apply Z.leb_le in H end.
  rewrite !length_app, !length_take, !length_drop. lia.
Qed.

Lemma memcpy_run (d s : nat) (doff soff n : Z) (da sa : arc_buf_t)
    (bytes : list Byte.byte) (w : world) :
  w_arc w !! s = Some sa → w_arc w !! d = Some da →
  copy_bytes (b_data da) doff (b_data sa) soff n = Some bytes →
  memcpy (d, doff) (s, soff) n w
  = Ok tt (set_w_arc (<[d := set_b_data bytes da]> (w_arc w)) w).
Proof.
  intros Hs Hd Hc. unfold memcpy. cbn [fst snd].
  rewrite (bind_eq _ _ _ _ _ (arc_buf_get_run s sa w Hs)).
  rewrite (bind_eq _ _ _ _ _ (arc_buf_get_run d da w Hd)).
  by rewrite Hc.
Qed.

Lemma bzero_run (d : nat) (doff n : Z) (da : arc_buf_t) (w : world) :
  w_arc w !! d = Some da →
  0 ≤ n → 0 ≤ doff → doff + n ≤ Z.of_nat (length (b_data da)) →
  ∃ bytes,
    bzero (d, doff) n w = Ok tt (set_w_arc (<[d := set_b_data bytes da]> (w_arc w)) w)
    ∧ length bytes = length (b_data da)
    ∧ (∀ i, (Z.to_nat doff ≤ i < Z.to_nat (doff + n))%nat → bytes !! i = Some Byte.x00)
    ∧ (∀ i, ¬ (Z.to_nat doff ≤ i < Z.to_nat (doff + n))%nat → bytes !! i = b_data da !! i).
Proof.
  intros Hd Hn Hdoff Hlen. unfold bzero. cbn [fst snd].
  rewrite (bind_eq _ _ _ _ _ (arc_buf_get_run d da w Hd)).
  rewrite copy_bytes_Some by (rewrite ?length_replicate; lia).
  eexists. split; [reflexivity|].
  change (Z.to_nat 0) with 0%nat. rewrite drop_0, take_replicate, Nat.min_id.
  split_and!.
  - rewrite !length_app, length_take, length_replicate, length_drop. lia.
  - intros i Hi. rewrite lookup_app_r by (rewrite length_take; lia).
    rewrite length_take, lookup_app_l by (rewrite length_replicate; lia).
    apply lookup_replicate_2. lia.
  - intros i Hi. destruct (decide (i < Z.to_nat doff)%nat).
    + rewrite lookup_app_l by (rewrite length_take; lia). by rewrite lookup_take_lt.
    + rewrite lookup_app_r by (rewrite length_take; lia).
      rewrite length_take, lookup_app_r by (rewrite length_replicate; lia).
      rewrite length_replicate, lookup_drop. f_equal. lia.
Qed.

Lemma find_dr_cons (a : nat) (r : dbuf_dirty_record_t) (l : list dbuf_dirty_record_t)
    (w : world) :
  db_dirty_records (w_db w) = r :: l → dr_addr r = a → find_dr a w = Some r.
Proof.
  intros Hl Ha. unfold find_dr. rewrite Hl. cbn. unfold dr_has_addr.
  by rewrite Ha, Nat.eqb_refl.
Qed.

Lemma dbuf_set_data_run (b : nat) (a : arc_buf_t) (w : world) :
  w_arc w !! b = Some a →
  dbuf_set_data (Some b) w
  = Ok tt (set_w_log (if b_released a then w_log w
                      else EvArcSetCallback b :: w_log w)
             (set_w_db (set_db_data (Some b) (set_db_buf (Some b) (w_db w))) w)).
Proof.
  intros H. unfold dbuf_set_data, arc_released. cbn [deref]. mrun.
  erewrite bind_eq by (by apply arc_buf_get_run). mrun.
  erewrite bind_eq by (by apply arc_buf_get_run). mrun.
  destruct (b_released a); cbn [negb when]; [|done]. unfold skip, ret. by destruct w.
Qed.

(** [dbuf_new_size] on a cached dbuf that is not dirty: the dbuf is
    dirtied, and a new buffer of the new size takes the place of the
    old one. *)
Lemma dbuf_new_size_run (w : world) (tx : dmu_tx_t) (size : Z) (b : nat) (a : arc_buf_t) :
  db_state (w_db w) = DB_CACHED →
  db_dirty_records (w_db w) = [] →
  db_level (w_db w) = 0 →
  db_blkid (w_db w) ≠ DMU_BONUS_BLKID →
  db_object (w_db w) ≠ DMU_META_DNODE_OBJECT →
  db_buf (w_db w) = Some b → (b < w_brk w)%nat →
  w_arc w !! b = Some a →
  Z.of_nat (length (b_data a)) = db_size (w_db w) →
  db_size (w_db w) < 2 ^ 31 →
  0 ≤ size →
  Forall (fun r => (dr_addr r < w_brk w)%nat) (w_kmem w) →
  ∃ w', dbuf_new_size size tx w = Ok tt w'
        ∧ db_size (w_db w') = size
        ∧ db_buf (w_db w') = Some (S (w_brk w))
        ∧ db_state (w_db w') = DB_CACHED.
Proof.
  intros Hst Hl Hlev Hblk Hobj Hbuf Hb Harc Hlen Hsz Hsize Hk.
  assert (Hsz0 : 0 ≤ db_size (w_db w)) by lia.
  unfold dbuf_new_size, dbuf_will_dirty, dbuf_read, dbuf_dirty. mrun.
  rewrite Hst. repeat state_test. mrun. wsimpl.
  rewrite (proj2 (Z.eqb_neq _ _) Hblk), Hlev, (proj2 (Z.eqb_neq _ _) Hobj). cbn [Z.eqb].
  destruct (dbuf_dirty_leaf_cached_run w tx 0 (wrap_int (db_size (w_db w))) b a)
    as (w1 & Hrun & Hdb1 & Harc1 & Hbrk1 & Hk1 & _); try done.
  rewrite (bind_eq _ _ _ _ _ Hrun). unfold skip. mrun.
  unfold arc_buf_alloc. mrun. wsimpl. rewrite Hdb1, Hbrk1, Harc1. wsimpl.
  rewrite Hbuf. cbn [deref]. mrun.
  rewrite wrap_int_small by lia.
  set (n := MIN (db_size (w_db w)) size).
  assert (Hn : 0 ≤ n ≤ db_size (w_db w) ∧ n ≤ size) by (unfold n, MIN; destruct (Z.ltb_spec (db_size (w_db w)) size); lia).
  unfold bcopy.
  erewrite bind_eq
    by (eapply memcpy_run; wsimpl;
        [ by rewrite lookup_insert_ne, lookup_insert_eq by lia
        | by rewrite lookup_insert_eq
        | apply copy_bytes_Some; cbn [b_data set_b_released];
          rewrite ?length_replicate; lia ]).
  wsimpl. change (Z.to_nat 0) with 0%nat. rewrite take_0, drop_0, app_nil_l.
  rewrite Z.add_0_l, insert_insert_eq.
  set (bytes := take (Z.to_nat n) (b_data a)
                ++ drop (Z.to_nat n) (replicate (Z.to_nat size) (env_uninit (w_env w1)))).
  assert (Hbytes : length bytes = Z.to_nat size).
  { unfold bytes. rewrite length_app, length_take, length_drop, length_replicate. lia. }
  set (arc2 := <[S (w_brk w) := set_b_data bytes _]> _).
  assert (Hz : ∃ bytes' w2,
    when (size >? db_size (w_db w))
         (bzero (S (w_brk w), db_size (w_db w)) (size - db_size (w_db w)))
         (set_w_arc arc2 (set_w_brk (S (S (w_brk w)))
            (set_w_arc (<[S (w_brk w):={|
                              b_data :=
                                replicate (Z.to_nat size)
                                  (env_uninit (w_env w1));
                              b_released := true
                            |}]>
               (<[b:=set_b_released true a]> (w_arc w))) w1)))
    = Ok tt w2
    ∧ w_db w2 = w_db w1 ∧ w_kmem w2 = w_kmem w1
    ∧ w_arc w2 !! S (w_brk w) = Some (mk_arc_buf bytes' true)).
  { destruct (Z.gtb_spec size (db_size (w_db w))) as [Hgt|Hle]; cbn [when].
    - edestruct (bzero_run (S (w_brk w)) (db_size (w_db w)) (size - db_size (w_db w)))
        as (bytes' & Hrun' & _); [..|rewrite Hrun'].
      + wsimpl. subst arc2. by rewrite lookup_insert_eq.
      + lia.
      + lia.
      + cbn. rewrite Hbytes. lia.
      + eexists _, _. split; [reflexivity|]. wsimpl. by rewrite lookup_insert_eq.
    - eexists _, _. split; [reflexivity|]. wsimpl. subst arc2. by rewrite lookup_insert_eq. }
  destruct Hz as (bytes' & w2 & Hz & Hdb2 & Hk2 & Harc2).
  rewrite (bind_eq _ _ _ _ _ Hz).
  erewrite bind_eq by (by apply dbuf_set_data_run).
  unfold arc_buf_remove_ref. mrun. wsimpl. rewrite Hdb2, Hdb1. wsimpl.
  rewrite Hlev. cbn [Z.eqb when list_head head fmap option_fmap option_map dr_addr].
  erewrite modify_dr_run by (eapply find_dr_cons; wsimpl; reflexivity).
  eexists. split; [reflexivity|]. wsimpl. done.
Qed.


End Runs2.

Section Spill.
Context `{hdr : dbuf_headers}.

(** C10.  [dbuf_spill_set_blksz] on a spill dbuf clamps the size it is
    asked for: 0 becomes [SPA_MINBLOCKSIZE], a size above
    [SPA_MAXBLOCKSIZE] becomes [SPA_MAXBLOCKSIZE], and any other size
    becomes the least multiple of [SPA_MINBLOCKSIZE] that is not below
    it.  The dbuf is resized to the clamped size by [dbuf_new_size], and
    the value returned after the resize is 0.  On a cached spill dbuf
    that is not dirty the call does return, and the dbuf has the
    clamped size afterwards. *)
Theorem dbuf_spill_set_blksz_clamps (w : world) (blksz : Z) (tx : dmu_tx_t) :
  db_blkid (w_db w) = DMU_SPILL_BLKID →
  0 ≤ blksz →
  (blksz = 0 → spill_blksz blksz = SPA_MINBLOCKSIZE)
  ∧ (SPA_MAXBLOCKSIZE < blksz → spill_blksz blksz = SPA_MAXBLOCKSIZE)
  ∧ (0 < blksz ≤ SPA_MAXBLOCKSIZE →
     (∃ k, spill_blksz blksz = k * SPA_MINBLOCKSIZE)
     ∧ blksz ≤ spill_blksz blksz < blksz + SPA_MINBLOCKSIZE)
  ∧ dbuf_spill_set_blksz blksz tx w
    = (dbuf_new_size (spill_blksz blksz) tx ;; ret 0) w
  ∧ (∀ r w', dbuf_spill_set_blksz blksz tx w = Ok r w' → r = 0)
  ∧ (∀ b a,
       db_state (w_db w) = DB_CACHED →
       db_dirty_records (w_db w) = [] →
       db_level (w_db w) = 0 →
       db_object (w_db w) ≠ DMU_META_DNODE_OBJECT →
       db_buf (w_db w) = Some b → (b < w_brk w)%nat →
       w_arc w !! b = Some a →
       Z.of_nat (length (b_data a)) = db_size (w_db w) →
       db_size (w_db w) < 2 ^ 31 →
       Forall (fun r => (dr_addr r < w_brk w)%nat) (w_kmem w) →
       ∃ w', dbuf_spill_set_blksz blksz tx w = Ok 0 w'
             ∧ db_size (w_db w') = spill_blksz blksz).
Proof.
  intros Hspill Hblksz.
  pose proof (spill_blksz_range blksz Hblksz) as Hrange.
  pose proof SPA_MAXBLOCKSIZE_bound as Hmax.
  assert (Heq : dbuf_spill_set_blksz blksz tx w
                = (dbuf_new_size (spill_blksz blksz) tx ;; ret 0) w).
  { unfold dbuf_spill_set_blksz. rewrite bind_get_db, Hspill, Z.eqb_refl. cbn [negb].
    by rewrite wrap_int_small by lia. }
  split_and!.
  - intros ->. apply spill_blksz_zero.
  - apply spill_blksz_large.
  - intros H. destruct (spill_blksz_round blksz H) as (Hk & Hb & _). done.
  - exact Heq.
  - intros r w'. rewrite Heq. intros H.
    apply bind_Ok in H as ([] & w1 & _ & H). by injection H as <- _.
  - intros b a Hst Hl Hlev Hobj Hbuf Hb Harc Hlen Hsz Hk.
    destruct (dbuf_new_size_run w tx (spill_blksz blksz) b a)
      as (w' & Hrun & Hsize & _); try done; [|lia|].
    { rewrite Hspill. intros Heq'. by apply dmu_blkid_distinct. }
    exists w'. split; [|done]. by rewrite Heq, (bind_eq _ _ _ _ _ Hrun).
Qed.

End Spill.

(** The spill dbuf of [spill_world] is asked for 1000 bytes and gets
    1024. *)
Lemma dbuf_spill_set_blksz_clamps_witness :
  ∃ w', dbuf_spill_set_blksz 1000 (mk_tx 1) spill_world = Ok 0 w'
        ∧ db_size (w_db w') = 1024.
Proof.
  destruct (dbuf_spill_set_blksz_clamps spill_world 1000 (mk_tx 1))
    as (_ & _ & _ & _ & _ & Hrun); [reflexivity|lia|].
  destruct (Hrun 1%nat (mk_arc_buf (replicate 8 Byte.xcc) false))
    as (w' & Hw' & Hsize); try reflexivity.
  - discriminate.
  - cbn. lia.
  - constructor.
  - exists w'. split; [exact Hw'|]. rewrite Hsize. reflexivity.
Defined.

(** ** Dirtying an uncached leaf *)

Section FullBlock.
Context `{hdr : dbuf_headers}.

(** A record of the list is found at its address when the addresses
    are distinct. *)
Lemma find_dr_elem (w : world) (newer older : list dbuf_dirty_record_t)
    (r : dbuf_dirty_record_t) :
  NoDup (dr_addr <$> db_dirty_records (w_db w)) →
  db_dirty_records (w_db w) = newer ++ r :: older →
  find_dr (dr_addr r) w = Some r.
Proof.
  intros Hnd Hl. unfold find_dr. rewrite Hl in *. rewrite <- app_assoc, find_dr_app.
  rewrite find_absent.
  - cbn. unfold dr_has_addr. by rewrite Nat.eqb_refl.
  - rewrite fmap_app in Hnd. apply NoDup_app in Hnd as (_ & Hdis & _).
    apply Forall_forall. intros x Hx Heq. apply (Hdis (dr_addr x)).
    + by apply list_elem_of_fmap_2.
    + rewrite Heq. apply list_elem_of_fmap_2. by left.
Qed.

(** A write of the whole block: the ranges of the record are dropped,
    and a dbuf that was waiting for the rest of the block is in
    [DB_FILL]. *)
Lemma dbuf_dirty_record_add_range_full_run (a : nat) (r : dbuf_dirty_record_t)
    (w : world) (size : Z) :
  find_dr a w = Some r →
  db_level (w_db w) = 0 →
  wrap_u64 size = db_size (w_db w) →
  Z.land (db_state (w_db w)) (Z.lor DB_READ DB_PARTIAL) ≠ 0 →
  dbuf_dirty_record_add_range (Some a) 0 size w
  = Ok tt (let w1 := update_dr_world a (set_write_ranges []) w in
           set_w_log (EvStateChange DB_FILL "complete filler" :: w_log w1)
             (set_w_db (set_db_state DB_FILL (w_db w1)) w1)).
Proof.
  intros Hfind Hlev Hsize Hst.
  unfold dbuf_dirty_record_add_range, dbuf_dirty_record_cleanup_ranges.
  rewrite (bind_eq _ _ _ _ _ (get_dr_run a w r Hfind)). mrun.
  rewrite Hsize, !Z.eqb_refl. cbn [andb]. mrun.
  rewrite Hlev. cbn [Z.eqb negb]. mrun.
  assert (Hfind1 : find_dr a (update_dr_world a (set_write_ranges []) w)
                   = Some (set_write_ranges [] r)).
  { rewrite find_dr_update_world_eq by done. by rewrite Hfind. }
  rewrite (bind_eq _ _ _ _ _ (get_dr_run a _ _ Hfind1)).
  change (db_state (w_db (update_dr_world a (set_write_ranges []) w)))
    with (db_state (w_db w)).
  rewrite (proj2 (Z.eqb_neq _ _) Hst). cbn [negb when write_ranges set_write_ranges].
  rewrite bool_decide_eq_true_2 by done. cbn [when].
  by rewrite DBUF_STATE_CHANGE_run.
Qed.

Lemma find_dr_updated (a : nat) (f : dbuf_dirty_record_t → dbuf_dirty_record_t)
    (r : dbuf_dirty_record_t) (w0 w1 : world) :
  (∀ x, dr_addr (f x) = dr_addr x) →
  find_dr a w0 = Some r →
  db_dirty_records (w_db w1) = update_dr a f (db_dirty_records (w_db w0)) →
  w_kmem w1 = update_dr a f (w_kmem w0) →
  find_dr a w1 = Some (f r).
Proof.
  intros Hf Hfind Hl Hk. unfold find_dr in *.
  by rewrite Hl, Hk, <- update_dr_app, find_update_dr_eq, Hfind.
Qed.

Lemma elem_of_update_dr (a : nat) (f : dbuf_dirty_record_t → dbuf_dirty_record_t)
    (r : dbuf_dirty_record_t) (l : list dbuf_dirty_record_t) :
  r ∈ l → dr_addr r = a → f r ∈ update_dr a f l.
Proof.
  intros Hin Ha. unfold update_dr. apply list_elem_of_In, in_map_iff.
  exists r. split; [|by apply list_elem_of_In].
  unfold dr_has_addr. by rewrite Ha, Nat.eqb_refl.
Qed.

(** C5.  Dirtying an uncached leaf dbuf with a write of the whole
    block: [dbuf_dirty_leaf] returns the dirty record of the
    transaction group, the dbuf is in [DB_FILL] with [DB_PARTIAL]
    clear, and the record has no write range.  The dbuf has no
    frontend buffer, as [dbuf_clear_data] leaves an uncached dbuf; its
    dirty records are in order. *)
Theorem dbuf_dirty_leaf_full_block (w : world) (tx : dmu_tx_t) (size : Z) :
  db_state (w_db w) = DB_UNCACHED →
  db_buf (w_db w) = None →
  db_level (w_db w) = 0 →
  db_blkid (w_db w) ≠ DMU_BONUS_BLKID →
  0 ≤ size ≤ INT_MAX → size = db_size (w_db w) →
  dbuf_verify_dirty_records (db_dirty_records (w_db w)) = true →
  dirty_records_allocated w →
  Forall (fun r => (dr_addr r < w_brk w)%nat) (w_kmem w) →
  ∃ a r w',
    dbuf_dirty_leaf tx 0 size w = Ok (Some a) w'
    ∧ db_state (w_db w') = DB_FILL
    ∧ Z.land (db_state (w_db w')) DB_PARTIAL = 0
    ∧ find_dr a w' = Some r
    ∧ r ∈ db_dirty_records (w_db w')
    ∧ dr_txg r = tx_txg tx
    ∧ write_ranges r = [].
Proof.
  intros Hst Hbuf Hlev Hblk Hsize Hsz Hv [Hnd Hlt] Hk.
  assert (Hwrap : wrap_u64 size = db_size (w_db w)).
  { unfold INT_MAX in Hsize. rewrite wrap_u64_small by lia. done. }
  unfold dbuf_dirty_leaf, dbuf_dirty_leaf_enter, dbuf_dirty_enter.
  mrun. unfold dbuf_dirty_handle_fault. mrun. rewrite Hst.
  repeat state_test. cbn [negb]. wsimpl. cbn [Z.eqb negb andb].
  rewrite Hwrap, Z.eqb_refl. cbn [negb]. mrun.
  cbn [set_dds_size set_dds_offset dds_tx insert_pt txg_dr txg_already_dirty fill_buf
       dds_offset dds_size].
  destruct (dbuf_dirty_compute_state_run (mk_dds tx None None false None 0 size) w)
    as (newer & older & w1 & dds & Hrun & _ & _ & _ & Hl & Hn & Ho & Hpt & Htx & Hdr);
    [rewrite Hst; by state_norm|done|].
  destruct (dbuf_dirty_compute_state_frame _ _ _ _ Hrun)
    as ([dn ->] & Hfb & Hoff & Hdsz & _).
  cbn [dds_tx fill_buf dds_offset dds_size] in *.
  rewrite (bind_eq _ _ _ _ _ Hrun). mrun'. rewrite Hst, Z.eqb_refl.
  mrun'.
  unfold dbuf_dirty_leaf_common. mrun'. rewrite Hbuf, ptr_eqb_refl.
  unfold dbuf_dirty_set_data. rewrite Hfb, ptr_eqb_refl.
  unfold dbuf_alloc_arcbuf, arc_buf_alloc. mrun'.
  erewrite bind_eq by (apply dbuf_set_data_run; wsimpl; apply lookup_insert_eq).
  wnorm. mrun'.
  assert (Hs : StronglySorted (fun r s => dr_txg r > dr_txg s) (newer ++ older)).
  { rewrite <- Hl. by apply dbuf_verify_dirty_records_sorted. }
  assert (Hcase : txg_already_dirty dds = true
                  ∧ (∃ r older', older = r :: older' ∧ dr_txg r = tx_txg tx
                                 ∧ txg_dr dds = Some (dr_addr r))
                  ∨ txg_already_dirty dds = false
                    ∧ match older with x :: _ => dr_txg x < tx_txg tx | [] => True end).
  { destruct older as [|r older']; [right; split; [apply Hdr|done]|].
    destruct (Z.eqb_spec (dr_txg r) (tx_txg tx)) as [Heq|Hne].
    - left. split; [apply Hdr|]. exists r, older'. split_and!; [done|done|apply Hdr].
    - right. split; [apply Hdr|lia]. }
  assert (Hne : Z.land (Z.lor DB_PARTIAL DB_FILL) (Z.lor DB_READ DB_PARTIAL) ≠ 0)
    by state_neq.
  assert (Hnc : Z.lor DB_PARTIAL DB_FILL ≠ DB_CACHED) by state_neq.
  destruct Hcase as [[Had (r0 & older' & -> & Ht0 & Hdr0)]|[Had Ho']];
    rewrite Had; cbn [negb].
  - (* the transaction group has its record *)
    unfold dbuf_dirty_record_update_leaf. mrun'.
    rewrite (proj2 (Z.eqb_neq _ _) Hblk), Hdr0.
    erewrite bind_eq
      by (eapply modify_dr_run, (find_dr_elem _ newer older' r0); wnorm; done).
    mrun'. unfold update_dr_world. wnorm. rewrite (proj2 (Z.eqb_neq _ _) Hnc).
    cbn [negb when]. rewrite Hdr0, Hoff, Hdsz.
    assert (Hf0 : find_dr (dr_addr r0) w = Some r0)
      by (by apply (find_dr_elem _ newer older' r0)).
    erewrite bind_eq
      by (eapply dbuf_dirty_record_add_range_full_run; wnorm;
          [ by eapply (find_dr_updated (dr_addr r0) (set_dr_data (Some (w_brk w))) r0 w)
          | done | by rewrite Hwrap | done ]).
    cbn zeta. wnorm. mrun'.
    unfold dbuf_dirty_exit. rewrite Had. cbn [negb when]. mrun'. rewrite Hdr0.
    eexists (dr_addr r0), _, _. split; [reflexivity|]. wnorm.
    split_and!; [done|by state_norm| | | |].
    + eapply (find_dr_updated (dr_addr r0) (set_write_ranges []) _
                (update_dr_world (dr_addr r0) (set_dr_data (Some (w_brk w))) w));
        [done| |reflexivity|reflexivity].
      by eapply (find_dr_updated (dr_addr r0) (set_dr_data (Some (w_brk w))) r0 w).
    + apply elem_of_update_dr; [|done]. apply elem_of_update_dr; [|done].
      rewrite Hl. apply elem_of_app. right. by left.
    + done.
    + done.
  - (* the record is created *)
    assert (Hlt' : Forall (fun r => (dr_addr r < S (w_brk w))%nat)
                     (db_dirty_records (w_db w))).
    { eapply Forall_impl; [exact Hlt|]. cbn. intros; lia. }
    assert (Hk' : Forall (fun r => (dr_addr r < S (w_brk w))%nat) (w_kmem w)).
    { eapply Forall_impl; [exact Hk|]. cbn. intros; lia. }
    erewrite bind_eq by (by apply dbuf_dirty_record_create_leaf_run).
    wnorm. rewrite (proj2 (Z.eqb_neq _ _) Hblk), Htx, Hpt.
    rewrite Hl, dirty_records_insert by (by rewrite <- Hl).
    set (r := mk_dr (S (w_brk w)) (tx_txg tx) None None (Some (w_brk w)) []
                DR_NOT_OVERRIDDEN false false).
    mrun'. rewrite (proj2 (Z.eqb_neq _ _) Hnc). cbn [negb when]. rewrite Hoff, Hdsz.
    assert (Hfind : ∀ w0 : world,
              db_dirty_records (w_db w0) = newer ++ r :: older →
              find_dr (S (w_brk w)) w0 = Some r).
    { intros w0 Hl0. unfold find_dr. rewrite Hl0, <- app_assoc, find_dr_app, find_absent.
      - cbn. unfold dr_has_addr. cbn. by rewrite Nat.eqb_refl.
      - rewrite Hl in Hlt. apply Forall_app in Hlt as [Hlt1 _].
        eapply Forall_impl; [exact Hlt1|]. cbn. intros; lia. }
    erewrite bind_eq
      by (eapply dbuf_dirty_record_add_range_full_run; wnorm;
          [ by apply Hfind | done | by rewrite Hwrap | done ]).
    cbn zeta. wnorm. mrun'.
    unfold dbuf_dirty_exit, dbuf_dirty_parent. wsimpl. rewrite Had.
    cbn [negb when deref]. mrun'.
    eexists (S (w_brk w)), _, _. split; [reflexivity|]. wnorm.
    split_and!; [done|by state_norm| | | |].
    + eapply (find_dr_updated (S (w_brk w)) (set_write_ranges []) r
               (set_w_db (set_db_dirty_records (newer ++ r :: older) (w_db w)) w));
        [done|by apply Hfind|reflexivity|reflexivity].
    + rewrite update_dr_app. apply elem_of_app. right.
      unfold update_dr. cbn [List.map]. unfold dr_has_addr at 1. cbn [dr_addr r].
      rewrite Nat.eqb_refl. by left.
    + done.
    + done.
Qed.





End FullBlock.

(** The whole of the 8 bytes of [uncached_world] is written in
    transaction group 1. *)
Lemma dbuf_dirty_leaf_full_block_witness :
  ∃ a r w',
    dbuf_dirty_leaf (mk_tx 1) 0 8 uncached_world = Ok (Some a) w'
    ∧ db_state (w_db w') = DB_FILL
    ∧ find_dr a w' = Some r
    ∧ write_ranges r = [].
Proof.
  destruct (dbuf_dirty_leaf_full_block uncached_world (mk_tx 1) 8)
    as (a & r & w' & Hrun & Hst & _ & Hfind & _ & _ & Hr).
  - reflexivity.
  - reflexivity.
  - reflexivity.
  - discriminate.
  - unfold INT_MAX. lia.
  - reflexivity.
  - reflexivity.
  - split; constructor.
  - constructor.
  - by exists a, r, w'.
Defined.

(** ** Dirtying the middle of an uncached leaf *)

Section Fault.
Context `{hdr : dbuf_headers}.

(** A read that completes on a dbuf in [DB_READ] without dirty records:
    the buffer becomes the frontend and the dbuf is cached. *)
Lemma dbuf_read_complete_clean (b : nat) (a : arc_buf_t) (is_hole_read : bool)
    (w : world) :
  db_state (w_db w) = DB_READ →
  db_dirty_records (w_db w) = [] →
  w_arc w !! b = Some a →
  dbuf_read_complete (Some b) is_hole_read w
  = Ok tt
      (set_w_log
         (rev ((fun s => EvBufSetRele s 0) <$> db_buf_sets (w_db w))
          ++ EvStateChange DB_CACHED "read completed with no dirty records"
          :: (if b_released a then w_log w else EvArcSetCallback b :: w_log w))
         (set_w_db
            (set_db_buf_sets []
               (set_db_state DB_CACHED
                  (set_db_data (Some b) (set_db_buf (Some b) (w_db w))))) w)).
Proof.
  intros Hst Hl Harc. unfold dbuf_read_complete. mrun'. rewrite Hl, Hst, Z.eqb_refl.
  cbn [last]. mrun'.
  rewrite (bind_eq _ _ _ _ _ (dbuf_set_data_run b a w Harc)). mrun'.
  unfold dbuf_process_buf_sets. mrun'. wsimpl. unfold ret.
  reflexivity.
Qed.

(** [dbuf_rele_and_unlock] when other holds remain, more than there
    are dirty records. *)
Lemma dbuf_rele_and_unlock_held (w : world) :
  db_level (w_db w) = 0 →
  db_holds (w_db w) - 1 ≠ 0 →
  db_holds (w_db w) - 1 ≠ db_dirtycnt (w_db w) →
  dbuf_rele_and_unlock w
  = Ok tt (set_w_db (set_db_holds (db_holds (w_db w) - 1) (w_db w)) w).
Proof.
  intros Hlev Hh Hd. unfold dbuf_rele_and_unlock. mrun'.
  rewrite Hlev. cbn [Z.eqb].
  rewrite (proj2 (Z.eqb_neq _ _) Hh), (proj2 (Z.eqb_neq _ _) Hd).
  rewrite !andb_false_r. cbn [andb when]. mrun'. reflexivity.
Qed.

(** [bzero] of a whole buffer. *)
Lemma bzero_all_run (d : nat) (n : Z) (da : arc_buf_t) (w : world) :
  w_arc w !! d = Some da →
  0 ≤ n → Z.of_nat (length (b_data da)) = n →
  bzero (d, 0) n w
  = Ok tt (set_w_arc (<[d := set_b_data (replicate (Z.to_nat n) Byte.x00) da]> (w_arc w)) w).
Proof.
  intros Hd Hn Hlen. unfold bzero. cbn [fst snd].
  rewrite (bind_eq _ _ _ _ _ (arc_buf_get_run d da w Hd)).
  rewrite copy_bytes_Some by (rewrite ?length_replicate; lia).
  change (Z.to_nat 0) with 0%nat. rewrite take_0, drop_0, take_replicate, Nat.min_id.
  rewrite Z.add_0_l, drop_ge by lia. by rewrite app_nil_r.
Qed.

Lemma dbuf_read_hole_run (w : world) :
  db_state (w_db w) = DB_UNCACHED →
  db_dirty_records (w_db w) = [] →
  db_level (w_db w) = 0 →
  0 ≤ db_size (w_db w) →
  match db_blkptr (w_db w) with
  | None => true
  | Some bp => bp_is_hole bp || env_block_freed (w_env w)
  end = true →
  dbuf_read_hole w
  = Ok true
      (set_w_log
         (rev ((fun s => EvBufSetRele s 0) <$> db_buf_sets (w_db w))
          ++ EvStateChange DB_CACHED "read completed with no dirty records"
          :: EvStateChange DB_READ "hole read satisfied" :: w_log w)
         (set_w_brk (S (w_brk w))
            (set_w_arc
               (<[w_brk w := mk_arc_buf
                    (replicate (Z.to_nat (db_size (w_db w))) Byte.x00) true]> (w_arc w))
               (set_w_db
                  (set_db_buf_sets []
                     (set_db_state DB_CACHED
                        (set_db_data (Some (w_brk w))
                           (set_db_buf (Some (w_brk w)) (w_db w))))) w)))).
Proof.
  intros Hst Hl Hlev Hsz Hhole. unfold dbuf_read_hole. mrun'.
  rewrite Hst, Z.eqb_refl. cbn [negb].
  assert (Hdet : ∀ A (k : bool → M A) w0, w_db w0 = w_db w → w_env w0 = w_env w →
    bind (match db_blkptr (w_db w) with
          | Some bp => ret (bp_is_hole bp)
          | None => ret true
          end)
      (fun is_hole : bool =>
         bind (if negb is_hole && (db_level (w_db w) =? 0)
               then bind get_world
                      (fun w1 : world =>
                         if env_block_freed (w_env w1) then ret true
                         else BP_IS_HOLE (db_blkptr (w_db w)))
               else ret is_hole) k) w0 = k true w0).
  { intros A k w0 Hdb Henv. rewrite Hlev. cbn [Z.eqb].
    destruct (db_blkptr (w_db w)) as [bp|]; [|done].
    rewrite bind_ret. destruct (bp_is_hole bp) eqn:Hbp; cbn [negb andb]; [done|].
    rewrite bind_assoc, bind_get_world, Henv. cbn [orb] in Hhole. rewrite Hhole. done. }
  rewrite Hdet by done. clear Hdet.
  unfold dbuf_alloc_arcbuf, arc_buf_alloc. mrun'.
  erewrite bind_eq
    by (apply bzero_all_run; wsimpl;
        [apply lookup_insert_eq|done|cbn; rewrite length_replicate; lia]).
  wnorm. rewrite insert_insert_eq. cbn [set_b_data b_released]. mrun'.
  erewrite bind_eq
    by (apply dbuf_read_complete_clean; wsimpl; [done|done|apply lookup_insert_eq]).
  wnorm. mrun'. reflexivity.
Qed.


Lemma dbuf_read_hole_none (w : world) (bp : blkptr_t) :
  db_state (w_db w) = DB_UNCACHED →
  db_level (w_db w) = 0 →
  db_blkptr (w_db w) = Some bp →
  bp_is_hole bp = false → env_block_freed (w_env w) = false →
  dbuf_read_hole w = Ok false w.
Proof.
  intros Hst Hlev Hbp Hhole Hfreed. unfold dbuf_read_hole. mrun'.
  rewrite Hst, Z.eqb_refl, Hbp. cbn [negb]. mrun'. rewrite Hhole, Hlev. cbn [negb andb Z.eqb].
  mrun'. rewrite Hfreed. unfold BP_IS_HOLE. cbn [deref]. mrun'. rewrite Hhole. reflexivity.
Qed.

(** What [dbuf_transition_to_read] does to an uncached dbuf without
    dirty records: the first thing that happens is the change to
    [DB_READ]; no dirty record appears.  For a hole the read is
    satisfied with zeros and the ARC is not asked; otherwise
    [arc_read] is called, and the dbuf is cached with the bytes of
    the ARC, or left in [DB_READ] with the read queued under the zio
    that [zio_nowait] then starts. *)
Lemma dbuf_transition_to_read_run (w : world) :
  db_state (w_db w) = DB_UNCACHED →
  db_dirty_records (w_db w) = [] →
  db_level (w_db w) = 0 →
  db_blkid (w_db w) ≠ DMU_BONUS_BLKID →
  db_buf (w_db w) = None →
  0 ≤ db_size (w_db w) →
  1 ≤ db_holds (w_db w) → db_dirtycnt (w_db w) = 0 →
  ∃ w1 why later,
    dbuf_transition_to_read w = Ok tt w1
    ∧ w_log w1 = later ++ EvStateChange DB_READ why :: w_log w
    ∧ db_dirty_records (w_db w1) = []
    ∧ w_kmem w1 = w_kmem w
    ∧ (w_brk w < w_brk w1)%nat
    ∧ db_level (w_db w1) = 0
    ∧ db_blkid (w_db w1) = db_blkid (w_db w)
    ∧ db_size (w_db w1) = db_size (w_db w)
    ∧ (db_state (w_db w1) = DB_READ ∧ db_buf (w_db w1) = None
       ∧ w_io_queued w1 = Some (w_brk w)
       ∨ db_state (w_db w1) = DB_CACHED
         ∧ ∃ b a, db_buf (w_db w1) = Some b ∧ w_arc w1 !! b = Some a)
    ∧ (if block_is_hole w
       then db_state (w_db w1) = DB_CACHED
            ∧ bytes_of (w_arc w1) (db_buf (w_db w1))
              = replicate (Z.to_nat (db_size (w_db w))) Byte.x00
            ∧ (∀ c, EvArcRead c ∉ later)
            ∧ w_io_queued w1 = w_io_queued w
       else EvArcRead false ∈ later
            ∧ match env_arc_cached (w_env w) with
              | Some bytes =>
                  db_state (w_db w1) = DB_CACHED
                  ∧ bytes_of (w_arc w1) (db_buf (w_db w1)) = bytes
                  ∧ w_io_queued w1 = w_io_queued w
              | None =>
                  db_state (w_db w1) = DB_READ
                  ∧ w_io_queued w1 = Some (w_brk w)
                  ∧ EvZioNowait (w_brk w) ∈ later
              end).
Proof.
  intros Hst Hl Hlev Hblk Hbuf Hsz Hh Hd.
  unfold dbuf_transition_to_read, zio_root. mrun'.
  unfold dbuf_read. mrun'. rewrite Hst. repeat state_test.
  rewrite ptr_eqb_Some_None. cbn [negb]. mrun'.
  unfold dbuf_read_impl, dbuf_read_bonus. mrun'.
  rewrite (proj2 (Z.eqb_neq _ _) Hblk). cbn [negb]. mrun'.
  unfold block_is_hole.
  destruct (match db_blkptr (w_db w) with
            | None => true
            | Some bp => bp_is_hole bp || env_block_freed (w_env w)
            end) eqn:Hhole.
  - (* a hole *)
    erewrite bind_eq by (by apply dbuf_read_hole_run).
    wnorm. mrun'. unfold zio_nowait. cbn [deref]. mrun'.
    eexists _, "hole read satisfied"%string,
      (EvZioNowait (w_brk w)
       :: rev ((fun s => EvBufSetRele s 0) <$> db_buf_sets (w_db w))
       ++ [EvStateChange DB_CACHED "read completed with no dirty records"]).
    split; [reflexivity|]. wnorm.
    split_and!; try done.
    + cbn [app]. rewrite <- app_assoc. reflexivity.
    + lia.
    + right. split; [done|]. eexists _, _. split; [done|]. apply lookup_insert_eq.
    + unfold bytes_of. by rewrite lookup_insert_eq.
    + intros c [?|[Hin|Hin]%elem_of_app]%elem_of_cons; [done| |].
      * apply list_elem_of_In, in_rev, list_elem_of_In, list_elem_of_fmap in Hin
          as (? & ? & ?). done.
      * by apply list_elem_of_singleton in Hin.
  - (* the block has to be read *)
    destruct (db_blkptr (w_db w)) as [bp|] eqn:Hbp; [|done].
    apply orb_false_iff in Hhole as [Hhole Hfreed].
    erewrite bind_eq by (by eapply dbuf_read_hole_none).
    wnorm. cbn [DB_RF_CACHED_ONLY]. mrun'. unfold dbuf_add_ref. mrun'.
    unfold arc_read. mrun'.
    destruct (env_arc_cached (w_env w)) as [bytes|] eqn:Hcached.
    + (* found in the ARC *)
      mrun'. unfold dbuf_read_done. cbn [negb]. mrun'.
      erewrite bind_eq
        by (apply dbuf_read_complete_clean; wsimpl; [done|done|apply lookup_insert_eq]).
      wnorm. mrun'.
      erewrite bind_eq by (apply dbuf_rele_and_unlock_held; wsimpl; lia).
      wnorm. mrun'. unfold zio_nowait. cbn [deref]. mrun'.
      eexists _, "read issued"%string,
        (EvZioNowait (w_brk w) :: EvCvBroadcast
         :: rev ((fun s => EvBufSetRele s 0) <$> db_buf_sets (w_db w))
         ++ [EvStateChange DB_CACHED "read completed with no dirty records";
             EvArcSetCallback (S (w_brk w)); EvArcRead false]).
      split; [reflexivity|]. wnorm.
      split_and!; try done.
      * cbn [app]. rewrite <- app_assoc. reflexivity.
      * lia.
      * right. split; [done|]. eexists _, _. split; [done|]. apply lookup_insert_eq.
      * do 2 (apply elem_of_cons; right). apply elem_of_app. right.
        do 2 (apply elem_of_cons; right). apply list_elem_of_here.
      * unfold bytes_of. by rewrite lookup_insert_eq.
    + (* queued *)
      mrun'. unfold zio_nowait. cbn [deref]. mrun'.
      eexists _, "read issued"%string, [EvZioNowait (w_brk w); EvArcRead false].
      split; [reflexivity|]. wnorm.
      split_and!; try done; [lia|by left| |].
      * apply elem_of_cons; right. apply list_elem_of_here.
      * apply list_elem_of_here.
Qed.

(** Dirtying part of a dbuf whose read is under way: the record gets
    the range that was written, and the dbuf waits for the read in
    [DB_READ|DB_FILL]. *)
Lemma dbuf_dirty_leaf_read_run (w : world) (tx : dmu_tx_t) (offset size : Z) :
  db_state (w_db w) = DB_READ →
  db_dirty_records (w_db w) = [] →
  db_buf (w_db w) = None →
  db_level (w_db w) = 0 →
  db_blkid (w_db w) ≠ DMU_BONUS_BLKID →
  0 < offset → 0 ≤ size → offset + size < db_size (w_db w) →
  db_size (w_db w) ≤ INT_MAX →
  Forall (fun r => (dr_addr r < w_brk w)%nat) (w_kmem w) →
  ∃ w2 r,
    dbuf_dirty_leaf tx offset size w = Ok (Some (S (w_brk w))) w2
    ∧ db_dirty_records (w_db w2) = [r]
    ∧ dr_addr r = S (w_brk w) ∧ dr_txg r = tx_txg tx
    ∧ write_ranges r = [mk_range offset (offset + size) size]
    ∧ db_state (w_db w2) = Z.lor DB_READ DB_FILL
    ∧ w_log w2 = EvDirtyParent (S (w_brk w)) (tx_txg tx)
                 :: EvStateChange (Z.lor DB_READ DB_FILL)
                      "notifying of followup partial fill" :: w_log w.
Proof.
  intros Hst Hl Hbuf Hlev Hblk Ho Hs Hos Hmax Hk. unfold INT_MAX in Hmax.
  unfold dbuf_dirty_leaf, dbuf_dirty_leaf_enter, dbuf_dirty_enter.
  mrun'. unfold dbuf_dirty_handle_fault. mrun'. rewrite Hst.
  repeat state_test. cbn [negb]. mrun'.
  rewrite (bind_eq _ _ _ _ _ (dbuf_dirty_compute_state_clean tx None offset size w
             ltac:(rewrite Hst; by state_norm) Hl)).
  assert (Hspill : ∀ A (k : M A),
    k (if db_blkid (w_db w) =? DMU_SPILL_BLKID
       then set_w_dn (set_dn_have_spill true (w_dn w)) w else w)
    = k (set_w_dn (if db_blkid (w_db w) =? DMU_SPILL_BLKID
                   then set_dn_have_spill true (w_dn w) else w_dn w) w)).
  { intros A k. destruct (_ =? _); [done|]. by destruct w. }
  rewrite Hspill. clear Hspill. wnorm. mrun'. rewrite Hst. repeat state_test.
  cbn [negb when]. mrun'.
  unfold dbuf_dirty_leaf_common. mrun'. rewrite Hbuf, ptr_eqb_refl.
  unfold dbuf_dirty_set_data. cbn [fill_buf]. rewrite ptr_eqb_refl.
  unfold dbuf_alloc_arcbuf, arc_buf_alloc. mrun'.
  erewrite bind_eq by (apply dbuf_set_data_run; wsimpl; apply lookup_insert_eq).
  wnorm. cbn [negb txg_already_dirty]. mrun'.
  erewrite bind_eq
    by (apply dbuf_dirty_record_create_leaf_run; wsimpl; rewrite ?Hl;
        [constructor|eapply Forall_impl; [exact Hk|]; cbn; intros; lia]).
  wnorm. rewrite (proj2 (Z.eqb_neq _ _) Hblk), Hl. cbn [insert_pt]. mrun'.
  assert (Hnc : Z.lor DB_READ DB_FILL ≠ DB_CACHED) by state_neq.
  rewrite !Hst, (proj2 (Z.eqb_neq _ _) Hnc). cbn [negb when].
  unfold dbuf_dirty_record_add_range. rewrite !bind_assoc.
  erewrite bind_eq by (eapply get_dr_run, find_dr_cons; wsimpl; reflexivity).
  mrun'. rewrite (proj2 (Z.eqb_neq offset 0)) by lia. cbn [andb].
  erewrite bind_eq by (eapply modify_dr_run, find_dr_cons; wsimpl; reflexivity).
  wnorm. unfold update_dr at 1. cbn [List.map]. unfold dr_has_addr at 1.
  cbn [dr_addr]. rewrite Nat.eqb_refl. mrun'.
  erewrite bind_eq by (eapply get_dr_run, find_dr_cons; wsimpl; reflexivity).
  mrun'.
  assert (Hlist : add_range_list (db_size (w_db w)) offset size []
                  = [mk_range offset (offset + size) size]).
  { unfold add_range_list. cbn [add_range_loop rg_start rg_size].
    rewrite (proj2 (Z.eqb_neq offset 0)) by lia. cbn [andb app].
    by rewrite wrap_int_small by lia. }
  cbn [write_ranges set_write_ranges]. rewrite Hlist.
  rewrite bool_decide_eq_false_2 by done.
  destruct (negb _); cbn [when]; mrun'.
  all: unfold dbuf_dirty_exit, dbuf_dirty_parent; cbn [negb when deref txg_already_dirty
         set_txg_dr txg_dr dds_tx]; mrun'.
  all: eexists _, _; (split; [reflexivity|]); wnorm; done.
Qed.


(** [dbuf_dirty_handle_fault] leaves a dbuf alone that is neither
    partial nor uncached. *)
Lemma dbuf_dirty_handle_fault_skip (dds : dbuf_dirty_state_t) (w : world) :
  Z.land (db_state (w_db w)) DB_PARTIAL = 0 →
  db_state (w_db w) ≠ DB_UNCACHED →
  dbuf_dirty_handle_fault dds w = Ok tt w.
Proof.
  intros Hp Hu. unfold dbuf_dirty_handle_fault. rewrite bind_get_db, Hp.
  cbn [Z.eqb negb]. by rewrite (proj2 (Z.eqb_neq _ _) Hu).
Qed.

Lemma dbuf_dirty_leaf_after_fault (tx : dmu_tx_t) (offset size : Z) (w w1 : world) :
  dbuf_dirty_handle_fault (mk_dds tx None None false None offset size) w = Ok tt w1 →
  dbuf_dirty_handle_fault (mk_dds tx None None false None offset size) w1 = Ok tt w1 →
  dbuf_dirty_leaf tx offset size w = dbuf_dirty_leaf tx offset size w1.
Proof.
  intros H H1. unfold dbuf_dirty_leaf, dbuf_dirty_leaf_enter, dbuf_dirty_enter.
  rewrite !bind_assoc, !bind_ret, !bind_assoc.
  cbn [set_dds_size set_dds_offset dds_tx insert_pt txg_dr txg_already_dirty fill_buf].
  by rewrite (bind_eq _ _ _ _ _ H), (bind_eq _ _ _ _ _ H1).
Qed.

(** C6.  An uncached leaf dbuf without dirty records is dirtied in a
    range that is neither a prefix nor a suffix of the block.
    [dbuf_dirty_handle_fault] calls [dbuf_transition_to_read], whose
    first effect is the change of state to [DB_READ], and the read
    happens before there is a dirty record.  When the block is not a
    hole [arc_read] is called: the dbuf is left in [DB_READ] with the
    read queued under the zio that [zio_nowait] starts, or, when the
    ARC has the block, cached with its bytes.  A hole is read as
    zeros, without the ARC.  The dirty operation goes on from there:
    it returns the record it creates, and what it logs comes after
    the read. *)
Theorem dbuf_dirty_leaf_reads_first (w : world) (tx : dmu_tx_t) (offset size : Z) :
  db_state (w_db w) = DB_UNCACHED →
  db_dirty_records (w_db w) = [] → db_dirtycnt (w_db w) = 0 →
  db_buf (w_db w) = None →
  db_level (w_db w) = 0 →
  db_blkid (w_db w) ≠ DMU_BONUS_BLKID →
  1 ≤ db_holds (w_db w) →
  0 < offset → 0 ≤ size → offset + size < db_size (w_db w) →
  db_size (w_db w) ≤ INT_MAX →
  Forall (fun r => (dr_addr r < w_brk w)%nat) (w_kmem w) →
  ∃ w1 why later,
    dbuf_dirty_handle_fault (mk_dds tx None None false None offset size) w = Ok tt w1
    ∧ dbuf_transition_to_read w = Ok tt w1
    ∧ w_log w1 = later ++ EvStateChange DB_READ why :: w_log w
    ∧ db_dirty_records (w_db w1) = [] ∧ w_kmem w1 = w_kmem w
    ∧ (db_state (w_db w1) = DB_READ ∨ db_state (w_db w1) = DB_CACHED)
    ∧ (if block_is_hole w
       then db_state (w_db w1) = DB_CACHED
            ∧ bytes_of (w_arc w1) (db_buf (w_db w1))
              = replicate (Z.to_nat (db_size (w_db w))) Byte.x00
            ∧ (∀ c, EvArcRead c ∉ later)
            ∧ w_io_queued w1 = w_io_queued w
       else EvArcRead false ∈ later
            ∧ match env_arc_cached (w_env w) with
              | Some bytes =>
                  db_state (w_db w1) = DB_CACHED
                  ∧ bytes_of (w_arc w1) (db_buf (w_db w1)) = bytes
                  ∧ w_io_queued w1 = w_io_queued w
              | None =>
                  db_state (w_db w1) = DB_READ
                  ∧ w_io_queued w1 = Some (w_brk w)
                  ∧ EvZioNowait (w_brk w) ∈ later
              end)
    ∧ dbuf_dirty_leaf tx offset size w = dbuf_dirty_leaf tx offset size w1
    ∧ ∃ a r w2 later2,
        dbuf_dirty_leaf tx offset size w = Ok (Some a) w2
        ∧ db_dirty_records (w_db w2) = [r]
        ∧ dr_addr r = a ∧ dr_txg r = tx_txg tx
        ∧ w_log w2 = later2 ++ w_log w1.
Proof.
  intros Hst Hl Hd Hbuf Hlev Hblk Hh Ho Hs Hos Hmax Hk.
  destruct (dbuf_transition_to_read_run w)
    as (w1 & why & later & Hrun & Hlog & Hl1 & Hk1 & Hbrk1 & Hlev1 & Hblk1 & Hsz1 & Hst1
        & Hread);
    try done; [lia|].
  assert (Hfault : dbuf_dirty_handle_fault (mk_dds tx None None false None offset size) w
                   = Ok tt w1).
  { unfold dbuf_dirty_handle_fault. rewrite bind_get_db, Hst.
    repeat state_test. cbn [negb dds_offset dds_size].
    unfold INT_MAX in Hmax.
    rewrite wrap_int_small, wrap_u64_small by lia.
    rewrite (proj2 (Z.eqb_neq offset 0)), (proj2 (Z.eqb_neq (offset + size) _)) by lia.
    exact Hrun. }
  assert (Hskip : dbuf_dirty_handle_fault (mk_dds tx None None false None offset size) w1
                  = Ok tt w1).
  { apply dbuf_dirty_handle_fault_skip.
    - destruct Hst1 as [(-> & _)|(-> & _)]; by state_norm.
    - destruct Hst1 as [(-> & _)|(-> & _)]; state_neq. }
  pose proof (dbuf_dirty_leaf_after_fault tx offset size w w1 Hfault Hskip) as Heq.
  assert (Hk1' : Forall (fun r => (dr_addr r < w_brk w1)%nat) (w_kmem w1)).
  { rewrite Hk1. eapply Forall_impl; [exact Hk|]. cbn. intros; lia. }
  exists w1, why, later. split_and!; try done.
  - destruct Hst1 as [(-> & _)|(-> & _)]; [by left|by right].
  - rewrite Heq. destruct Hst1 as [(Hs1 & Hb1 & _)|(Hs1 & b & a & Hb1 & Ha1)].
    + destruct (dbuf_dirty_leaf_read_run w1 tx offset size)
        as (w2 & r & Hrun2 & Hl2 & Ha & Ht & _ & _ & Hlog2); try done;
        [by rewrite Hblk1|by rewrite Hsz1|by rewrite Hsz1|].
      eexists (S (w_brk w1)), r, w2, [_; _]. split_and!; [done|done|done|done|exact Hlog2].
    + destruct (dbuf_dirty_leaf_cached_run w1 tx offset size b a)
        as (w2 & Hrun2 & Hdb2 & _ & _ & _ & Hlog2); try done; [by rewrite Hblk1|].
      eexists (w_brk w1), _, w2, [_; _]. split_and!; [done| | | |exact Hlog2].
      * by rewrite Hdb2.
      * done.
      * done.
Qed.

End Fault.
(** Bytes 2 to 5 of the 8 bytes of [uncached_world] are written; its
    block is on disk and not in the ARC, so the read is queued. *)
Lemma dbuf_dirty_leaf_reads_first_witness :
  ∃ w1 why later,
    dbuf_transition_to_read uncached_world = Ok tt w1
    ∧ w_log w1 = later ++ EvStateChange DB_READ why :: w_log uncached_world
    ∧ db_dirty_records (w_db w1) = []
    ∧ EvArcRead false ∈ later
    ∧ db_state (w_db w1) = DB_READ
    ∧ w_io_queued w1 = Some (w_brk uncached_world)
    ∧ ∃ a w2, dbuf_dirty_leaf (mk_tx 1) 2 4 uncached_world = Ok (Some a) w2.
Proof.
  destruct (dbuf_dirty_leaf_reads_first uncached_world (mk_tx 1) 2 4)
    as (w1 & why & later & _ & Hrun & Hlog & Hl & _ & _ & Hread & _
        & a & r & w2 & later2 & Hrun2 & _).
  - reflexivity.
  - reflexivity.
  - reflexivity.
  - reflexivity.
  - reflexivity.
  - discriminate.
  - cbn. lia.
  - lia.
  - lia.
  - cbn. lia.
  - unfold INT_MAX. cbn. lia.
  - constructor.
  - change (block_is_hole uncached_world) with false in Hread.
    change (env_arc_cached (w_env uncached_world)) with (@None (list Byte.byte)) in Hread.
    cbn iota in Hread. destruct Hread as (Hread & Hst & Hq & _).
    exists w1, why, later.
    split; [exact Hrun|]. split; [exact Hlog|]. split; [exact Hl|].
    split; [exact Hread|]. split; [exact Hst|]. split; [exact Hq|].
    exists a, w2. exact Hrun2.
Defined.

(** ** A free that meets a filler *)

Section FreedInFlight.
Context `{hdr : dbuf_headers}.

Lemma find_txg_absent (txg : Z) (l : list dbuf_dirty_record_t) :
  Forall (fun r => dr_txg r ≠ txg) l →
  List.find (fun dr => dr_txg dr =? txg) l = None.
Proof.
  induction 1 as [|r l Hr _ IH]; [done|]. cbn.
  by rewrite (proj2 (Z.eqb_neq _ _) Hr).
Qed.

(** [dbuf_free_range] on a dbuf that is being filled: the filler is
    told to do the freeing, and nothing else changes. *)
Lemma dbuf_free_range_filler_run (w : world) (start end_ : Z) (tx : dmu_tx_t) :
  db_level (w_db w) = 0 →
  Z.land (db_state (w_db w)) DB_FILL ≠ 0 →
  IN_RANGE start (db_blkid (w_db w))
    (if (end_ >? dn_maxblkid (w_dn w)) && negb (end_ =? DMU_SPILL_BLKID)
     then dn_maxblkid (w_dn w) else end_) = true →
  Forall (fun r => dr_txg r ≠ tx_txg tx) (db_dirty_records (w_db w)) →
  dbuf_free_range start end_ tx w
  = Ok tt (set_w_db (set_db_freed_in_flight true (w_db w)) w).
Proof.
  intros Hlev Hfill Hin Hno.
  assert (Hnot : ∀ s, s ≠ ST_FILL → db_state (w_db w) ≠ state_mask s).
  { intros s Hs Heq. apply Hfill. rewrite Heq. unfold DB_FILL.
    rewrite state_land. by rewrite decide_False. }
  unfold dbuf_free_range. rewrite bind_get_world.
  unfold dbuf_free_range_indirects. mrun. rewrite Hlev. cbn [Z.eqb]. mrun.
  rewrite Hin. cbn [negb].
  unfold dbuf_undirty, dbuf_get_dirty_record_for_txg. mrun.
  rewrite find_txg_absent by done. cbn [fmap option_fmap option_map].
  rewrite ptr_eqb_refl. mrun.
  unfold dbuf_free_range_already_freed. mrun.
  rewrite !(proj2 (Z.eqb_neq (db_state (w_db w)) _))
    by (apply Hnot; discriminate).
  cbn [orb]. unfold dbuf_free_range_filler_will_free. mrun.
  rewrite (proj2 (Z.eqb_neq _ _) Hfill). cbn [negb]. mrun. reflexivity.
Qed.

(** [dbuf_dispatch_override_zio] issues the override zio of the
    record, if there is one. *)
Lemma dbuf_dispatch_override_zio_run (a : nat) (r : dbuf_dirty_record_t) (w : world) :
  find_dr a w = Some r →
  dbuf_dispatch_override_zio (Some a) w
  = Ok tt (match dr_override_zio r with
           | Some z => update_dr_world a (set_dr_override_zio None)
                         (set_w_log (EvZioNowait z :: w_log w) w)
           | None => w
           end).
Proof.
  intros Hfind. unfold dbuf_dispatch_override_zio. rewrite ptr_eqb_Some_None.
  rewrite (bind_eq _ _ _ _ _ (get_dr_run a w r Hfind)).
  destruct (dr_override_zio r) as [z|] eqn:Hz.
  - rewrite ptr_eqb_Some_None. unfold zio_nowait. cbn [deref]. mrun.
    by erewrite modify_dr_run by (rewrite <- Hfind; reflexivity).
  - by rewrite ptr_eqb_refl.
Qed.

(** A free in another transaction group.  [dbuf_free_range] reaches
    a level-0 dbuf that is being filled and is not dirty in the
    transaction group of the free: it sets [db_freed_in_flight] and
    leaves the dbuf, its buffer and its dirty records as they are.
    [dbuf_fill_done] on that dbuf then zeroes the whole frontend
    buffer, resets [db_freed_in_flight], empties the write ranges of
    the newest dirty record and puts the dbuf in [DB_CACHED]. *)
Lemma dbuf_free_range_defers_to_filler (w : world) (start end_ : Z)
    (tx tx_fill : dmu_tx_t) (r : dbuf_dirty_record_t) (d : nat) (a : arc_buf_t) :
  db_level (w_db w) = 0 →
  Z.land (db_state (w_db w)) DB_FILL ≠ 0 →
  IN_RANGE start (db_blkid (w_db w))
    (if (end_ >? dn_maxblkid (w_dn w)) && negb (end_ =? DMU_SPILL_BLKID)
     then dn_maxblkid (w_dn w) else end_) = true →
  Forall (fun r => dr_txg r ≠ tx_txg tx) (db_dirty_records (w_db w)) →
  head (db_dirty_records (w_db w)) = Some r →
  db_data (w_db w) = Some d → w_arc w !! d = Some a →
  Z.of_nat (length (b_data a)) = db_size (w_db w) →
  ∃ w1 w2 r',
    dbuf_free_range start end_ tx w = Ok tt w1
    ∧ w1 = set_w_db (set_db_freed_in_flight true (w_db w)) w
    ∧ dbuf_fill_done tx_fill w1 = Ok tt w2
    ∧ db_state (w_db w2) = DB_CACHED
    ∧ db_freed_in_flight (w_db w2) = false
    ∧ db_data (w_db w2) = Some d
    ∧ w_arc w2 !! d
      = Some (set_b_data (replicate (Z.to_nat (db_size (w_db w))) Byte.x00) a)
    ∧ head (db_dirty_records (w_db w2)) = Some r'
    ∧ dr_addr r' = dr_addr r ∧ dr_txg r' = dr_txg r
    ∧ write_ranges r' = [].
Proof.
  intros Hlev Hfill Hin Hno Hhead Hdata Harc Hlen.
  pose proof (dbuf_free_range_filler_run w start end_ tx Hlev Hfill Hin Hno) as Hfree.
  destruct (db_dirty_records (w_db w)) as [|r0 l] eqn:Hl; [done|].
  injection Hhead as ->.
  destruct (dr_override_zio r) as [z|] eqn:Hz.
  all: eexists _, _, _; (split; [exact Hfree|]); (split; [reflexivity|]).
  all: unfold dbuf_fill_done; mrun'; rewrite (proj2 (Z.eqb_neq _ _) Hfill); cbn [negb].
  all: rewrite Hdata, Hl; cbn [deref list_head head fmap option_fmap option_map]; mrun'.
  all: erewrite bind_eq by (apply bzero_all_run; wsimpl; [exact Harc|lia|done]).
  all: wnorm; mrun'; unfold dbuf_dirty_record_cleanup_ranges; rewrite !bind_assoc.
  all: erewrite bind_eq
         by (eapply get_dr_run, find_dr_cons; wsimpl; [exact Hl|reflexivity]).
  all: mrun'; rewrite Hlev; cbn [Z.eqb negb].
  all: erewrite bind_eq
         by (eapply modify_dr_run, find_dr_cons; wsimpl; [exact Hl|reflexivity]).
  all: wnorm; rewrite Hl; unfold update_dr at 1; cbn [List.map]; unfold dr_has_addr at 1.
  all: rewrite Nat.eqb_refl; mrun'; unfold dbuf_process_buf_sets; mrun'.
  all: erewrite bind_eq
         by (eapply dbuf_dispatch_override_zio_run, find_dr_cons; wsimpl; reflexivity).
  all: cbn [dr_override_zio set_write_ranges]; rewrite Hz; mrun'.
  - split; [reflexivity|]. unfold update_dr_world. wsimpl.
    unfold update_dr at 1. cbn [List.map]. unfold dr_has_addr at 1.
    cbn [dr_addr set_write_ranges].
    rewrite Nat.eqb_refl. cbn [head].
    split_and!; try done. apply lookup_insert_eq.
  - split; [reflexivity|]. wsimpl. split_and!; try done. apply lookup_insert_eq.
Qed.

(** [dbuf_undirty] of the newest dirty record of a level-0 dbuf that
    others hold too: the record is taken off the list and freed, and
    its hold is dropped. *)
Lemma dbuf_undirty_head_run (w : world) (tx : dmu_tx_t) (r : dbuf_dirty_record_t)
    (rest : list dbuf_dirty_record_t) :
  db_dirty_records (w_db w) = r :: rest →
  dr_txg r = tx_txg tx →
  Forall (fun x => dr_addr x ≠ dr_addr r) (rest ++ w_kmem w) →
  db_state (w_db w) ≠ DB_NOFILL →
  dr_override_state r = DR_NOT_OVERRIDDEN →
  dr_data r = db_buf (w_db w) →
  db_holds (w_db w) - 1 ≠ 0 →
  dbuf_undirty tx w
  = Ok false
      (set_w_db (set_db_holds (db_holds (w_db w) - 1)
                   (set_db_dirtycnt (db_dirtycnt (w_db w) - 1)
                      (set_db_dirty_records rest (w_db w)))) w).
Proof.
  intros Hl Htxg Hfresh Hst Hov Hdata Hh.
  unfold dbuf_undirty, dbuf_get_dirty_record_for_txg. mrun'.
  rewrite Hl. cbn [List.find]. rewrite Htxg, Z.eqb_refl.
  cbn [fmap option_fmap option_map]. rewrite ptr_eqb_Some_None.
  apply Forall_app in Hfresh as [Hrest Hkmem].
  unfold list_remove. mflat.
  erewrite bind_eq by (eapply get_dr_run, find_dr_cons; [exact Hl|reflexivity]).
  cbn [deref]. mrun'. rewrite Hl. unfold remove_dr at 1. cbn [List.filter].
  unfold dr_has_addr at 1. rewrite Nat.eqb_refl. cbn [negb].
  change (List.filter _ rest) with (remove_dr (dr_addr r) rest).
  rewrite remove_dr_absent by done.
  rewrite (proj2 (Z.eqb_neq _ _) Hst). cbn [negb when]. mflat.
  assert (Hfind : ∀ w0, db_dirty_records (w_db w0) = rest → w_kmem w0 = r :: w_kmem w →
            find_dr (dr_addr r) w0 = Some r).
  { intros w0 H1 H2. eapply find_dr_kmem; [by rewrite H1|exact H2|done]. }
  unfold dbuf_unoverride. mflat.
  erewrite bind_eq by (by apply get_dr_run, Hfind).
  mrun'. rewrite Hov. rewrite bool_decide_eq_true_2 by done. rewrite orb_true_r.
  unfold skip. mrun'.
  erewrite ?bind_eq by (by apply get_dr_run, Hfind).
  rewrite Hdata, ptr_eqb_refl. cbn [negb when]. unfold skip. mrun'.
  unfold dbuf_dirty_record_cleanup_ranges. mflat.
  erewrite ?bind_eq by (by apply get_dr_run, Hfind).
  mrun'.
  assert (Hclean : ∀ A (k : unit → M A) w0,
            db_dirty_records (w_db w0) = rest → w_kmem w0 = r :: w_kmem w →
            ∃ r', dr_addr r' = dr_addr r
                  ∧ bind (if negb (db_level (w_db w) =? 0) then skip
                          else modify_dr (Some (dr_addr r)) (set_write_ranges [])) k w0
                    = k tt (set_w_kmem (r' :: w_kmem w) w0)).
  { intros A k w0 H1 H2. destruct (negb _).
    - exists r. split; [done|]. unfold skip. rewrite bind_ret. f_equal.
      rewrite <- H2. by destruct w0.
    - exists (set_write_ranges [] r). split; [done|].
      erewrite bind_eq; [reflexivity|].
      eapply modify_dr_kmem; [by rewrite H1|exact Hkmem|exact H2|done]. }
  edestruct Hclean as (r' & Ha' & ->); [reflexivity|reflexivity|]. clear Hclean.
  unfold kmem_free_dr, modify_db. mrun'.
  unfold remove_dr at 1. cbn [List.filter]. unfold dr_has_addr at 1.
  rewrite Ha', Nat.eqb_refl. cbn [negb].
  change (List.filter _ (w_kmem w)) with (remove_dr (dr_addr r) (w_kmem w)).
  rewrite remove_dr_absent by done.
  rewrite (proj2 (Z.eqb_neq _ _) Hh). reflexivity.
Qed.


(** [dbuf_fill_done] on a dbuf that was freed while it was filled. *)
Lemma dbuf_fill_done_freed_run (w : world) (tx : dmu_tx_t) (r : dbuf_dirty_record_t)
    (l : list dbuf_dirty_record_t) (d : nat) (a : arc_buf_t) :
  db_level (w_db w) = 0 →
  Z.land (db_state (w_db w)) DB_FILL ≠ 0 →
  db_freed_in_flight (w_db w) = true →
  db_dirty_records (w_db w) = r :: l →
  db_data (w_db w) = Some d → w_arc w !! d = Some a →
  Z.of_nat (length (b_data a)) = db_size (w_db w) →
  ∃ w2 r',
    dbuf_fill_done tx w = Ok tt w2
    ∧ db_state (w_db w2) = DB_CACHED
    ∧ db_freed_in_flight (w_db w2) = false
    ∧ db_data (w_db w2) = Some d
    ∧ w_arc w2 !! d
      = Some (set_b_data (replicate (Z.to_nat (db_size (w_db w))) Byte.x00) a)
    ∧ head (db_dirty_records (w_db w2)) = Some r'
    ∧ dr_addr r' = dr_addr r ∧ dr_txg r' = dr_txg r
    ∧ write_ranges r' = [].
Proof.
  intros Hlev Hfill Hflag Hl Hdata Harc Hlen.
  destruct (dr_override_zio r) as [z|] eqn:Hz.
  all: eexists _, _.
  all: unfold dbuf_fill_done; mrun'; rewrite (proj2 (Z.eqb_neq _ _) Hfill); cbn [negb].
  all: rewrite Hflag, Hdata, Hl; cbn [deref list_head head fmap option_fmap option_map];
       mrun'.
  all: erewrite bind_eq by (apply bzero_all_run; wsimpl; [exact Harc|lia|done]).
  all: wnorm; mrun'; unfold dbuf_dirty_record_cleanup_ranges; rewrite !bind_assoc.
  all: erewrite bind_eq
         by (eapply get_dr_run, find_dr_cons; wsimpl; [exact Hl|reflexivity]).
  all: mrun'; rewrite Hlev; cbn [Z.eqb negb].
  all: erewrite bind_eq
         by (eapply modify_dr_run, find_dr_cons; wsimpl; [exact Hl|reflexivity]).
  all: wnorm; rewrite Hl; unfold update_dr at 1; cbn [List.map]; unfold dr_has_addr at 1.
  all: rewrite Nat.eqb_refl; mrun'; unfold dbuf_process_buf_sets; mrun'.
  all: erewrite bind_eq
         by (eapply dbuf_dispatch_override_zio_run, find_dr_cons; wsimpl; reflexivity).
  all: cbn [dr_override_zio set_write_ranges]; rewrite Hz; mrun'.
  - split; [reflexivity|]. unfold update_dr_world. wsimpl.
    unfold update_dr at 1. cbn [List.map]. unfold dr_has_addr at 1.
    cbn [dr_addr set_write_ranges].
    rewrite Nat.eqb_refl. cbn [head].
    split_and!; try done. apply lookup_insert_eq.
  - split; [reflexivity|]. wsimpl. split_and!; try done. apply lookup_insert_eq.
Qed.

(** C9.  [dbuf_free_range] reaches a level-0 dbuf that a filler is
    writing in the transaction group of the free: the newest dirty
    record, [r], is of that group.  [dbuf_undirty] takes the record of
    the filler off the list and frees it, with its hold, before
    [db_freed_in_flight] is set.  [dbuf_fill_done] then takes the head
    of the list for the record of the filler: with no older record it
    dereferences [NULL]; with an older record it zeroes the frontend
    and empties the write ranges of that record, of another
    transaction group. *)
Theorem dbuf_free_range_undirties_filler (w : world) (start end_ : Z)
    (tx : dmu_tx_t) (r : dbuf_dirty_record_t) (rest : list dbuf_dirty_record_t)
    (d : nat) (a : arc_buf_t) :
  db_level (w_db w) = 0 →
  Z.land (db_state (w_db w)) DB_FILL ≠ 0 →
  IN_RANGE start (db_blkid (w_db w))
    (if (end_ >? dn_maxblkid (w_dn w)) && negb (end_ =? DMU_SPILL_BLKID)
     then dn_maxblkid (w_dn w) else end_) = true →
  db_dirty_records (w_db w) = r :: rest →
  dr_txg r = tx_txg tx →
  Forall (fun x => dr_addr x ≠ dr_addr r) (rest ++ w_kmem w) →
  dr_override_state r = DR_NOT_OVERRIDDEN →
  dr_data r = db_buf (w_db w) →
  db_holds (w_db w) - 1 ≠ 0 →
  db_data (w_db w) = Some d → w_arc w !! d = Some a →
  Z.of_nat (length (b_data a)) = db_size (w_db w) →
  ∃ w1,
    dbuf_free_range start end_ tx w = Ok tt w1
    ∧ db_dirty_records (w_db w1) = rest
    ∧ db_dirtycnt (w_db w1) = db_dirtycnt (w_db w) - 1
    ∧ db_holds (w_db w1) = db_holds (w_db w) - 1
    ∧ db_freed_in_flight (w_db w1) = true
    ∧ db_state (w_db w1) = db_state (w_db w)
    ∧ w_arc w1 = w_arc w
    ∧ match rest with
      | [] => dbuf_fill_done tx w1 = Err (EFAULT "dbuf_dirty_record_t")
      | older :: _ =>
          ∃ w2 older',
            dbuf_fill_done tx w1 = Ok tt w2
            ∧ db_state (w_db w2) = DB_CACHED
            ∧ head (db_dirty_records (w_db w2)) = Some older'
            ∧ dr_addr older' = dr_addr older ∧ dr_txg older' = dr_txg older
            ∧ write_ranges older' = []
      end.
Proof.
  intros Hlev Hfill Hin Hl Htxg Hfresh Hov Hdr Hh Hdata Harc Hlen.
  assert (Hnot : ∀ s, s ≠ ST_FILL → db_state (w_db w) ≠ state_mask s).
  { intros s Hs Heq. apply Hfill. rewrite Heq. unfold DB_FILL.
    rewrite state_land. by rewrite decide_False. }
  pose proof (dbuf_undirty_head_run w tx r rest Hl Htxg Hfresh
                (Hnot ST_NOFILL ltac:(discriminate)) Hov Hdr Hh) as Hundirty.
  eexists. split.
  { unfold dbuf_free_range. rewrite bind_get_world.
    unfold dbuf_free_range_indirects. mrun. rewrite Hlev. cbn [Z.eqb]. mrun.
    rewrite Hin. cbn [negb]. rewrite (bind_eq _ _ _ _ _ Hundirty). mrun.
    unfold dbuf_free_range_already_freed. mrun. wsimpl.
    rewrite !(proj2 (Z.eqb_neq (db_state (w_db w)) _))
      by (apply Hnot; discriminate).
    cbn [orb]. unfold dbuf_free_range_filler_will_free. mrun. wsimpl.
    rewrite (proj2 (Z.eqb_neq _ _) Hfill). cbn [negb]. unfold modify_db. mrun.
    reflexivity. }
  wsimpl. split_and!; try reflexivity.
  destruct rest as [|older rest'].
  - unfold dbuf_fill_done. mrun'. rewrite (proj2 (Z.eqb_neq _ _) Hfill). cbn [negb].
    rewrite Hdata. cbn [deref list_head head fmap option_fmap option_map]. mrun'.
    erewrite bind_eq by (apply bzero_all_run; wsimpl; [exact Harc|lia|done]).
    wnorm. mrun'. reflexivity.
  - edestruct (dbuf_fill_done_freed_run) as (w2 & r' & Hrun & Hst & _ & _ & _ & Hhead & Ha' & Ht' & Hr');
      [..|exists w2, r'; split; [exact Hrun|]; by split_and!]; wsimpl; try done.
Qed.

End FreedInFlight.
(** The dbuf of [ranges_world] is being filled in transaction group 1
    and has written bytes 2 and 3; blocks 0 to 10 are freed in group
    2, and the filler finishes. *)
Lemma dbuf_free_range_defers_to_filler_witness :
  ∃ w1 w2,
    dbuf_free_range 0 10 (mk_tx 2) (ranges_world [mk_range 2 4 2]) = Ok tt w1
    ∧ db_freed_in_flight (w_db w1) = true
    ∧ dbuf_fill_done (mk_tx 1) w1 = Ok tt w2
    ∧ db_state (w_db w2) = DB_CACHED
    ∧ db_freed_in_flight (w_db w2) = false
    ∧ b_data <$> w_arc w2 !! 1%nat = Some (replicate 8 Byte.x00).
Proof.
  destruct (dbuf_free_range_defers_to_filler (ranges_world [mk_range 2 4 2]) 0 10
              (mk_tx 2) (mk_tx 1) (example_dr [mk_range 2 4 2]) 1
              (mk_arc_buf (replicate 8 Byte.xcc) true))
    as (w1 & w2 & r' & Hfree & Hw1 & Hfill & Hst & Hfif & _ & Harc & _).
  - reflexivity.
  - vm_compute. discriminate.
  - reflexivity.
  - constructor; [|constructor]. cbn. lia.
  - reflexivity.
  - reflexivity.
  - reflexivity.
  - reflexivity.
  - exists w1, w2. split_and!; try done.
    + by rewrite Hw1.
    + by rewrite Harc.
Defined.

(** The dbuf of [ranges_world] is being filled in transaction group 1;
    blocks 0 to 10 are freed in the same group 1, and the filler
    finishes: its dirty record is gone and [dbuf_fill_done] faults. *)
Lemma dbuf_free_range_undirties_filler_witness :
  ∃ w1,
    dbuf_free_range 0 10 (mk_tx 1) (ranges_world [mk_range 2 4 2]) = Ok tt w1
    ∧ db_dirty_records (w_db w1) = []
    ∧ db_freed_in_flight (w_db w1) = true
    ∧ dbuf_fill_done (mk_tx 1) w1 = Err (EFAULT "dbuf_dirty_record_t").
Proof.
  destruct (dbuf_free_range_undirties_filler (ranges_world [mk_range 2 4 2]) 0 10
              (mk_tx 1) (example_dr [mk_range 2 4 2]) [] 1
              (mk_arc_buf (replicate 8 Byte.xcc) true))
    as (w1 & Hfree & Hl & _ & _ & Hflag & _ & _ & Hfault).
  - reflexivity.
  - vm_compute. discriminate.
  - reflexivity.
  - reflexivity.
  - reflexivity.
  - constructor.
  - reflexivity.
  - reflexivity.
  - cbn. lia.
  - reflexivity.
  - reflexivity.
  - reflexivity.
  - exists w1. split; [exact Hfree|]. split; [exact Hl|]. split; [exact Hflag|].
    exact Hfault.
Defined.

(** The same from an uncached dbuf: a filler dirties the first four
    bytes in transaction group 1, which leaves the dbuf in
    [DB_PARTIAL|DB_FILL]; the block is freed in that group; the
    filler ends. *)
Lemma dbuf_free_range_same_txg_trace :
  ∃ p w1 w2,
    dbuf_dirty_leaf (mk_tx 1) 0 4 uncached_world = Ok p w1
    ∧ db_state (w_db w1) = Z.lor DB_PARTIAL DB_FILL
    ∧ dr_txg <$> db_dirty_records (w_db w1) = [1]
    ∧ dbuf_free_range 0 10 (mk_tx 1) w1 = Ok tt w2
    ∧ db_dirty_records (w_db w2) = []
    ∧ db_freed_in_flight (w_db w2) = true
    ∧ dbuf_fill_done (mk_tx 1) w2 = Err (EFAULT "dbuf_dirty_record_t").
Proof.
  eexists _, _, _. split; [vm_compute; reflexivity|].
  split; [reflexivity|]. split; [reflexivity|].
  split; [vm_compute; reflexivity|]. split; [reflexivity|]. split; [reflexivity|].
  vm_compute. reflexivity.
Qed.

(** ** The resolve of a read *)

Section Merge.
Context `{hdr : dbuf_headers}.

Lemma covered_b_spec (l : list dbuf_dirty_range_t) (i : Z) :
  covered_b l i = true ↔ covered l i.
Proof.
  unfold covered_b, covered, range_covers. rewrite existsb_exists, Exists_exists.
  split; intros (r & Hr & Hc); exists r.
  - apply list_elem_of_In in Hr. split; [done|]. lia.
  - apply list_elem_of_In in Hr. split; [done|]. lia.
Qed.

(** One hole copied: the bytes from [hs] up to [e] come from [src]. *)
Lemma copy_hole_lookup (dst src bytes : list Byte.byte) (hs n : Z) (i : nat) :
  0 ≤ hs → 0 ≤ n →
  hs + n ≤ Z.of_nat (length dst) → hs + n ≤ Z.of_nat (length src) →
  copy_bytes dst hs src hs n = Some bytes →
  bytes !! i = if decide (hs ≤ Z.of_nat i < hs + n) then src !! i else dst !! i.
Proof.
  intros Hhs Hn Hd Hs Hc. rewrite copy_bytes_Some in Hc by lia. injection Hc as <-.
  destruct (decide (hs ≤ Z.of_nat i < hs + n)) as [Hin|Hout].
  - rewrite lookup_app_r by (rewrite length_take; lia).
    rewrite length_take, lookup_app_l
      by (rewrite length_take, length_drop; lia).
    rewrite lookup_take_lt by lia. rewrite lookup_drop. f_equal. lia.
  - destruct (decide (Z.of_nat i < hs)).
    + rewrite lookup_app_l by (rewrite length_take; lia). apply lookup_take_lt. lia.
    + rewrite lookup_app_r by (rewrite length_take; lia).
      rewrite length_take, lookup_app_r
        by (rewrite length_take, length_drop; lia).
      rewrite length_take, length_drop, lookup_drop. f_equal. lia.
Qed.


Lemma set_w_arc_twice (m1 m2 : gmap nat arc_buf_t) (w : world) :
  set_w_arc m2 (set_w_arc m1 w) = set_w_arc m2 w.
Proof. by destruct w. Qed.

Lemma set_w_arc_id (w : world) : set_w_arc (w_arc w) w = w.
Proof. by destruct w. Qed.

Lemma set_b_data_twice (x y : list Byte.byte) (a : arc_buf_t) :
  set_b_data y (set_b_data x a) = set_b_data y a.
Proof. done. Qed.

Lemma set_b_data_id (a : arc_buf_t) : set_b_data (b_data a) a = a.
Proof. by destruct a. Qed.

Lemma MIN_spec (a b : Z) : MIN a b = Z.min a b.
Proof. unfold MIN. destruct (Z.ltb_spec a b); lia. Qed.

(** The loop of [dbuf_merge_write_ranges], started at [hs] with the
    ranges [rs] still ahead: the bytes from [hs] on that no range
    covers are copied from the older buffer. *)
Lemma merge_write_ranges_loop_run (rs : list dbuf_dirty_range_t) :
  ∀ (fuel : nat) (hs M : Z) (w : world) (a s d : nat) (r : dbuf_dirty_record_t)
    (sa da : arc_buf_t) (h0 : dbuf_dirty_record_hole_t),
    find_dr a w = Some r → dr_data r = Some d →
    w_arc w !! s = Some sa → w_arc w !! d = Some da → s ≠ d →
    Forall range_wf rs → gapped rs →
    match rs with g :: _ => hs ≤ rg_start g | [] => True end →
    Forall (fun g => rg_end g ≤ M) rs →
    0 ≤ hs → M ≤ INT_MAX →
    M ≤ Z.of_nat (length (b_data sa)) → M ≤ Z.of_nat (length (b_data da)) →
    (length rs + 2 ≤ fuel)%nat →
    ∃ bytes,
      merge_write_ranges_loop fuel (mk_itr (Some s) (Some a) rs M hs h0) w
      = Ok tt (set_w_arc (<[d := set_b_data bytes da]> (w_arc w)) w)
      ∧ length bytes = length (b_data da)
      ∧ ∀ i : nat,
          bytes !! i
          = if decide (hs ≤ Z.of_nat i < M ∧ ¬ covered rs (Z.of_nat i))
            then b_data sa !! i else b_data da !! i.
Proof.
  induction rs as [|g rs IH];
    intros fuel hs M w a s d r sa da h0 Hfind Hdata Hs Hd Hsd Hwf Hgap Hfirst Hend
      Hhs HM Hlens Hlend Hfuel.
  - destruct fuel as [|fuel]; [cbn in Hfuel; lia|].
    destruct (Z.leb_spec M hs) as [Hge|Hlt].
    + exists (b_data da).
      cbn [merge_write_ranges_loop]. unfold dbuf_dirty_record_hole_itr_next.
      cbn [hole_start max_offset itr_src itr_dl itr_range].
      rewrite Z.geb_leb, (proj2 (Z.leb_le _ _) Hge).
      rewrite bind_ret. cbn [fst]. split_and!.
      * unfold skip, ret. rewrite set_b_data_id, insert_id by done.
        by rewrite set_w_arc_id.
      * done.
      * intros i. case_decide; [lia|done].
    + destruct (copy_bytes (b_data da) hs (b_data sa) hs (M - hs)) as [bytes|] eqn:Hc;
        [|rewrite copy_bytes_Some in Hc by lia; done].
      exists bytes.
      cbn [merge_write_ranges_loop]. unfold dbuf_dirty_record_hole_itr_next at 1.
      cbn [hole_start max_offset itr_src itr_dl itr_range].
      rewrite Z.geb_leb, (proj2 (Z.leb_gt _ _) Hlt).
      cbn [deref]. rewrite bind_assoc, bind_ret, bind_assoc.
      rewrite (bind_eq _ _ _ _ _ (get_dr_run a w r Hfind)).
      rewrite Hdata. cbn [deref]. rewrite bind_assoc, !bind_ret.
      cbn [fst snd hole_dst hole_src hole_size].
      rewrite wrap_int_small by (unfold INT_MAX in HM; lia).
      cbn [deref]. rewrite !bind_ret.
      rewrite (bind_eq _ _ _ _ _ (memcpy_run d s hs hs (M - hs) da sa bytes w Hs Hd Hc)).
      destruct fuel as [|fuel]; [cbn in Hfuel; lia|].
      cbn [merge_write_ranges_loop]. unfold dbuf_dirty_record_hole_itr_next.
      cbn [hole_start max_offset itr_src itr_dl itr_range].
      rewrite Z.geb_leb, Z.leb_refl, bind_ret. cbn [fst].
      split_and!.
      * done.
      * by eapply copy_bytes_length.
      * intros i. rewrite (copy_hole_lookup (b_data da) (b_data sa) bytes hs (M - hs) i) by (first [lia|exact Hc]).
        pose proof (covered_nil (Z.of_nat i)) as Hnil.
        repeat case_decide; try done; exfalso.
        -- match goal with H : ¬ (_ ∧ ¬ _) |- _ => apply H end. split; [lia|tauto].
        -- match goal with H : _ ∧ ¬ _ |- _ => destruct H end. lia.
  - destruct fuel as [|fuel]; [cbn in Hfuel; lia|].
    apply Forall_cons in Hwf as [Hg Hwf]. apply Forall_cons in Hend as [Hge Hend].
    destruct Hg as (Hg0 & Hg1 & Hg2 & Hg3).
    destruct (Z.leb_spec M hs) as [Hge'|Hlt].
    + exists (b_data da).
      cbn [merge_write_ranges_loop]. unfold dbuf_dirty_record_hole_itr_next.
      cbn [hole_start max_offset itr_src itr_dl itr_range].
      rewrite Z.geb_leb, (proj2 (Z.leb_le _ _) Hge').
      rewrite bind_ret. cbn [fst]. split_and!.
      * unfold skip, ret. rewrite set_b_data_id, insert_id by done.
        by rewrite set_w_arc_id.
      * done.
      * intros i. case_decide; [lia|done].
    + destruct (copy_bytes (b_data da) hs (b_data sa) hs (Z.min M (rg_start g) - hs))
        as [bytes|] eqn:Hc;
        [|rewrite copy_bytes_Some in Hc by lia; done].
      pose proof (copy_bytes_length _ _ _ _ _ _ Hc) as Hlen.
      cbn [gapped] in Hgap. destruct Hgap as [Hnext Hgap].
      edestruct (IH fuel (rg_end g) M
                   (set_w_arc (<[d := set_b_data bytes da]> (w_arc w)) w)
                   a s d r sa (set_b_data bytes da))
        as (bytes' & Hrun & Hlen' & Hbytes').
      { exact Hfind. } { exact Hdata. }
      { cbn. by rewrite lookup_insert_ne. }
      { cbn. by rewrite lookup_insert_eq. }
      { exact Hsd. } { exact Hwf. } { exact Hgap. }
      { destruct rs; [done|lia]. } { exact Hend. } { lia. } { exact HM. }
      { exact Hlens. } { cbn. lia. } { cbn in Hfuel |- *. lia. }
      exists bytes'.
      cbn [merge_write_ranges_loop]. unfold dbuf_dirty_record_hole_itr_next at 1.
      cbn [hole_start max_offset itr_src itr_dl itr_range].
      rewrite Z.geb_leb, (proj2 (Z.leb_gt _ _) Hlt).
      cbn [deref]. rewrite bind_assoc, bind_ret, bind_assoc.
      rewrite (bind_eq _ _ _ _ _ (get_dr_run a w r Hfind)).
      rewrite Hdata. cbn [deref]. rewrite bind_assoc, !bind_ret.
      cbn [fst snd hole_dst hole_src hole_size].
      rewrite MIN_spec.
      rewrite wrap_int_small by (unfold INT_MAX in HM; lia).
      cbn [deref]. rewrite !bind_ret.
      rewrite (bind_eq _ _ _ _ _ (memcpy_run d s hs hs _ da sa bytes w Hs Hd Hc)).
      rewrite Hrun. split_and!.
      * cbn. rewrite insert_insert_eq. by destruct w.
      * by rewrite Hlen'.
      * intros i. rewrite Hbytes'. cbn [b_data set_b_data].
        rewrite (copy_hole_lookup (b_data da) (b_data sa) bytes hs (Z.min M (rg_start g) - hs) i) by (first [lia|exact Hc]).
        assert (Forall (fun x => rg_end g < rg_start x) rs) as Hall.
        { clear -Hnext Hgap Hwf. revert g Hnext. induction rs as [|x rs IHrs]; [done|].
          intros g Hnext. apply Forall_cons in Hwf as [Hx Hwf]. cbn [gapped] in Hgap.
          destruct Hgap as [Hn Hgap]. constructor; [done|].
          destruct Hx as (? & ? & ? & ?).
          eapply Forall_impl; [apply (IHrs Hwf Hgap x Hn)|]. cbn. intros; lia. }
        assert (∀ j, covered rs j → rg_end g < j) as Hcov.
        { intros j Hj. unfold covered in Hj. rewrite Exists_exists in Hj.
          destruct Hj as (x & Hx & Hc'). rewrite Forall_forall in Hall.
          specialize (Hall x Hx). unfold range_covers in Hc'. lia. }
        pose proof (covered_cons g rs (Z.of_nat i)) as Hcc. unfold range_covers in Hcc.
        destruct (decide (covered rs (Z.of_nat i))) as [Hc'|Hc'].
        { pose proof (Hcov _ Hc') as Hpast.
          assert (covered (g :: rs) (Z.of_nat i)) as Hx by tauto.
          clear -Hx Hc' Hg0 Hg1 Hfirst Hge Hhs Hlt Hpast.
          repeat case_decide; try done; exfalso; try tauto; try lia. }
        assert (covered (g :: rs) (Z.of_nat i)
                ↔ rg_start g ≤ Z.of_nat i < rg_end g) as Hx by tauto.
        clear -Hx Hc' Hg0 Hg1 Hfirst Hge Hhs Hlt.
        repeat case_decide; try done; exfalso; rewrite Hx in *;
          repeat match goal with
                 | H : ¬ (?A ∧ ¬ covered rs _) |- _ => assert (¬ A) by tauto; clear H
                 | H : _ ∧ ¬ covered rs _ |- _ => destruct H as [H _]
                 end; lia.
Qed.


Lemma arc_buf_size_run (b : nat) (a : arc_buf_t) (w : world) :
  w_arc w !! b = Some a → arc_buf_size b w = Ok (Z.of_nat (length (b_data a))) w.
Proof. intros H. unfold arc_buf_size, bind. by rewrite (arc_buf_get_run b a w H). Qed.

Lemma inverse_merge_length (rs : list dbuf_dirty_range_t) (old new : list Byte.byte) :
  length (inverse_merge rs old new) = length new.
Proof. unfold inverse_merge. apply length_imap. Qed.

Lemma inverse_merge_lookup (rs : list dbuf_dirty_range_t) (old new : list Byte.byte)
    (i : nat) :
  length old = length new →
  inverse_merge rs old new !! i
  = if decide (covered rs (Z.of_nat i)) then new !! i else old !! i.
Proof.
  intros Hlen. unfold inverse_merge. rewrite list_lookup_imap.
  destruct (new !! i) as [x|] eqn:Hnew; cbn.
  - apply lookup_lt_Some in Hnew as Hi.
    destruct (lookup_lt_is_Some_2 old i ltac:(lia)) as [y Hy]. rewrite Hy. cbn.
    destruct (covered_b rs (Z.of_nat i)) eqn:E; case_decide; try done.
    + apply covered_b_spec in E. done.
    + apply covered_b_spec in H. congruence.
  - apply lookup_ge_None in Hnew. case_decide; [done|].
    symmetry. apply lookup_ge_None. lia.
Qed.

(** [dbuf_merge_write_ranges] on a record with its buffer [d], from the
    older buffer [s] of the same size. *)
Lemma dbuf_merge_write_ranges_run (w : world) (a s d : nat) (r : dbuf_dirty_record_t)
    (sa da : arc_buf_t) (N : Z) :
  find_dr a w = Some r → dr_data r = Some d →
  w_arc w !! s = Some sa → w_arc w !! d = Some da → s ≠ d →
  ranges_inv (write_ranges r) → Forall (fun g => rg_end g ≤ N) (write_ranges r) →
  Z.of_nat (length (b_data sa)) = N → Z.of_nat (length (b_data da)) = N →
  N ≤ INT_MAX →
  dbuf_merge_write_ranges (Some a) (Some s) w
  = Ok tt (set_w_arc
             (<[d := set_b_data (merged (write_ranges r) (b_data sa) (b_data da)) da]>
                (w_arc w)) w).
Proof.
  intros Hfind Hdata Hs Hd Hsd [Hwf Hchk] Hend Hlens Hlend HN.
  apply check_ranges_gapped in Hchk.
  unfold dbuf_merge_write_ranges.
  rewrite (bind_eq _ _ _ _ _ (get_dr_run a w r Hfind)).
  destruct (write_ranges r) as [|g rs] eqn:Hrs.
  - rewrite bool_decide_eq_true_2 by done. cbn [merged].
    unfold skip, ret. by rewrite set_b_data_id, insert_id, set_w_arc_id.
  - rewrite bool_decide_eq_false_2 by done.
    unfold dbuf_dirty_record_hole_itr_init. cbn [deref].
    rewrite bind_assoc, bind_ret, bind_assoc.
    rewrite (bind_eq _ _ _ _ _ (arc_buf_size_run s sa w Hs)), bind_assoc.
    rewrite (bind_eq _ _ _ _ _ (get_dr_run a w r Hfind)).
    rewrite Hdata. cbn [deref]. rewrite bind_assoc, bind_ret, bind_assoc.
    rewrite (bind_eq _ _ _ _ _ (arc_buf_size_run d da w Hd)).
    rewrite Hlens, Hlend, Hrs, MIN_spec, Z.min_id.
    assert (0 ≤ N) as HN0 by lia.
    rewrite wrap_int_small by (unfold INT_MAX in HN; lia).
    pose proof Hwf as Hwf'. apply Forall_cons in Hwf' as [(Hg0 & Hg1 & Hg2 & Hg3) Hwfrs].
    pose proof (gapped_cons_Forall g rs Hwfrs Hchk) as Hall.
    assert (∀ j, covered rs j → rg_end g < j) as Hcov.
    { intros j Hj. unfold covered in Hj. rewrite Exists_exists in Hj.
      destruct Hj as (x & Hx & Hc'). rewrite Forall_forall in Hall.
      specialize (Hall x Hx). unfold range_covers in Hc'. lia. }
    cbn [merged].
    destruct (Z.eqb_spec (rg_start g) 0) as [H0|H0].
    + rewrite bind_ret.
      edestruct (merge_write_ranges_loop_run rs (2 + length (g :: rs)) (rg_size g) N
                   w a s d r sa da (mk_hole None None 0))
        as (bytes & Hrun & Hlen & Hbytes); try eassumption.
      { cbn [gapped] in Hchk. tauto. }
      { destruct rs as [|g' rs]; [done|]. cbn [gapped] in Hchk. lia. }
      { by apply Forall_cons in Hend as [_ ?]. }
      { lia. } { lia. } { lia. } { cbn. lia. }
      rewrite Hrun. do 3 f_equal. f_equal.
      apply list_eq. intros i. rewrite Hbytes, inverse_merge_lookup by lia.
      pose proof (covered_cons g rs (Z.of_nat i)) as Hcc. unfold range_covers in Hcc.
      destruct (decide (Z.of_nat i < N)) as [Hi|Hi];
        [|rewrite !(proj2 (lookup_ge_None _ _)) by lia; by repeat case_decide].
      destruct (decide (covered rs (Z.of_nat i))) as [Hc'|Hc'].
      * pose proof (Hcov _ Hc').
        assert (covered (g :: rs) (Z.of_nat i)) as Hx by tauto.
        repeat case_decide; try done; exfalso; tauto.
      * assert (covered (g :: rs) (Z.of_nat i)
                ↔ rg_start g ≤ Z.of_nat i < rg_end g) as Hx by tauto.
        clear Hcc.
        repeat case_decide; try done; exfalso; rewrite Hx in *;
          repeat match goal with
                 | H : ¬ (?A ∧ ¬ covered rs _) |- _ => assert (¬ A) by tauto; clear H
                 | H : _ ∧ ¬ covered rs _ |- _ => destruct H as [H _]
                 end; lia.
    + rewrite bind_ret.
      edestruct (merge_write_ranges_loop_run (g :: rs) (2 + length (g :: rs)) 0 N
                   w a s d r sa da (mk_hole None None 0))
        as (bytes & Hrun & Hlen & Hbytes); try eassumption.
      { lia. } { lia. } { lia. } { lia. }
      rewrite Hrun. do 3 f_equal. f_equal.
      apply list_eq. intros i. rewrite Hbytes, inverse_merge_lookup by lia.
      destruct (decide (Z.of_nat i < N)) as [Hi|Hi];
        [|rewrite !(proj2 (lookup_ge_None _ _)) by lia; by repeat case_decide].
      repeat case_decide; try done; exfalso; try tauto.
      match goal with H : ¬ (_ ∧ ¬ covered _ _) |- _ => apply H end.
      split; [lia|done].
Qed.


Lemma merged_length (rs : list dbuf_dirty_range_t) (old new : list Byte.byte) :
  length (merged rs old new) = length new.
Proof. destruct rs; [done|apply inverse_merge_length]. Qed.

Lemma update_dr_middle (a : nat) (f : dbuf_dirty_record_t → dbuf_dirty_record_t)
    (l1 l2 : list dbuf_dirty_record_t) (r : dbuf_dirty_record_t) :
  dr_addr r = a →
  Forall (fun x => dr_addr x ≠ a) l1 → Forall (fun x => dr_addr x ≠ a) l2 →
  update_dr a f (l1 ++ r :: l2) = l1 ++ f r :: l2.
Proof.
  intros Ha H1 H2. rewrite update_dr_app, (update_dr_absent a f l1 H1).
  f_equal. unfold update_dr. cbn [List.map]. fold (update_dr a f l2).
  rewrite (update_dr_absent a f l2 H2). unfold dr_has_addr.
  by rewrite Ha, Nat.eqb_refl.
Qed.

Lemma find_dr_middle (w : world) (l1 l2 : list dbuf_dirty_record_t)
    (r : dbuf_dirty_record_t) :
  db_dirty_records (w_db w) = l1 ++ r :: l2 →
  Forall (fun x => dr_addr x ≠ dr_addr r) l1 →
  find_dr (dr_addr r) w = Some r.
Proof.
  intros Hl H1. unfold find_dr. rewrite Hl, <- app_assoc, find_dr_app.
  rewrite (find_absent _ _ H1). cbn. unfold dr_has_addr. by rewrite Nat.eqb_refl.
Qed.

Lemma NoDup_addr_middle (l1 l2 : list dbuf_dirty_record_t) (r : dbuf_dirty_record_t) :
  NoDup (dr_addr <$> (l1 ++ r :: l2)) →
  Forall (fun x => dr_addr x ≠ dr_addr r) l1
  ∧ Forall (fun x => dr_addr x ≠ dr_addr r) l2.
Proof.
  rewrite fmap_app, fmap_cons. intros Hnd.
  apply NoDup_app in Hnd as (_ & Hdis & Hnd2). apply NoDup_cons in Hnd2 as [Hr _].
  split; apply Forall_forall; intros x Hx Heq.
  - apply (Hdis (dr_addr x)); [by apply list_elem_of_fmap_2|]. rewrite Heq. by left.
  - apply Hr. rewrite <- Heq. by apply list_elem_of_fmap_2.
Qed.

(** The loop of [dbuf_resolve_ranges] over the records [todo], oldest
    first, that are the tail of the list of dirty records: their
    buffers are merged one from the other, their ranges dropped. *)
Lemma resolve_ranges_loop_run (N : Z) (todo : list dbuf_dirty_record_t) :
  ∀ (w : world) (done : list dbuf_dirty_record_t) (ob : nat) (oa : arc_buf_t),
    db_level (w_db w) = 0 →
    db_dirty_records (w_db w) = rev todo ++ done →
    NoDup (dr_addr <$> (rev todo ++ done ++ w_kmem w)) →
    Forall (dr_resolvable (w_arc w) N) todo →
    NoDup (dr_data <$> todo) → Some ob ∉ dr_data <$> todo →
    w_arc w !! ob = Some oa → Z.of_nat (length (b_data oa)) = N →
    N ≤ INT_MAX →
    ∃ evs,
      resolve_ranges_loop (dr_addr <$> todo) (Some ob) w
      = Ok tt (set_w_log (evs ++ w_log w)
                 (set_w_arc (resolve_arc (b_data oa) todo (w_arc w))
                    (set_w_db (set_db_dirty_records
                                 (rev (set_write_ranges [] <$> todo) ++ done)
                                 (w_db w)) w)))
      ∧ Forall is_freeze evs.
Proof.
  induction todo as [|r rest IH];
    intros w done ob oa Hlev Hl Hnd Hres Hndd Hob Harc Hlen HN.
  - exists []. split; [|constructor]. cbn. unfold skip, ret. f_equal.
    cbn in Hl. rewrite <- Hl. destruct w as [db ? ? ? ? ? ? ? ?]. by destruct db.
  - apply Forall_cons in Hres as [Hr Hres].
    destruct Hr as ((b & a & Hdata & Hb & Hblen) & Hinv & Hend).
    rewrite fmap_cons in Hndd, Hob. apply NoDup_cons in Hndd as [Hbrest Hndd].
    assert (ob ≠ b) as Hobb.
    { intros ->. apply Hob. rewrite Hdata. by left. }
    assert (Some ob ∉ dr_data <$> rest) as Hob'.
    { intros Hin. apply Hob. by right. }
    cbn [rev] in Hl, Hnd. rewrite <- !app_assoc in Hl, Hnd. cbn [app] in Hl, Hnd.
    pose proof (NoDup_addr_middle _ _ _ Hnd) as [Hn1 Hn2].
    apply Forall_app in Hn2 as [Hn2 Hn3].
    pose proof (find_dr_middle w _ _ r Hl Hn1) as Hfind.
    set (bytes := merged (write_ranges r) (b_data oa) (b_data a)).
    set (w1 := set_w_arc (<[b := set_b_data bytes a]> (w_arc w)) w).
    set (evs1 := if negb (ptr_eqb (Some b) (db_buf (w_db w)))
                    || (Z.land (db_state (w_db w)) DB_FILL =? 0)
                 then [EvArcBufFreeze b] else []).
    set (w2 := set_w_log (evs1 ++ w_log w)
                 (set_w_arc (<[b := set_b_data bytes a]> (w_arc w))
                    (set_w_db (set_db_dirty_records
                                 (rev rest ++ set_write_ranges [] r :: done)
                                 (w_db w)) w))).
    destruct (IH w2 (set_write_ranges [] r :: done) b (set_b_data bytes a))
      as (evs & Hrun & Hevs).
    { exact Hlev. }
    { reflexivity. }
    { subst w2. wsimpl. revert Hnd. rewrite !fmap_app, !fmap_cons, !fmap_app. cbn [app]. done. }
    { subst w2. wsimpl. apply Forall_forall. intros x Hx.
      rewrite Forall_forall in Hres.
      destruct (Hres x Hx) as ((b' & a' & Hd' & Hb' & Hl') & Hinv' & Hend').
      split; [|done]. exists b', a'. split_and!; [done| |done].
      rewrite lookup_insert_ne; [done|]. intros ->. apply Hbrest.
      rewrite Hdata, <- Hd'. by apply list_elem_of_fmap_2. }
    { exact Hndd. }
    { by rewrite <- Hdata. }
    { subst w2. wsimpl. by rewrite lookup_insert_eq. }
    { cbn [b_data set_b_data]. subst bytes. rewrite merged_length. exact Hblen. }
    { exact HN. }
    exists (evs ++ evs1). split.
    2:{ apply Forall_app. split; [done|]. subst evs1.
        destruct (_ || _); repeat constructor. by eexists. }
    rewrite fmap_cons. cbn [resolve_ranges_loop].
    rewrite (bind_eq _ _ _ _ _
               (dbuf_merge_write_ranges_run w _ ob b r oa a N Hfind Hdata Harc Hb Hobb
                  Hinv Hend Hlen Hblen HN)).
    fold bytes. fold w1.
    assert (find_dr (dr_addr r) w1 = Some r) as Hfind1 by exact Hfind.
    rewrite bind_get_db. rewrite (bind_eq _ _ _ _ _ (get_dr_run _ w1 r Hfind1)).
    rewrite Hdata.
    assert (when (negb (ptr_eqb (Some b) (db_buf (w_db w1)))
                  || (Z.land (db_state (w_db w1)) DB_FILL =? 0))
              (arc_buf_freeze (Some b)) w1
            = Ok tt (set_w_log (evs1 ++ w_log w) w1)) as Hfreeze.
    { subst evs1 w1. wsimpl. destruct (_ || _); cbn [when app].
      - reflexivity.
      - unfold skip, ret. by destruct w. }
    rewrite (bind_eq _ _ _ _ _ Hfreeze).
    unfold dbuf_dirty_record_cleanup_ranges.
    rewrite bind_assoc.
    assert (find_dr (dr_addr r) (set_w_log (evs1 ++ w_log w) w1) = Some r) as Hfind2
      by exact Hfind.
    rewrite (bind_eq _ _ _ _ _ (get_dr_run _ _ r Hfind2)).
    rewrite bind_assoc, bind_get_db.
    replace (db_level (w_db (set_w_log (evs1 ++ w_log w) w1))) with 0
      by (symmetry; exact Hlev).
    cbn [Z.eqb negb].
    rewrite (bind_eq _ _ _ _ _ (modify_dr_run _ _ _ r Hfind2)).
    assert (update_dr_world (dr_addr r) (set_write_ranges [])
              (set_w_log (evs1 ++ w_log w) w1) = w2) as ->.
    { subst w1 w2. unfold update_dr_world. wsimpl. rewrite Hl.
      rewrite (update_dr_middle _ _ _ _ r eq_refl Hn1 Hn2).
      rewrite (update_dr_absent _ _ _ Hn3).
      destruct w as [db ? ? ? ? ? ? ? ?]. by destruct db. }
    rewrite Hrun. subst w2. f_equal. wsimpl.
    cbn [resolve_arc fmap list_fmap rev]. rewrite Hdata, Hb. fold bytes.
    rewrite <- !app_assoc. cbn [app].
    destruct w as [db ? ? ? ? ? ? ? ?]. by destruct db.
Qed.



(** The resolve touches the buffers of the records only. *)
Lemma resolve_arc_frame (todo : list dbuf_dirty_record_t) :
  ∀ (old : list Byte.byte) (arc : gmap nat arc_buf_t) (k : nat),
    Some k ∉ dr_data <$> todo → resolve_arc old todo arc !! k = arc !! k.
Proof.
  induction todo as [|r rest IH]; intros old arc k Hk; [done|].
  rewrite fmap_cons in Hk. apply not_elem_of_cons in Hk as [Hkr Hk].
  cbn [resolve_arc]. destruct (dr_data r) as [b|]; [|done].
  destruct (arc !! b) as [a|] eqn:Hb; [|done].
  cbn zeta. rewrite IH by done. apply lookup_insert_ne. congruence.
Qed.

Lemma resolve_arc_dom (todo : list dbuf_dirty_record_t) :
  ∀ (old : list Byte.byte) (arc : gmap nat arc_buf_t) (k : nat),
    resolve_arc old todo arc !! k = None ↔ arc !! k = None.
Proof.
  induction todo as [|r rest IH]; intros old arc k; [done|].
  cbn [resolve_arc]. destruct (dr_data r) as [b|]; [|done].
  destruct (arc !! b) as [a|] eqn:Hb; [|done].
  cbn zeta. rewrite IH. destruct (decide (b = k)) as [->|Hne].
  - rewrite lookup_insert_eq, Hb. split; discriminate.
  - by rewrite lookup_insert_ne.
Qed.

(** The bytes of the records [l] do not depend on the other buffers. *)
Lemma resolved_bytes_ext (arc arc' : gmap nat arc_buf_t) (old : list Byte.byte)
    (l : list dbuf_dirty_record_t) :
  (∀ r, r ∈ l → bytes_of arc' (dr_data r) = bytes_of arc (dr_data r)) →
  resolved_bytes arc' old l = resolved_bytes arc old l.
Proof.
  induction l as [|r l IH]; intros H; [done|]. cbn [resolved_bytes].
  rewrite H by left. rewrite IH; [done|]. intros x Hx. apply H. by right.
Qed.

Lemma resolved_bytes_snoc (arc : gmap nat arc_buf_t) (old : list Byte.byte)
    (l : list dbuf_dirty_record_t) (x : dbuf_dirty_record_t) :
  resolved_bytes arc old (l ++ [x])
  = resolved_bytes arc (merged (write_ranges x) old (bytes_of arc (dr_data x))) l.
Proof. induction l as [|r l IH]; [done|]. cbn [app resolved_bytes]. by rewrite IH. Qed.

(** [resolve_arc] leaves in each buffer what [resolved_bytes] says. *)
Lemma resolve_arc_lookup (todo : list dbuf_dirty_record_t) :
  ∀ (old : list Byte.byte) (arc : gmap nat arc_buf_t)
    (older newer : list dbuf_dirty_record_t) (r : dbuf_dirty_record_t),
    NoDup (dr_data <$> todo) →
    Forall (fun x => ∃ b, dr_data x = Some b ∧ is_Some (arc !! b)) todo →
    todo = older ++ r :: newer →
    bytes_of (resolve_arc old todo arc) (dr_data r)
    = resolved_bytes arc old (r :: rev older).
Proof.
  induction todo as [|x rest IH]; intros old arc older newer r Hnd Hbufs Hsplit.
  { by destruct older. }
  apply Forall_cons in Hbufs as [(b & Hdata & [a Hb]) Hbufs].
  rewrite fmap_cons in Hnd. apply NoDup_cons in Hnd as [Hx Hnd].
  cbn [resolve_arc]. rewrite Hdata, Hb. cbn zeta.
  set (bytes := merged (write_ranges x) old (b_data a)).
  assert (∀ y, y ∈ rest →
               bytes_of (<[b := set_b_data bytes a]> arc) (dr_data y)
               = bytes_of arc (dr_data y)) as Hext.
  { intros y Hy. rewrite Forall_forall in Hbufs.
    destruct (Hbufs y Hy) as (b' & Hd' & _). rewrite Hd'. unfold bytes_of.
    rewrite lookup_insert_ne; [done|]. intros ->. apply Hx.
    rewrite Hdata, <- Hd'. by apply list_elem_of_fmap_2. }
  destruct older as [|y older]; cbn [app] in Hsplit; injection Hsplit as -> ->.
  - rewrite Hdata. unfold bytes_of at 1.
    rewrite resolve_arc_frame by (by rewrite <- Hdata).
    rewrite lookup_insert_eq. cbn [rev resolved_bytes b_data set_b_data].
    rewrite Hdata. unfold bytes_of. by rewrite Hb.
  - rewrite (IH bytes _ older newer r Hnd); [| |done].
    + cbn [rev]. rewrite app_comm_cons, resolved_bytes_snoc.
      rewrite (resolved_bytes_ext arc).
      * rewrite Hdata. unfold bytes_of. by rewrite Hb.
      * intros z Hz. apply Hext. apply elem_of_cons in Hz as [->|Hz].
        -- apply elem_of_app. right. by left.
        -- apply elem_of_app. left. apply list_elem_of_In, in_rev.
           by apply list_elem_of_In.
    + eapply Forall_impl; [exact Hbufs|]. cbn. intros z (b' & Hd' & Hsome).
      exists b'. split; [done|]. destruct (decide (b = b')) as [->|Hne].
      * by rewrite lookup_insert_eq.
      * by rewrite lookup_insert_ne.
Qed.

End Merge.

Section Resolve.
Context `{hdr : dbuf_headers}.

(** [dbuf_syncer_split] after a resolve: when the record the syncer
    writes shares the frontend and the dbuf has other holders, the
    frontend moves to a copy in a new buffer. *)
Lemma dbuf_syncer_split_run (w : world) :
  0 ≤ db_size (w_db w) →
  db_data (w_db w) = db_buf (w_db w) →
  (∀ p, db_data_pending (w_db w) = Some p →
        ∃ r, find_dr p w = Some r
             ∧ (dr_data r = db_buf (w_db w) →
                ∃ d da, dr_data r = Some d ∧ (d < w_brk w)%nat
                        ∧ w_arc w !! d = Some da
                        ∧ Z.of_nat (length (b_data da)) = db_size (w_db w))) →
  ∃ arc' brk' buf',
    dbuf_syncer_split (db_data_pending (w_db w)) true w
    = Ok tt (set_w_brk brk'
               (set_w_arc arc'
                  (set_w_db (set_db_data buf' (set_db_buf buf' (w_db w))) w)))
    ∧ ∀ k, (k < w_brk w)%nat → arc' !! k = w_arc w !! k.
Proof.
  intros Hsize Hdb Hpend.
  assert (Ok tt w = Ok tt (set_w_brk (w_brk w)
               (set_w_arc (w_arc w)
                  (set_w_db (set_db_data (db_buf (w_db w))
                               (set_db_buf (db_buf (w_db w)) (w_db w))) w)))) as Hskip.
  { rewrite <- Hdb at 1. destruct w as [db ? ? ? ? ? ? ? ?]. by destruct db. }
  unfold dbuf_syncer_split. rewrite bind_get_db.
  destruct (db_data_pending (w_db w)) as [p|] eqn:Hp.
  2:{ rewrite ptr_eqb_refl. cbn [negb andb]. unfold skip, ret. eauto. }
  rewrite ptr_eqb_Some_None. cbn [negb andb].
  destruct ((Z.land (db_state (w_db w)) DB_NOFILL =? 0) && (1 <? db_holds (w_db w)));
    [|unfold skip, ret; eauto].
  destruct (Hpend p eq_refl) as (r & Hfind & Hsplit).
  rewrite (bind_eq _ _ _ _ _ (get_dr_run p w r Hfind)).
  unfold ptr_eqb. case_bool_decide as Heq; [|unfold skip, ret; eauto].
  destruct (Hsplit Heq) as (d & da & Hdata & Hd & Hda & Hlen).
  unfold dbuf_alloc_arcbuf. rewrite bind_assoc, bind_get_db.
  unfold arc_buf_alloc at 1.
  set (nb := mk_arc_buf (replicate (Z.to_nat (db_size (w_db w))) (env_uninit (w_env w))) true).
  set (w1 := set_w_brk (S (w_brk w)) (set_w_arc (<[w_brk w := nb]> (w_arc w)) w)).
  change (bind _ _ w) with
    (bind (deref "db.db_data" (db_data (w_db w)))
       (fun data => bcopy (data, 0) (w_brk w, 0) (db_size (w_db w)) ;;
                    dbuf_set_data (Some (w_brk w))) w1).
  rewrite Hdb, <- Heq, Hdata. cbn [deref]. rewrite bind_ret. unfold bcopy.
  assert (w_arc w1 !! d = Some da) as Hd1.
  { subst w1. wsimpl. rewrite lookup_insert_ne by lia. done. }
  assert (w_arc w1 !! w_brk w = Some nb) as Hb1.
  { subst w1. wsimpl. by rewrite lookup_insert_eq. }
  erewrite bind_eq.
  2:{ eapply (memcpy_run _ _ _ _ _ nb da _ w1 Hd1 Hb1).
      apply copy_bytes_Some; subst nb; cbn [b_data]; rewrite ?length_replicate; lia. }
  erewrite dbuf_set_data_run.
  2:{ wsimpl. by rewrite lookup_insert_eq. }
  subst nb. wsimpl.
  eexists (<[w_brk w := _]> (<[w_brk w := _]> (w_arc w))), (S (w_brk w)), (Some (w_brk w)).
  split.
  - subst w1. wsimpl. destruct w as [db ? ? ? ? ? ? ? ?]. destruct db. reflexivity.
  - intros k Hk. subst w1. wsimpl. rewrite !lookup_insert_ne by lia. done.
Qed.


Lemma fmap_rev {A B} (f : A → B) (l : list A) : f <$> rev l = rev (f <$> l).
Proof. induction l as [|x l IH]; [done|]. cbn [rev]. by rewrite fmap_app, IH. Qed.

Lemma elem_of_rev {A} (x : A) (l : list A) : x ∈ rev l ↔ x ∈ l.
Proof. rewrite !list_elem_of_In. symmetry. apply in_rev. Qed.

Lemma resolve_arc_length (todo : list dbuf_dirty_record_t) :
  ∀ (old : list Byte.byte) (arc : gmap nat arc_buf_t) (k : nat) (a : arc_buf_t),
    arc !! k = Some a →
    ∃ a', resolve_arc old todo arc !! k = Some a'
          ∧ length (b_data a') = length (b_data a).
Proof.
  induction todo as [|r rest IH]; intros old arc k a Hk; [by exists a|].
  cbn [resolve_arc]. destruct (dr_data r) as [b|]; [|by exists a].
  destruct (arc !! b) as [ab|] eqn:Hb; [|by exists a]. cbn zeta.
  destruct (decide (b = k)) as [->|Hne].
  - edestruct (IH (merged (write_ranges r) old (b_data ab))
                 (<[k := set_b_data (merged (write_ranges r) old (b_data ab)) ab]> arc)
                 k) as (a' & Ha' & Hlen); [by rewrite lookup_insert_eq|].
    exists a'. split; [done|]. rewrite Hlen. cbn [b_data set_b_data].
    rewrite merged_length. congruence.
  - apply IH. by rewrite lookup_insert_ne.
Qed.

Lemma find_dr_fmap (f : dbuf_dirty_record_t → dbuf_dirty_record_t) (a : nat)
    (l : list dbuf_dirty_record_t) :
  (∀ r, dr_addr (f r) = dr_addr r) →
  List.find (dr_has_addr a) (f <$> l) = f <$> List.find (dr_has_addr a) l.
Proof.
  intros Hf. induction l as [|x l IH]; [done|]. cbn.
  unfold dr_has_addr at 1. rewrite Hf. fold (dr_has_addr a x).
  destruct (dr_has_addr a x); [done|exact IH].
Qed.

Lemma find_elem (a : nat) (l : list dbuf_dirty_record_t) :
  a ∈ dr_addr <$> l →
  ∃ r, List.find (dr_has_addr a) l = Some r ∧ r ∈ l ∧ dr_addr r = a.
Proof.
  induction l as [|x l IH]; [by intros ?%elem_of_nil|].
  rewrite fmap_cons. cbn. unfold dr_has_addr at 1.
  destruct (Nat.eqb_spec (dr_addr x) a) as [Heq|Hne].
  - intros _. exists x. split_and!; [done|by left|done].
  - intros [?|Hin]%elem_of_cons; [congruence|].
    destruct (IH Hin) as (r & ? & ? & ?). exists r. split_and!; [done|by right|done].
Qed.

(** [dbuf_resolve_ranges] with the buffer [b0] that was read: the
    ranges of all dirty records are dropped, and their buffers hold
    what [resolved_bytes] says. *)
Lemma dbuf_resolve_ranges_run (w : world) (b0 : nat) (a0 : arc_buf_t) :
  db_level (w_db w) = 0 →
  NoDup (dr_addr <$> (db_dirty_records (w_db w) ++ w_kmem w)) →
  Forall (dr_resolvable (w_arc w) (db_size (w_db w))) (db_dirty_records (w_db w)) →
  Forall (fun r => ∀ b, dr_data r = Some b → (b < w_brk w)%nat)
         (db_dirty_records (w_db w)) →
  NoDup (dr_data <$> db_dirty_records (w_db w)) →
  Some b0 ∉ dr_data <$> db_dirty_records (w_db w) →
  w_arc w !! b0 = Some a0 →
  Z.of_nat (length (b_data a0)) = db_size (w_db w) →
  db_size (w_db w) ≤ INT_MAX →
  db_data (w_db w) = db_buf (w_db w) →
  (∀ p, db_data_pending (w_db w) = Some p →
        p ∈ dr_addr <$> db_dirty_records (w_db w)) →
  ∃ evs arc' brk' buf',
    dbuf_resolve_ranges (Some b0) w
    = Ok tt (set_w_brk brk'
               (set_w_log (evs ++ w_log w)
                  (set_w_arc arc'
                     (set_w_db
                        (set_db_data buf'
                           (set_db_buf buf'
                              (set_db_dirty_records
                                 (set_write_ranges [] <$> db_dirty_records (w_db w))
                                 (w_db w)))) w))))
    ∧ Forall is_freeze evs
    ∧ ∀ newer r older,
        db_dirty_records (w_db w) = newer ++ r :: older →
        bytes_of arc' (dr_data r)
        = resolved_bytes (w_arc w) (b_data a0) (r :: older).
Proof.
  intros Hlev Hnd Hres Hbrk Hndd Hb0 Ha0 Hlen0 Hsz Hfront Hpend.
  set (l := db_dirty_records (w_db w)) in *.
  unfold dbuf_resolve_ranges. rewrite bind_get_db. fold l. rewrite <- fmap_rev.
  destruct (resolve_ranges_loop_run (db_size (w_db w)) (rev l) w [] b0 a0)
    as (evs & Hloop & Hevs).
  { exact Hlev. }
  { by rewrite rev_involutive, app_nil_r. }
  { rewrite rev_involutive. exact Hnd. }
  { apply Forall_forall. intros x Hx. rewrite Forall_forall in Hres. apply Hres.
    exact (proj1 (elem_of_rev _ _) Hx). }
  { rewrite fmap_rev. apply NoDup_ListNoDup, NoDup_rev, NoDup_ListNoDup, Hndd. }
  { intros Hin. apply Hb0. rewrite fmap_rev in Hin.
    exact (proj1 (elem_of_rev _ _) Hin). }
  { exact Ha0. } { exact Hlen0. } { exact Hsz. }
  rewrite (bind_eq _ _ _ _ _ Hloop). rewrite bind_get_db.
  rewrite <- fmap_rev, rev_involutive, app_nil_r.
  set (arc1 := resolve_arc (b_data a0) (rev l) (w_arc w)).
  set (w2 := set_w_log _ _).
  assert (w_arc w2 = arc1) as Harc2 by (subst w2; by destruct w).
  assert (w_brk w2 = w_brk w) as Hbrk2 by (subst w2; by destruct w).
  destruct (dbuf_syncer_split_run w2) as (arc' & brk' & buf' & Hsplit & Hframe).
  { subst w2. wsimpl. lia. }
  { subst w2. wsimpl. exact Hfront. }
  { intros p Hp. subst w2. wsimpl_in Hp. specialize (Hpend p Hp).
    fold l in Hpend. destruct (find_elem p l Hpend) as (r & Hfind & Hin & Haddr).
    exists (set_write_ranges [] r). split.
    - unfold find_dr. wsimpl. rewrite find_dr_app, find_dr_fmap by done.
      by rewrite Hfind.
    - wsimpl. intros Hshare. rewrite Forall_forall in Hres, Hbrk.
      destruct (Hres r Hin) as ((d & da & Hd & Hda & Hdlen) & _).
      destruct (resolve_arc_length (rev l) (b_data a0) (w_arc w) d da Hda)
        as (da' & Hda' & Hlen').
      exists d, da'. split_and!; [done|by apply (Hbrk r Hin)|done|].
      rewrite Hlen'. exact Hdlen. }
  exists evs, arc', brk', buf'. split_and!.
  - rewrite Hsplit. subst w2. reflexivity.
  - exact Hevs.
  - intros newer r older Hsplitl. rewrite Forall_forall in Hres, Hbrk.
    assert (r ∈ l) as Hin by (rewrite Hsplitl, elem_of_app; right; left).
    destruct (Hres r Hin) as ((d & da & Hd & Hda & Hdlen) & _).
    assert (bytes_of arc' (dr_data r) = bytes_of arc1 (dr_data r)) as ->.
    { rewrite Hd. unfold bytes_of. rewrite Hframe, Harc2; [done|].
      rewrite Hbrk2. by apply (Hbrk r Hin). }
    subst arc1. erewrite (resolve_arc_lookup (rev l) _ _ (rev older) (rev newer) r).
    + by rewrite rev_involutive.
    + rewrite fmap_rev. apply NoDup_ListNoDup, NoDup_rev, NoDup_ListNoDup, Hndd.
    + apply Forall_forall. intros x Hx. apply (proj1 (elem_of_rev _ _)) in Hx.
      destruct (Hres x Hx) as ((d' & da' & Hd' & Hda' & _) & _). by exists d'.
    + rewrite Hsplitl, rev_app_distr. cbn [rev]. by rewrite <- app_assoc.
Qed.


Lemma update_dr_same (a : nat) (f : dbuf_dirty_record_t → dbuf_dirty_record_t)
    (l : list dbuf_dirty_record_t) :
  Forall (fun r => dr_addr r = a → f r = r) l → update_dr a f l = l.
Proof.
  induction 1 as [|r l Hr _ IH]; [done|]. unfold update_dr in *.
  cbn [List.map]. rewrite IH. unfold dr_has_addr.
  destruct (Nat.eqb_spec (dr_addr r) a) as [Heq|]; [|done]. by rewrite Hr.
Qed.

Lemma NoDup_addr_inj (l : list dbuf_dirty_record_t) (x y : dbuf_dirty_record_t) :
  NoDup (dr_addr <$> l) → x ∈ l → y ∈ l → dr_addr x = dr_addr y → x = y.
Proof.
  induction l as [|z l IH]; [by intros _ ?%elem_of_nil|].
  rewrite fmap_cons. intros [Hz Hnd]%NoDup_cons [->|Hx]%elem_of_cons [->|Hy]%elem_of_cons Heq.
  - done.
  - exfalso. apply Hz. rewrite Heq. by apply list_elem_of_fmap_2.
  - exfalso. apply Hz. rewrite <- Heq. by apply list_elem_of_fmap_2.
  - by apply IH.
Qed.

Lemma find_last (l : list dbuf_dirty_record_t) (r : dbuf_dirty_record_t) :
  NoDup (dr_addr <$> l) → last l = Some r →
  List.find (dr_has_addr (dr_addr r)) l = Some r.
Proof.
  intros Hnd Hlast. apply last_Some in Hlast as [l' ->].
  destruct (NoDup_addr_middle l' [] r Hnd) as [Hn _].
  rewrite find_dr_app, (find_absent _ _ Hn). cbn. unfold dr_has_addr.
  by rewrite Nat.eqb_refl.
Qed.

(** The state a resolve leaves: [DB_READ] becomes [DB_CACHED], and a
    state with more bits than [DB_READ] loses that bit. *)
Lemma dbuf_read_complete_resolve_run (w : world) (b0 : nat) (a0 : arc_buf_t)
    (oldest : dbuf_dirty_record_t) :
  db_level (w_db w) = 0 →
  last (db_dirty_records (w_db w)) = Some oldest →
  write_ranges oldest ≠ [] →
  NoDup (dr_addr <$> (db_dirty_records (w_db w) ++ w_kmem w)) →
  Forall (dr_resolvable (w_arc w) (db_size (w_db w))) (db_dirty_records (w_db w)) →
  Forall (fun r => ∀ b, dr_data r = Some b → (b < w_brk w)%nat)
         (db_dirty_records (w_db w)) →
  NoDup (dr_data <$> db_dirty_records (w_db w)) →
  Some b0 ∉ dr_data <$> db_dirty_records (w_db w) →
  w_arc w !! b0 = Some a0 →
  Z.of_nat (length (b_data a0)) = db_size (w_db w) →
  db_size (w_db w) ≤ INT_MAX →
  db_data (w_db w) = db_buf (w_db w) →
  (∀ p, db_data_pending (w_db w) = Some p →
        p ∈ dr_addr <$> db_dirty_records (w_db w)) →
  ∃ evs arc' brk' buf',
    dbuf_read_complete (Some b0) false w
    = Ok tt
        (set_w_brk brk'
           (set_w_log
              (rev ((fun s => EvBufSetRele s 0) <$> db_buf_sets (w_db w))
               ++ match dr_override_zio oldest with
                  | Some z => [EvZioNowait z] | None => []
                  end
               ++ match dr_zio oldest with
                  | Some z => [EvZioNowait z] | None => []
                  end
               ++ EvArcDiscardBuf b0
               :: (if db_state (w_db w) =? DB_READ
                   then [EvStateChange DB_CACHED "resolve of records with only READ set"]
                   else if Z.land (db_state (w_db w)) DB_READ =? 0 then []
                   else [EvStateChange (Z.land (db_state (w_db w)) (Z.lnot DB_READ))
                           "resolve of records with READ state bit set"])
               ++ evs ++ w_log w)
              (set_w_arc arc'
                 (set_w_db
                    (set_db_buf_sets []
                       (set_db_state
                          (if db_state (w_db w) =? DB_READ then DB_CACHED
                           else if Z.land (db_state (w_db w)) DB_READ =? 0
                                then db_state (w_db w)
                                else Z.land (db_state (w_db w)) (Z.lnot DB_READ))
                          (set_db_data buf'
                             (set_db_buf buf'
                                (set_db_dirty_records
                                   (update_dr (dr_addr oldest) (set_dr_override_zio None)
                                      (set_write_ranges [] <$> db_dirty_records (w_db w)))
                                   (w_db w)))))) w))))
    ∧ Forall is_freeze evs
    ∧ ∀ newer r older,
        db_dirty_records (w_db w) = newer ++ r :: older →
        bytes_of arc' (dr_data r)
        = resolved_bytes (w_arc w) (b_data a0) (r :: older).
Proof.
  intros Hlev Hlast Hranges Hnd Hres Hbrk Hndd Hb0 Ha0 Hlen0 Hsz Hfront Hpend.
  destruct (dbuf_resolve_ranges_run w b0 a0 Hlev Hnd Hres Hbrk Hndd Hb0 Ha0 Hlen0 Hsz
              Hfront Hpend) as (evs & arc' & brk' & buf' & Hrun & Hevs & Hbytes).
  exists evs, arc', brk', buf'. split; [|by split].
  set (l := db_dirty_records (w_db w)) in *.
  assert (NoDup (dr_addr <$> l)) as Hndl.
  { rewrite fmap_app in Hnd. by apply NoDup_app in Hnd as (? & _ & _). }
  assert (Forall (fun x => dr_addr x ≠ dr_addr oldest) (w_kmem w)) as Hkmem.
  { apply Forall_forall. intros x Hx Heq. rewrite fmap_app in Hnd.
    apply NoDup_app in Hnd as (_ & Hdis & _). apply (Hdis (dr_addr oldest)).
    - apply list_elem_of_fmap_2. apply last_Some in Hlast as [l' Hl'].
      rewrite Hl', elem_of_app. right. by left.
    - rewrite <- Heq. by apply list_elem_of_fmap_2. }
  unfold dbuf_read_complete. rewrite bind_get_db. fold l. rewrite Hlast, Hlev.
  rewrite (bool_decide_eq_false_2 _ Hranges). cbn [Z.eqb negb andb list_tail fmap option_fmap option_map].
  rewrite !bind_assoc. rewrite (bind_eq _ _ _ _ _ Hrun). clear Hrun.
  assert (list_tail l = Some (dr_addr oldest)) as -> by (unfold list_tail; by rewrite Hlast).
  rewrite bind_assoc, bind_get_db. wnorm.
  assert (∀ W, db_dirty_records (w_db W) = set_write_ranges [] <$> l →
               find_dr (dr_addr oldest) W = Some (set_write_ranges [] oldest)) as Hfind.
  { intros W HW. unfold find_dr. rewrite HW, find_dr_app, find_dr_fmap by done.
    by rewrite (find_last l oldest Hndl Hlast). }
  destruct (db_state (w_db w) =? DB_READ) eqn:Hst;
    [|destruct (Z.land (db_state (w_db w)) DB_READ =? 0) eqn:Hrd];
    cbn [negb when]; unfold skip; mrun'; cbn [deref]; mrun'; unfold arc_discard_buf; mrun'.
  all: destruct (dr_zio oldest) as [z|] eqn:Hz;
    rewrite ?ptr_eqb_Some_None, ?ptr_eqb_refl; cbn [negb when];
    unfold zio_nowait, skip; cbn [deref]; mrun'.
  all: erewrite bind_eq by (apply dbuf_dispatch_override_zio_run, Hfind; reflexivity).
  all: wsimpl.
  all: destruct (dr_override_zio oldest) as [zo|] eqn:Hzo.
  all: unfold dbuf_process_buf_sets; mrun'.
  all: rewrite ?(update_dr_absent _ _ _ Hkmem).
  all: try (rewrite (update_dr_same (dr_addr oldest) (set_dr_override_zio None)
                       (set_write_ranges [] <$> l));
            [|apply Forall_forall; intros x' [x [-> Hx]]%list_elem_of_fmap Heq;
              assert (x = oldest) as ->
                by (apply (NoDup_addr_inj l); [done|done| |done];
                    apply last_Some in Hlast as [l' Hl']; rewrite Hl', elem_of_app;
                    right; by left);
              destruct oldest; cbn in Hzo |- *; by subst]).
  all: cbn [app]; reflexivity.
Qed.

End Resolve.

Section ResolveClaim.
Context `{hdr : dbuf_headers}.

Lemma resolved_bytes_length (arc : gmap nat arc_buf_t) (n : Z) (old : list Byte.byte)
    (l : list dbuf_dirty_record_t) :
  Forall (dr_resolvable arc n) l → Z.of_nat (length old) = n →
  Z.of_nat (length (resolved_bytes arc old l)) = n.
Proof.
  intros Hres Hold. induction Hres as [|r l Hr _ IH]; [done|].
  cbn [resolved_bytes]. rewrite merged_length.
  destruct Hr as ((b & a & Hd & Hb & Hlen) & _). rewrite Hd. unfold bytes_of.
  by rewrite Hb.
Qed.

(** The bytes of a resolved record, one by one. *)
Lemma resolved_bytes_lookup (arc : gmap nat arc_buf_t) (n : Z) (old : list Byte.byte)
    (r : dbuf_dirty_record_t) (older : list dbuf_dirty_record_t) (i : nat) :
  Forall (dr_resolvable arc n) (r :: older) → Z.of_nat (length old) = n →
  resolved_bytes arc old (r :: older) !! i
  = if decide (write_ranges r = [] ∨ covered (write_ranges r) (Z.of_nat i))
    then bytes_of arc (dr_data r) !! i
    else resolved_bytes arc old older !! i.
Proof.
  intros [Hr Hres]%Forall_cons Hold. cbn [resolved_bytes].
  pose proof (resolved_bytes_length arc n old older Hres Hold) as Hlen.
  destruct Hr as ((b & a & Hd & Hb & Hlenb) & _).
  destruct (write_ranges r) as [|g rs] eqn:Hrs; cbn [merged].
  { rewrite decide_True by (by left). done. }
  rewrite inverse_merge_lookup.
  - destruct (decide (covered (g :: rs) (Z.of_nat i))).
    + rewrite decide_True by (by right). done.
    + rewrite decide_False; [done|]. intros [?|?]; done.
  - rewrite Hd. unfold bytes_of. rewrite Hb. lia.
Qed.


(** [dbuf_read_complete] where the guard of the resolve fails: a dbuf
    in [DB_READ] takes the buffer as its frontend and is cached; in any
    other state the buffer is discarded.  The dirty records and the
    bytes of the buffers are as they were. *)
Lemma dbuf_read_complete_no_resolve (b : nat) (a : arc_buf_t) (is_hole_read : bool)
    (w : world) :
  resolve_wanted (w_db w) is_hole_read = false →
  w_arc w !! b = Some a →
  dbuf_read_complete (Some b) is_hole_read w
  = Ok tt
      (if db_state (w_db w) =? DB_READ then
         set_w_log
           (rev ((fun s => EvBufSetRele s 0) <$> db_buf_sets (w_db w))
            ++ EvStateChange DB_CACHED "read completed with no dirty records"
            :: (if b_released a then w_log w else EvArcSetCallback b :: w_log w))
           (set_w_db
              (set_db_buf_sets []
                 (set_db_state DB_CACHED
                    (set_db_data (Some b) (set_db_buf (Some b) (w_db w))))) w)
       else
         set_w_log
           (rev ((fun s => EvBufSetRele s 0) <$> db_buf_sets (w_db w))
            ++ EvArcDiscardBuf b :: w_log w)
           (set_w_db (set_db_buf_sets [] (w_db w)) w)).
Proof.
  intros Hguard Harc. unfold dbuf_read_complete. mrun'.
  unfold resolve_wanted in Hguard. rewrite Hguard.
  destruct (Z.eqb_spec (db_state (w_db w)) DB_READ) as [Hst|Hst].
  - mflat. rewrite (bind_eq _ _ _ _ _ (dbuf_set_data_run b a w Harc)). mrun'.
    unfold dbuf_process_buf_sets. mrun'. wsimpl. unfold ret.
    reflexivity.
  - mflat. cbn [deref]. unfold arc_discard_buf, emit. mrun'.
    unfold dbuf_process_buf_sets. mrun'. wsimpl. unfold ret.
    reflexivity.
Qed.

(** C1.  A read completes with the buffer [b0] on a level-0 dbuf whose
    oldest dirty record has write ranges.  [dbuf_read_complete]
    returns.  When the read is not a hole read, every dirty record has
    lost its write ranges.  In the buffer of a record that had write
    ranges, the bytes these covered are as they were, and the others
    are those of the next older record after its own resolve, or of
    [b0] for the oldest record; a record that had no write range keeps
    its buffer as it was.  After the freezes of the resolve, the read
    buffer is discarded and the write of the syncer and the override
    write that the oldest record had stashed are issued.  A hole read,
    which [dbuf_read_hole] makes for a reader in the foreground, does
    not resolve: the dirty records keep their write ranges, no byte is
    copied and no stashed write is issued; a dbuf in [DB_READ] gets
    [b0] as its frontend and is cached. *)
Theorem dbuf_read_complete_resolves (w : world) (b0 : nat) (a0 : arc_buf_t)
    (oldest : dbuf_dirty_record_t) (is_hole_read : bool) :
  db_level (w_db w) = 0 →
  last (db_dirty_records (w_db w)) = Some oldest →
  write_ranges oldest ≠ [] →
  NoDup (dr_addr <$> (db_dirty_records (w_db w) ++ w_kmem w)) →
  Forall (dr_resolvable (w_arc w) (db_size (w_db w))) (db_dirty_records (w_db w)) →
  Forall (fun r => ∀ b, dr_data r = Some b → (b < w_brk w)%nat)
         (db_dirty_records (w_db w)) →
  NoDup (dr_data <$> db_dirty_records (w_db w)) →
  Some b0 ∉ dr_data <$> db_dirty_records (w_db w) →
  w_arc w !! b0 = Some a0 →
  Z.of_nat (length (b_data a0)) = db_size (w_db w) →
  db_size (w_db w) ≤ INT_MAX →
  db_data (w_db w) = db_buf (w_db w) →
  (∀ p, db_data_pending (w_db w) = Some p →
        p ∈ dr_addr <$> db_dirty_records (w_db w)) →
  ∃ w',
    dbuf_read_complete (Some b0) is_hole_read w = Ok tt w'
    ∧ if is_hole_read then
        db_dirty_records (w_db w') = db_dirty_records (w_db w)
        ∧ w_arc w' = w_arc w
        ∧ (∀ z, EvZioNowait z ∈ w_log w' → EvZioNowait z ∈ w_log w)
        ∧ (if db_state (w_db w) =? DB_READ
           then db_state (w_db w') = DB_CACHED
                ∧ db_buf (w_db w') = Some b0 ∧ db_data (w_db w') = Some b0
           else db_state (w_db w') = db_state (w_db w)
                ∧ db_buf (w_db w') = db_buf (w_db w)
                ∧ db_data (w_db w') = db_data (w_db w)
                ∧ EvArcDiscardBuf b0 ∈ w_log w')
      else
        ∃ freezes changes,
          db_dirty_records (w_db w')
          = update_dr (dr_addr oldest) (set_dr_override_zio None)
              (set_write_ranges [] <$> db_dirty_records (w_db w))
          ∧ (∀ newer r older (i : nat),
               db_dirty_records (w_db w) = newer ++ r :: older →
               bytes_of (w_arc w') (dr_data r) !! i
               = if decide (write_ranges r = [] ∨ covered (write_ranges r) (Z.of_nat i))
                 then bytes_of (w_arc w) (dr_data r) !! i
                 else match older with
                      | [] => b_data a0
                      | o :: _ => bytes_of (w_arc w') (dr_data o)
                      end !! i)
          ∧ w_log w'
            = rev ((fun s => EvBufSetRele s 0) <$> db_buf_sets (w_db w))
              ++ match dr_override_zio oldest with
                 | Some z => [EvZioNowait z] | None => []
                 end
              ++ match dr_zio oldest with
                 | Some z => [EvZioNowait z] | None => []
                 end
              ++ EvArcDiscardBuf b0 :: changes ++ freezes ++ w_log w
          ∧ Forall is_freeze freezes
          ∧ Forall (fun e => ∃ s why, e = EvStateChange s why) changes
          ∧ db_state (w_db w')
            = if db_state (w_db w) =? DB_READ then DB_CACHED
              else if Z.land (db_state (w_db w)) DB_READ =? 0 then db_state (w_db w)
                   else Z.land (db_state (w_db w)) (Z.lnot DB_READ).
Proof.
  intros Hlev Hlast Hranges Hnd Hres Hbrk Hndd Hb0 Ha0 Hlen0 Hsz Hfront Hpend.
  destruct is_hole_read.
  - (* a hole read *)
    assert (Hguard : resolve_wanted (w_db w) true = false).
    { unfold resolve_wanted. rewrite Hlast. cbn [negb]. by rewrite andb_false_r. }
    eexists. split; [exact (dbuf_read_complete_no_resolve b0 a0 true w Hguard Ha0)|].
    assert (Hsets : ∀ z l, EvZioNowait z ∈ rev ((fun s => EvBufSetRele s 0) <$> l)
                           → False).
    { intros z l Hin.
      apply list_elem_of_In, in_rev, list_elem_of_In, list_elem_of_fmap in Hin
        as (? & ? & ?). done. }
    destruct (db_state (w_db w) =? DB_READ); wsimpl.
    + split_and!; try done. intros z [Hin|Hin]%elem_of_app; [by destruct (Hsets z _ Hin)|].
      apply elem_of_cons in Hin as [?|Hin]; [done|].
      destruct (b_released a0); [done|]. by apply elem_of_cons in Hin as [?|Hin].
    + split_and!; try done.
      * intros z [Hin|Hin]%elem_of_app; [by destruct (Hsets z _ Hin)|].
        by apply elem_of_cons in Hin as [?|Hin].
      * apply elem_of_app. right. apply list_elem_of_here.
  - (* a read of the block *)
    destruct (dbuf_read_complete_resolve_run w b0 a0 oldest Hlev Hlast Hranges Hnd Hres
                Hbrk Hndd Hb0 Ha0 Hlen0 Hsz Hfront Hpend)
      as (evs & arc' & brk' & buf' & Hrun & Hevs & Hbytes).
    eexists. split; [exact Hrun|]. eexists evs, _. wsimpl. split_and!; try reflexivity.
    + intros newer r older i Hsplit.
      rewrite (Hbytes newer r older Hsplit).
      assert (Forall (dr_resolvable (w_arc w) (db_size (w_db w))) (r :: older)) as Hres'.
      { rewrite Hsplit in Hres. by apply Forall_app in Hres as [_ ?]. }
      rewrite (resolved_bytes_lookup _ _ _ _ _ _ Hres' Hlen0).
      case_decide; [done|]. destruct older as [|o older']; [done|].
      rewrite (Hbytes (newer ++ [r]) o older'); [done|].
      by rewrite Hsplit, <- app_assoc.
    + exact Hevs.
    + destruct (_ =? DB_READ); [|destruct (_ =? 0)]; repeat constructor; by eexists _, _.
Qed.

End ResolveClaim.

(** On [resolve_world] in [DB_READ] the read completes with buffer 3:
    bytes 2 and 3 of buffer 1 are kept and the others come from buffer
    3; buffer 2 is as it was; the write of the syncer is issued.  A
    hole read leaves the ranges and the write of the syncer where they
    are. *)
Lemma dbuf_read_complete_resolves_witness :
  (∃ w',
     dbuf_read_complete (Some 3%nat) false (resolve_world DB_READ) = Ok tt w'
     ∧ write_ranges <$> db_dirty_records (w_db w') = [[]; []]
     ∧ bytes_of (w_arc w') (Some 1%nat)
       = [Byte.xdd; Byte.xdd; Byte.xaa; Byte.xaa; Byte.xdd; Byte.xdd; Byte.xdd; Byte.xdd]
     ∧ bytes_of (w_arc w') (Some 2%nat) = replicate 8 Byte.xcc
     ∧ EvZioNowait 9 ∈ w_log w'
     ∧ db_state (w_db w') = DB_CACHED)
  ∧ (∃ w',
       dbuf_read_complete (Some 3%nat) true (resolve_world DB_READ) = Ok tt w'
       ∧ write_ranges <$> db_dirty_records (w_db w') = [[]; [mk_range 2 4 2]]
       ∧ (EvZioNowait 9 ∉ w_log w')
       ∧ db_state (w_db w') = DB_CACHED).
Proof.
  assert (Hready : ∀ P : Prop,
            (db_level (w_db (resolve_world DB_READ)) = 0 →
             last (db_dirty_records (w_db (resolve_world DB_READ)))
             = Some (mk_dr 100 1 (Some 9%nat) None (Some 1%nat) [mk_range 2 4 2]
                       DR_NOT_OVERRIDDEN false false) →
             write_ranges (mk_dr 100 1 (Some 9%nat) None (Some 1%nat) [mk_range 2 4 2]
                             DR_NOT_OVERRIDDEN false false) ≠ [] →
             resolve_ready (resolve_world DB_READ) 3
               (mk_arc_buf (replicate 8 Byte.xdd) true) → P) → P).
  { intros P HP. apply HP; [reflexivity|reflexivity|discriminate|]. split_and!.
    - by apply (bool_decide_unpack (NoDup [101; 100]%nat)).
    - constructor; [|constructor; [|constructor]].
      + split; [by exists 2%nat, (mk_arc_buf (replicate 8 Byte.xcc) true)|].
        split; [split; [constructor|reflexivity]|constructor].
      + split; [by exists 1%nat, (mk_arc_buf (replicate 8 Byte.xaa) true)|].
        split; [split; [|reflexivity]|]; repeat constructor;
          unfold INT_MAX; cbn; lia.
    - constructor; [|constructor; [|constructor]]; cbn; intros b [= <-]; lia.
    - by apply (bool_decide_unpack (NoDup [Some 2; Some 1]%nat)).
    - by apply (bool_decide_unpack (Some 3%nat ∉ [Some 2; Some 1]%nat)).
    - reflexivity.
    - vm_compute. discriminate.
    - reflexivity.
    - intros p [=]. }
  split.
  - apply Hready.
    intros Hlev Hlast Hranges (Hnd & Hres & Hbrk & Hndd & Hb0 & Hlen & Hsz & Hfront & Hpend).
    destruct (dbuf_read_complete_resolves (resolve_world DB_READ) 3
                (mk_arc_buf (replicate 8 Byte.xdd) true) _ false
                Hlev Hlast Hranges Hnd Hres Hbrk Hndd Hb0 eq_refl Hlen Hsz Hfront Hpend)
      as (w' & Hrun & freezes & changes & Hl & Hbytes & Hlog & _ & _ & Hst).
    exists w'. split_and!.
    + exact Hrun.
    + rewrite Hl. reflexivity.
    + apply list_eq. intros i.
      pose proof (Hbytes [_] _ [] i eq_refl) as Hi. wsimpl_in Hi. rewrite Hi.
      do 8 (destruct i as [|i]; [reflexivity|]). case_decide; reflexivity.
    + apply list_eq. intros i.
      pose proof (Hbytes [] _ [_] i eq_refl) as Hi. wsimpl_in Hi. rewrite Hi.
      reflexivity.
    + rewrite Hlog. cbn. apply list_elem_of_here.
    + rewrite Hst. reflexivity.
  - apply Hready.
    intros Hlev Hlast Hranges (Hnd & Hres & Hbrk & Hndd & Hb0 & Hlen & Hsz & Hfront & Hpend).
    destruct (dbuf_read_complete_resolves (resolve_world DB_READ) 3
                (mk_arc_buf (replicate 8 Byte.xdd) true) _ true
                Hlev Hlast Hranges Hnd Hres Hbrk Hndd Hb0 eq_refl Hlen Hsz Hfront Hpend)
      as (w' & Hrun & Hl & _ & Hlog & Hst).
    exists w'. split_and!.
    + exact Hrun.
    + rewrite Hl. reflexivity.
    + intros Hin. apply Hlog in Hin. by apply elem_of_nil in Hin.
    + change (db_state (w_db (resolve_world DB_READ)) =? DB_READ) with true in Hst.
      apply Hst.
Defined.

(** C1, as it is stated, fails on the record of transaction group 2
    of [resolve_world]: it has no write range, so none of its bytes is
    covered by one, yet after the resolve its first byte is still its
    own and not that of the older buffer.  It fails as well for the
    read of a hole: on [freed_world], whose oldest record has a write
    range and a stashed write, [dbuf_read_hole] completes a read with
    [is_hole_read] set; the record keeps its range and its buffer, the
    stashed write is not issued, and the dbuf is cached. *)
Lemma dbuf_read_complete_keeps_whole_record :
  (∃ w',
     dbuf_read_complete (Some 3%nat) false (resolve_world DB_READ) = Ok tt w'
     ∧ write_ranges <$> find_dr 101 (resolve_world DB_READ) = Some []
     ∧ ¬ covered [] 0
     ∧ bytes_of (w_arc w') (Some 1%nat) !! 0%nat = Some Byte.xdd
     ∧ bytes_of (w_arc (resolve_world DB_READ)) (Some 2%nat) !! 0%nat = Some Byte.xcc
     ∧ bytes_of (w_arc w') (Some 2%nat) !! 0%nat = Some Byte.xcc)
  ∧ (∃ w',
       dbuf_read_hole freed_world = Ok true w'
       ∧ db_level (w_db freed_world) = 0
       ∧ write_ranges <$> last (db_dirty_records (w_db freed_world))
         = Some [mk_range 2 4 2]
       ∧ write_ranges <$> db_dirty_records (w_db w') = [[]; [mk_range 2 4 2]]
       ∧ bytes_of (w_arc w') (Some 1%nat) = replicate 8 Byte.xaa
       ∧ dr_zio <$> db_dirty_records (w_db w') = [None; Some 9%nat]
       ∧ (∀ z, EvZioNowait z ∉ w_log w')
       ∧ db_state (w_db w') = DB_CACHED).
Proof.
  split.
  - eexists. split; [vm_compute; reflexivity|]. split_and!.
    + reflexivity.
    + by intros ?%Exists_nil.
    + vm_compute. reflexivity.
    + vm_compute. reflexivity.
    + vm_compute. reflexivity.
  - eexists. split; [vm_compute; reflexivity|]. split_and!; try reflexivity.
    intros z Hin. repeat (apply elem_of_cons in Hin as [Hin|Hin]; [discriminate|]).
    by apply elem_of_nil in Hin.
Qed.

(** ** A read that fails on a dirty dbuf *)


Section ReadFailed.
Context `{hdr : dbuf_headers}.




End ReadFailed.



(** ** The hash table *)

Lemma elem_of_concat {A} (x : A) (ls : list (list A)) :
  x ∈ concat ls ↔ ∃ l, x ∈ l ∧ l ∈ ls.
Proof.
  induction ls as [|l ls IH]; cbn [concat].
  - split; [by intros ?%elem_of_nil|]. by intros (l & _ & ?%elem_of_nil).
  - rewrite elem_of_app, IH. split.
    + intros [Hx|(l' & Hx & Hl')].
      * exists l. split; [done|by left].
      * exists l'. split; [done|by right].
    + intros (l' & Hx & [->|Hl']%elem_of_cons); [by left|].
      right. by exists l'.
Qed.

Section HashChains.
Context `{hdr : dbuf_headers}.

Lemma hash_chain_find_Some (os obj level blkid : Z) (chain : list hashed_dbuf_t)
    (db : hashed_dbuf_t) :
  hash_chain_find os obj level blkid chain = Some db →
  db ∈ chain ∧ DBUF_EQUAL db os obj level blkid = true
  ∧ db_state (hd_db db) ≠ DB_EVICTING.
Proof.
  induction chain as [|x chain IH]; [done|]. cbn [hash_chain_find].
  destruct (DBUF_EQUAL x os obj level blkid) eqn:Heq; cbn [andb].
  - destruct (Z.eqb_spec (db_state (hd_db x)) DB_EVICTING) as [Hev|Hev]; cbn [negb].
    + intros H. destruct (IH H) as (? & ? & ?). split_and!; [by right|done|done].
    + intros [= <-]. split_and!; [by left|done|done].
  - intros H. destruct (IH H) as (? & ? & ?). split_and!; [by right|done|done].
Qed.

Lemma hash_chain_find_None (os obj level blkid : Z) (chain : list hashed_dbuf_t) :
  hash_chain_find os obj level blkid chain = None ↔
  ∀ db, db ∈ chain → DBUF_EQUAL db os obj level blkid = true →
        db_state (hd_db db) = DB_EVICTING.
Proof.
  induction chain as [|x chain IH]; cbn [hash_chain_find].
  - split; [|done]. by intros _ db ?%elem_of_nil.
  - destruct (DBUF_EQUAL x os obj level blkid) eqn:Heq; cbn [andb].
    + destruct (Z.eqb_spec (db_state (hd_db x)) DB_EVICTING) as [Hev|Hev]; cbn [negb].
      * rewrite IH. split.
        -- intros H db [->|Hin]%elem_of_cons Hdb; [done|by apply H].
        -- intros H db Hin. apply H. by right.
      * split; [done|]. intros H. exfalso. apply Hev, H; [by left|done].
    + rewrite IH. split.
      * intros H db [->|Hin]%elem_of_cons Hdb; [congruence|by apply H].
      * intros H db Hin. apply H. by right.
Qed.

Lemma DBUF_EQUAL_spec (db : hashed_dbuf_t) (os obj level blkid : Z) :
  DBUF_EQUAL db os obj level blkid = true ↔
  db_object (hd_db db) = obj ∧ hd_objset db = os
  ∧ db_level (hd_db db) = level ∧ db_blkid (hd_db db) = blkid.
Proof. unfold DBUF_EQUAL. rewrite !andb_true_iff, !Z.eqb_eq. tauto. Qed.

Lemma DBUF_EQUAL_self (db : hashed_dbuf_t) :
  DBUF_EQUAL db (hd_objset db) (db_object (hd_db db)) (db_level (hd_db db))
    (db_blkid (hd_db db)) = true.
Proof. by apply DBUF_EQUAL_spec. Qed.

End HashChains.

Section HashTableProperties.
Context `{hdr : dbuf_headers}.
Variable crc : Z → Z.

Lemma hash_idx_range (hv k : Z) :
  0 ≤ k → (Z.to_nat (Z.land hv (Z.ones k)) < Z.to_nat (2 ^ k))%nat.
Proof.
  intros Hk. rewrite Z.land_ones by done.
  pose proof (Z.mod_pos_bound hv (2 ^ k) ltac:(apply Z.pow_pos_nonneg; lia)). lia.
Qed.

Lemma hash_bucket_inv (h : dbuf_hash_table_t) (hv : Z) :
  hash_table_inv crc h →
  ∃ chain, hash_bucket h (Z.land hv (hash_table_mask h)) = Some chain.
Proof.
  intros ((k & Hk & Hmask & Hlen) & _). unfold hash_bucket. rewrite Hmask.
  apply lookup_lt_is_Some_2. rewrite Hlen. by apply hash_idx_range.
Qed.

End HashTableProperties.

Section HashTableTheorems.
Context `{hdr : dbuf_headers}.
Variable crc : Z → Z.

Local Opaque DBUF_HASH.

(** [dbuf_hash_insert] and [dbuf_find].  On a table that is as
    [dbuf_init] and the hash functions leave it, [dbuf_hash_insert]
    returns.  When a dbuf of the same objset, object, level and block
    that is not being evicted is in the table, that one is returned,
    the table is left as it is, and [dbuf_find] returns that dbuf
    too.  Otherwise [NULL] is returned, the dbuf is counted, and
    [dbuf_find] returns the new dbuf from then on, unless it is
    being evicted. *)
Theorem dbuf_hash_insert_find (db : hashed_dbuf_t) (h : dbuf_hash_table_t) :
  hash_table_inv crc h →
  let os := hd_objset db in
  let obj := db_object (hd_db db) in
  let level := db_level (hd_db db) in
  let blkid := db_blkid (hd_db db) in
  ∃ r h',
    dbuf_hash_insert crc db h = Some (r, h')
    ∧ match r with
      | Some dbf =>
          h' = h
          ∧ dbuf_find crc os obj level blkid h = Some (Some dbf)
          ∧ DBUF_EQUAL dbf os obj level blkid = true
          ∧ db_state (hd_db dbf) ≠ DB_EVICTING
      | None =>
          dbuf_find crc os obj level blkid h = Some None
          ∧ dbuf_hash_count h' = wrap_u64 (dbuf_hash_count h + 1)
          ∧ dbuf_find crc os obj level blkid h'
            = Some (if db_state (hd_db db) =? DB_EVICTING then None else Some db)
      end.
Proof.
  intros Hinv os obj level blkid.
  destruct (hash_bucket_inv crc h (DBUF_HASH crc os obj level blkid) Hinv)
    as [chain Hchain].
  unfold dbuf_hash_insert, dbuf_find. fold os obj level blkid.
  rewrite Hchain. cbn [mbind option_bind].
  destruct (hash_chain_find os obj level blkid chain) as [dbf|] eqn:Hfind.
  - eexists (Some dbf), h. split; [done|].
    destruct (hash_chain_find_Some _ _ _ _ _ _ Hfind) as (_ & ? & ?). done.
  - eexists None, _. split; [done|]. split_and!; [done|done|].
    cbn [hash_table_mask hash_table]. unfold hash_bucket in *. cbn [hash_table].
    rewrite list_lookup_insert_eq by (by eapply lookup_lt_Some).
    cbn [mbind option_bind hash_chain_find].
    subst os obj level blkid. rewrite DBUF_EQUAL_self. cbn [andb].
    destruct (db_state (hd_db db) =? DB_EVICTING); cbn [negb]; [|done].
    by rewrite Hfind.
Qed.


(** [dbuf_hash_insert] leaves the other dbufs where they are: what
    [dbuf_find] returns for another objset, object, level or block
    does not change. *)
Theorem dbuf_hash_insert_other (db : hashed_dbuf_t) (h h' : dbuf_hash_table_t)
    (os obj level blkid : Z) :
  dbuf_hash_insert crc db h = Some (None, h') →
  DBUF_EQUAL db os obj level blkid = false →
  dbuf_find crc os obj level blkid h' = dbuf_find crc os obj level blkid h.
Proof.
  unfold dbuf_hash_insert, dbuf_find, hash_bucket.
  destruct (hash_table h !! _) as [chain|] eqn:Hchain; [|done].
  cbn [mbind option_bind]. destruct (hash_chain_find _ _ _ _ chain); [done|].
  intros [= <-] Hne. cbn [hash_table hash_table_mask].
  set (i := Z.to_nat (Z.land (DBUF_HASH crc (hd_objset db) _ _ _) _)) in *.
  set (j := Z.to_nat (Z.land (DBUF_HASH crc os obj level blkid) _)).
  destruct (decide (i = j)) as [<-|Hij].
  - rewrite list_lookup_insert_eq by (by eapply lookup_lt_Some). rewrite Hchain.
    cbn [mbind option_bind hash_chain_find]. by rewrite Hne.
  - by rewrite list_lookup_insert_ne.
Qed.

(** What [dbuf_find] returns is in the table, has the objset, object,
    level and block asked for and is not being evicted; and it
    returns [NULL] only when every dbuf of the table that has them is
    being evicted. *)
Theorem dbuf_find_sound_complete (h : dbuf_hash_table_t) (os obj level blkid : Z) :
  hash_table_inv crc h →
  ∃ r,
    dbuf_find crc os obj level blkid h = Some r
    ∧ match r with
      | Some db =>
          db ∈ concat (hash_table h)
          ∧ DBUF_EQUAL db os obj level blkid = true
          ∧ db_state (hd_db db) ≠ DB_EVICTING
      | None =>
          ∀ db, db ∈ concat (hash_table h) →
                DBUF_EQUAL db os obj level blkid = true →
                db_state (hd_db db) = DB_EVICTING
      end.
Proof.
  intros Hinv.
  destruct (hash_bucket_inv crc h (DBUF_HASH crc os obj level blkid) Hinv)
    as [chain Hchain].
  unfold dbuf_find. rewrite Hchain. cbn [mbind option_bind].
  eexists. split; [done|].
  destruct (hash_chain_find os obj level blkid chain) as [db|] eqn:Hfind.
  - destruct (hash_chain_find_Some _ _ _ _ _ _ Hfind) as (Hin & ? & ?).
    split_and!; [|done|done]. apply elem_of_concat. exists chain.
    split; [done|]. by eapply list_elem_of_lookup_2.
  - intros db [chain' [Hdb Hchain']]%elem_of_concat Heq.
    apply list_elem_of_lookup in Hchain' as [i Hi].
    destruct Hinv as (_ & Hidx & _). specialize (Hidx i chain' db Hi Hdb).
    apply DBUF_EQUAL_spec in Heq as Heq'. destruct Heq' as (<- & <- & <- & <-).
    unfold hash_idx in Hidx. unfold hash_bucket in Hchain.
    rewrite Hidx, Nat2Z.id, Hi in Hchain. injection Hchain as ->.
    by eapply hash_chain_find_None.
Qed.


Lemma hash_table_eta (h : dbuf_hash_table_t) :
  mk_hash_table (hash_table_mask h) (hash_table h) (dbuf_hash_count h) = h.
Proof. by destruct h. Qed.

(** [dbuf_hash_remove] undoes [dbuf_hash_insert]: a dbuf that was
    put in the table and is removed again leaves the table and
    [dbuf_hash_count] as they were. *)
Theorem dbuf_hash_remove_insert (db : hashed_dbuf_t) (h h' : dbuf_hash_table_t) :
  hash_table_inv crc h →
  dbuf_hash_insert crc db h = Some (None, h') →
  dbuf_hash_remove crc db h' = Some h.
Proof.
  intros (_ & _ & Hcount).
  unfold dbuf_hash_insert, dbuf_hash_remove, hash_bucket.
  destruct (hash_table h !! _) as [chain|] eqn:Hchain; [|done].
  cbn [mbind option_bind]. destruct (hash_chain_find _ _ _ _ chain); [done|].
  intros [= <-]. cbn [hash_table hash_table_mask dbuf_hash_count].
  rewrite list_lookup_insert_eq by (by eapply lookup_lt_Some).
  cbn [mbind option_bind hash_chain_remove]. rewrite Nat.eqb_refl.
  cbn [mbind option_bind]. rewrite list_insert_insert_eq, list_insert_id by done.
  f_equal. rewrite <- (hash_table_eta h) at 4. f_equal.
  rewrite Hcount. unfold wrap_u64.
  rewrite Zminus_mod_idemp_l. replace (_ + 1 - 1) with
    (Z.of_nat (length (concat (hash_table h))) mod 2 ^ 64) by lia.
  by rewrite Z.mod_mod.
Qed.


Lemma concat_insert_length {A} (t : list (list A)) (i : nat) (chain chain' : list A) :
  t !! i = Some chain →
  (length (concat (<[i := chain']> t)) + length chain
   = length (concat t) + length chain')%nat.
Proof.
  intros Hi. rewrite insert_take_drop by (by eapply lookup_lt_Some).
  rewrite <- (take_drop_middle t i chain Hi) at 3.
  rewrite !concat_app, !concat_cons, !length_app. lia.
Qed.

Lemma hash_chain_remove_Some (a : nat) (chain chain' : list hashed_dbuf_t) :
  hash_chain_remove a chain = Some chain' →
  ∃ pre db post,
    chain = pre ++ db :: post ∧ chain' = pre ++ post ∧ hd_addr db = a
    ∧ Forall (fun x => hd_addr x ≠ a) pre.
Proof.
  revert chain'. induction chain as [|x chain IH]; intros chain'; [done|].
  cbn [hash_chain_remove]. destruct (Nat.eqb_spec (hd_addr x) a) as [Heq|Hne].
  - intros [= <-]. by exists [], x, chain.
  - destruct (hash_chain_remove a chain) as [c|]; [|done]. cbn. intros [= <-].
    destruct (IH c eq_refl) as (pre & db & post & -> & -> & ? & ?).
    exists (x :: pre), db, post. split_and!; try done. by constructor.
Qed.

Lemma hash_idx_mask (db : hashed_dbuf_t) (h h' : dbuf_hash_table_t) :
  hash_table_mask h' = hash_table_mask h → hash_idx crc db h' = hash_idx crc db h.
Proof. unfold hash_idx. by intros ->. Qed.

Lemma hash_table_inv_insert (db : hashed_dbuf_t) (h h' : dbuf_hash_table_t)
    (r : option hashed_dbuf_t) :
  hash_table_inv crc h → dbuf_hash_insert crc db h = Some (r, h') →
  hash_table_inv crc h'.
Proof.
  intros Hinv. pose proof Hinv as ((k & Hk & Hmask & Hlen) & Hidx & Hcount).
  unfold dbuf_hash_insert, hash_bucket.
  destruct (hash_table h !! _) as [chain|] eqn:Hchain; [|done].
  cbn [mbind option_bind]. destruct (hash_chain_find _ _ _ _ chain); [by intros [= <- <-]|].
  intros [= <- <-]. split_and!.
  - exists k. cbn. by rewrite length_insert.
  - intros i chain' x. cbn [hash_table]. rewrite (hash_idx_mask x h) by done.
    destruct (decide (i = Z.to_nat (hash_idx crc db h))) as [->|Hne].
    + unfold hash_idx at 1. rewrite list_lookup_insert_eq by (by eapply lookup_lt_Some).
      intros [= <-] [->|Hx]%elem_of_cons.
      * rewrite Z2Nat.id; [done|]. unfold hash_idx. rewrite Hmask, Z.land_ones by done.
        apply Z.mod_pos_bound, Z.pow_pos_nonneg; lia.
      * by apply (Hidx _ chain).
    + unfold hash_idx in Hne. rewrite list_lookup_insert_ne by done. apply Hidx.
  - cbn [dbuf_hash_count hash_table].
    pose proof (concat_insert_length _ _ _ (db :: chain) Hchain) as Hl.
    cbn [length] in Hl. rewrite Hcount. unfold wrap_u64.
    rewrite Zplus_mod_idemp_l. f_equal. lia.
Qed.

Lemma hash_table_inv_remove (db : hashed_dbuf_t) (h h' : dbuf_hash_table_t) :
  hash_table_inv crc h → dbuf_hash_remove crc db h = Some h' →
  hash_table_inv crc h'.
Proof.
  intros Hinv. pose proof Hinv as ((k & Hk & Hmask & Hlen) & Hidx & Hcount).
  unfold dbuf_hash_remove, hash_bucket.
  destruct (hash_table h !! _) as [chain|] eqn:Hchain; [|done].
  cbn [mbind option_bind].
  destruct (hash_chain_remove _ chain) as [chain'|] eqn:Hrem; [|done].
  cbn [mbind option_bind]. intros [= <-].
  destruct (hash_chain_remove_Some _ _ _ Hrem) as (pre & x & post & -> & -> & _ & _).
  split_and!.
  - exists k. cbn. by rewrite length_insert.
  - intros i chain' y. cbn [hash_table]. rewrite (hash_idx_mask y h) by done.
    destruct (decide (i = Z.to_nat (hash_idx crc db h))) as [->|Hne].
    + unfold hash_idx at 1. rewrite list_lookup_insert_eq by (by eapply lookup_lt_Some).
      intros [= <-] Hy. apply (Hidx _ _ _ Hchain).
      apply elem_of_app in Hy as [?|?]; apply elem_of_app; [by left|right; by right].
    + unfold hash_idx in Hne. rewrite list_lookup_insert_ne by done. apply Hidx.
  - cbn [dbuf_hash_count hash_table].
    pose proof (concat_insert_length _ _ _ (pre ++ post) Hchain) as Hl.
    rewrite !length_app in Hl. cbn [length] in Hl. rewrite Hcount. unfold wrap_u64.
    rewrite Zminus_mod_idemp_l. f_equal. lia.
Qed.

(** The hash table stays as [dbuf_init] built it: after
    [dbuf_hash_insert] and after [dbuf_hash_remove] the number of
    buckets and the mask are the same, each dbuf is in the bucket of
    its hash, and [dbuf_hash_count] is the number of dbufs in the
    table. *)
Theorem hash_table_inv_kept (db : hashed_dbuf_t) (h : dbuf_hash_table_t) :
  hash_table_inv crc h →
  (∀ r h', dbuf_hash_insert crc db h = Some (r, h') →
           hash_table_inv crc h'
           ∧ hash_table_mask h' = hash_table_mask h
           ∧ length (hash_table h') = length (hash_table h))
  ∧ (∀ h', dbuf_hash_remove crc db h = Some h' →
           hash_table_inv crc h'
           ∧ hash_table_mask h' = hash_table_mask h
           ∧ length (hash_table h') = length (hash_table h)).
Proof.
  intros Hinv. split.
  - intros r h' Hrun. split; [by eapply hash_table_inv_insert|].
    revert Hrun. unfold dbuf_hash_insert.
    destruct (hash_bucket h _) as [chain|]; [|done]. cbn [mbind option_bind].
    destruct (hash_chain_find _ _ _ _ chain); intros [= <- <-]; [done|].
    cbn. by rewrite length_insert.
  - intros h' Hrun. split; [by eapply hash_table_inv_remove|].
    revert Hrun. unfold dbuf_hash_remove.
    destruct (hash_bucket h _) as [chain|]; [|done]. cbn [mbind option_bind].
    destruct (hash_chain_remove _ chain); [|done]. intros [= <-].
    cbn. by rewrite length_insert.
Qed.

Lemma hash_chain_remove_None (a : nat) (chain : list hashed_dbuf_t) :
  hash_chain_remove a chain = None ↔ a ∉ hd_addr <$> chain.
Proof.
  induction chain as [|x chain IH]; cbn [hash_chain_remove].
  - split; [|done]. by intros _ ?%elem_of_nil.
  - rewrite fmap_cons, not_elem_of_cons.
    destruct (Nat.eqb_spec (hd_addr x) a) as [Heq|Hne].
    + split; [done|]. by intros [? _].
    + destruct (hash_chain_remove a chain) as [c|]; cbn.
      * split; [done|]. intros [_ H]. by apply IH in H.
      * split; [|done]. intros _. split; [done|]. by apply IH.
Qed.

Lemma hash_chain_find_evicting (os obj level blkid : Z)
    (pre post : list hashed_dbuf_t) (db : hashed_dbuf_t) :
  db_state (hd_db db) = DB_EVICTING →
  hash_chain_find os obj level blkid (pre ++ db :: post)
  = hash_chain_find os obj level blkid (pre ++ post).
Proof.
  intros Hev. induction pre as [|x pre IH]; cbn [app hash_chain_find].
  - by rewrite Hev, Z.eqb_refl, andb_false_r.
  - by rewrite IH.
Qed.

Lemma hashed_addr_inj (l : list hashed_dbuf_t) (x y : hashed_dbuf_t) :
  NoDup (hd_addr <$> l) → x ∈ l → y ∈ l → hd_addr x = hd_addr y → x = y.
Proof.
  induction l as [|z l IH]; [by intros _ ?%elem_of_nil|].
  rewrite fmap_cons.
  intros [Hz Hnd]%NoDup_cons [->|Hx]%elem_of_cons [->|Hy]%elem_of_cons Heq.
  - done.
  - exfalso. apply Hz. rewrite Heq. by apply list_elem_of_fmap_2.
  - exfalso. apply Hz. rewrite <- Heq. by apply list_elem_of_fmap_2.
  - by apply IH.
Qed.

(** [dbuf_hash_remove] of a dbuf that is in the table, where no two
    dbufs have the same address: the dbuf is taken out and no other;
    and when it is being evicted, as [dbuf_hash_remove] asserts,
    [dbuf_find] returns for every dbuf what it returned before.  For
    a dbuf that is not in the bucket of its hash the walk along the
    chain runs into [NULL]. *)
Theorem dbuf_hash_remove_present (db : hashed_dbuf_t) (h : dbuf_hash_table_t) :
  hash_table_inv crc h →
  NoDup (hd_addr <$> concat (hash_table h)) →
  (db ∈ concat (hash_table h) →
   ∃ h',
     dbuf_hash_remove crc db h = Some h'
     ∧ (db ∉ concat (hash_table h'))
     ∧ (∀ x, x ∈ concat (hash_table h') ↔ x ∈ concat (hash_table h) ∧ x ≠ db)
     ∧ (db_state (hd_db db) = DB_EVICTING →
        ∀ os obj level blkid,
          dbuf_find crc os obj level blkid h' = dbuf_find crc os obj level blkid h))
  ∧ (hd_addr db ∉ hd_addr <$> concat (hash_table h) →
     dbuf_hash_remove crc db h = None).
Proof.
  intros Hinv Hnd. pose proof Hinv as ((k & Hk & Hmask & Hlen) & Hidx & Hcount).
  destruct (hash_bucket_inv crc h (DBUF_HASH crc (hd_objset db) (db_object (hd_db db))
              (db_level (hd_db db)) (db_blkid (hd_db db))) Hinv) as [chain Hchain].
  fold (hash_idx crc db h) in Hchain. unfold hash_bucket in Hchain.
  assert (∀ x, x ∈ chain → x ∈ concat (hash_table h)) as Hsub.
  { intros x Hx. apply elem_of_concat. exists chain. split; [done|].
    by eapply list_elem_of_lookup_2. }
  split.
  - intros Hdb. apply elem_of_concat in Hdb as (c & Hdbc & Hc).
    apply list_elem_of_lookup in Hc as [i Hi].
    pose proof (Hidx i c db Hi Hdbc) as Hi'. rewrite Hi', Nat2Z.id, Hi in Hchain.
    injection Hchain as ->.
    destruct (hash_chain_remove (hd_addr db) chain) as [chain'|] eqn:Hrem.
    2:{ apply hash_chain_remove_None in Hrem. exfalso. apply Hrem.
        by apply list_elem_of_fmap_2. }
    destruct (hash_chain_remove_Some _ _ _ Hrem) as (pre & x & post & -> & -> & Hx & Hpre).
    assert (x = db) as ->.
    { apply (hashed_addr_inj (concat (hash_table h))); [done| |by apply Hsub|done].
      apply Hsub. apply elem_of_app. right. by left. }
    assert (NoDup (hd_addr <$> pre ++ db :: post)) as Hndc.
    { apply (take_drop_middle _ _ _) in Hi as Hsplit. rewrite <- Hsplit in Hnd.
      rewrite concat_app, concat_cons in Hnd. rewrite 2!fmap_app in Hnd.
      apply NoDup_app in Hnd as (_ & _ & Hnd). by apply NoDup_app in Hnd as (? & _ & _). }
    assert (db ∉ pre ++ post) as Hnotin.
    { rewrite fmap_app, fmap_cons in Hndc. apply NoDup_app in Hndc as (_ & Hdis & Hnd2).
      apply NoDup_cons in Hnd2 as [Hpost _].
      intros [Hin|Hin]%elem_of_app.
      - apply (Hdis (hd_addr db)); [by apply list_elem_of_fmap_2|by left].
      - apply Hpost. by apply list_elem_of_fmap_2. }
    eexists. split.
    { unfold dbuf_hash_remove, hash_bucket. fold (hash_idx crc db h).
      rewrite Hi', Nat2Z.id, Hi. cbn [mbind option_bind]. rewrite Hrem. done. }
    cbn [hash_table].
    assert (∀ y, y ∈ concat (<[i := pre ++ post]> (hash_table h))
                 ↔ y ∈ concat (hash_table h) ∧ y ≠ db) as Hmem.
    { intros y. rewrite !elem_of_concat. split.
      - intros (c & Hyc & Hc). apply list_elem_of_lookup in Hc as [j Hj].
        destruct (decide (j = i)) as [->|Hne].
        + rewrite list_lookup_insert_eq in Hj by (by eapply lookup_lt_Some).
          injection Hj as <-. split.
          * exists (pre ++ db :: post). split; [|by eapply list_elem_of_lookup_2].
            apply elem_of_app in Hyc as [?|?]; apply elem_of_app; [by left|right; by right].
          * intros ->. done.
        + rewrite list_lookup_insert_ne in Hj by done. split.
          * exists c. split; [done|by eapply list_elem_of_lookup_2].
          * intros ->. pose proof (Hidx j c db Hj Hyc). lia.
      - intros ((c & Hyc & Hc) & Hne). apply list_elem_of_lookup in Hc as [j Hj].
        destruct (decide (j = i)) as [->|Hji].
        + rewrite Hi in Hj. injection Hj as <-. exists (pre ++ post). split.
          * apply elem_of_app in Hyc as [?|[->|?]%elem_of_cons]; [|done|];
              apply elem_of_app; [by left|by right].
          * apply list_elem_of_lookup. exists i.
            by rewrite list_lookup_insert_eq by (by eapply lookup_lt_Some).
        + exists c. split; [done|]. apply list_elem_of_lookup. exists j.
          by rewrite list_lookup_insert_ne. }
    split_and!.
    + intros Hin. apply Hmem in Hin. by destruct Hin.
    + exact Hmem.
    + intros Hev os obj level blkid. unfold dbuf_find, hash_bucket.
      cbn [hash_table hash_table_mask].
      set (j := Z.to_nat (Z.land (DBUF_HASH crc os obj level blkid) _)).
      destruct (decide (j = i)) as [->|Hne].
      * rewrite list_lookup_insert_eq by (by eapply lookup_lt_Some). rewrite Hi.
        cbn [mbind option_bind]. by rewrite hash_chain_find_evicting.
      * by rewrite list_lookup_insert_ne.
  - intros Hnot. unfold dbuf_hash_remove, hash_bucket. fold (hash_idx crc db h).
    rewrite Hchain. cbn [mbind option_bind].
    rewrite (proj2 (hash_chain_remove_None (hd_addr db) chain)); [done|].
    intros Hin. apply Hnot. apply list_elem_of_fmap in Hin as (x & -> & Hx).
    apply list_elem_of_fmap_2. by apply Hsub.
Qed.

End HashTableTheorems.

Section HashInit.
Context `{hdr : dbuf_headers}.

(** The first loop of [dbuf_init], from [hsize = 2 ^ k]. *)
Lemma dbuf_init_hsize_run (fuel : nat) :
  ∀ (k mem : Z),
    16 ≤ k ≤ 51 → mem ≤ 2 ^ 63 → 51 - k ≤ Z.of_nat fuel →
    ∃ k',
      dbuf_init_hsize fuel (2 ^ k) mem = Some (2 ^ k')
      ∧ k ≤ k' ≤ 51
      ∧ mem ≤ 2 ^ k' * 4096
      ∧ (k' = k ∨ 2 ^ (k' - 1) * 4096 < mem).
Proof.
  induction fuel as [|fuel IH]; intros k mem Hk Hmem Hfuel.
  - assert (k = 51) as -> by lia. exists 51. cbn [dbuf_init_hsize].
    change (2 ^ 51 * 4096) with (2 ^ 63).
    rewrite wrap_u64_small by lia.
    rewrite (proj2 (Z.ltb_ge _ _)) by lia.
    split; [done|]. split; [lia|]. split; [lia|]. by left.
  - assert (2 ^ k * 4096 = 2 ^ (k + 12)) as Hpow
      by (rewrite Z.pow_add_r by lia; reflexivity).
    assert (2 ^ (k + 12) ≤ 2 ^ 63) as Hle by (apply Z.pow_le_mono_r; lia).
    assert (0 < 2 ^ (k + 12)) as Hpos by (apply Z.pow_pos_nonneg; lia).
    cbn [dbuf_init_hsize]. rewrite wrap_u64_small by lia.
    destruct (Z.ltb_spec (2 ^ k * 4096) mem) as [Hlt|Hge].
    + assert (k < 51) as Hk51.
      { destruct (decide (k = 51)) as [->|]; [|lia]. exfalso.
        change (2 ^ 51 * 4096) with (2 ^ 63) in Hlt. lia. }
      rewrite Z.shiftl_mul_pow2 by lia. change (2 ^ 1) with 2.
      replace (2 ^ k * 2) with (2 ^ (k + 1))
        by (rewrite Z.pow_add_r by lia; reflexivity).
      assert (2 ^ (k + 1) ≤ 2 ^ 51) by (apply Z.pow_le_mono_r; lia).
      assert (0 < 2 ^ (k + 1)) by (apply Z.pow_pos_nonneg; lia).
      rewrite wrap_u64_small by lia.
      destruct (IH (k + 1) mem ltac:(lia) Hmem ltac:(lia)) as (k' & Hrun & Hk' & Hbig & Hmin).
      exists k'. split; [done|]. split; [lia|]. split; [done|].
      right. destruct Hmin as [->|?]; [|done]. by replace (k + 1 - 1) with k by lia.
    + exists k. split; [done|]. split; [lia|]. split; [lia|]. by left.
Qed.

(** The [retry] loop of [dbuf_init] halves [hsize] once per failure;
    below one bucket it stays at none. *)
Lemma dbuf_init_retry_total (failures : nat) :
  ∀ k, 0 ≤ k →
       dbuf_init_retry failures (2 ^ k)
       = if Z.of_nat failures <=? k then 2 ^ (k - Z.of_nat failures) else 0.
Proof.
  assert (Hzero : ∀ n, dbuf_init_retry n 0 = 0).
  { induction n as [|n IH]; [done|]. cbn [dbuf_init_retry]. by rewrite Z.shiftr_0_l. }
  induction failures as [|n IH]; intros k Hk; cbn [dbuf_init_retry].
  - rewrite (proj2 (Z.leb_le _ _)) by lia. f_equal. lia.
  - rewrite Z.shiftr_div_pow2 by lia. change (2 ^ 1) with 2.
    destruct (decide (k = 0)) as [->|Hk0].
    + change (2 ^ 0 / 2) with 0. rewrite Hzero.
      by rewrite (proj2 (Z.leb_gt _ _)) by lia.
    + replace (2 ^ k / 2) with (2 ^ (k - 1)).
      * rewrite IH by lia.
        destruct (Z.leb_spec (Z.of_nat n) (k - 1)), (Z.leb_spec (Z.of_nat (S n)) k);
          try lia. f_equal. lia.
      * replace k with (k - 1 + 1) at 2 by lia.
        rewrite Z.pow_add_r by lia. change (2 ^ 1) with 2. by rewrite Z.div_mul.
Qed.

Lemma concat_replicate_nil {A} (n : nat) : concat (replicate n (@nil A)) = [].
Proof. induction n as [|n IH]; [done|]. cbn. exact IH. Qed.

(** [dbuf_init] on a machine with at most [2 ^ 63] bytes of memory.
    The first size tried is the least power of two from [2 ^ 16] on
    that, times 4096, reaches the memory, [2 ^ k]; every failure of
    [kmem_zalloc] halves it.  After at most [k] failures the table has
    a power of two of buckets, all empty, and the mask is one less;
    with no dbuf counted it is as the hash functions want it.  After
    more failures than that [hsize] is 0: the table has no bucket and
    the mask is [hsize - 1], all ones.  (The assertion
    [hsize > (1ULL << 10)] is compiled into debug builds only.) *)
Theorem dbuf_init_table (crc : Z → Z) (physmem PAGESIZE : Z) (failures : nat)
    (h : dbuf_hash_table_t) :
  let mem := wrap_u64 (wrap_u64 physmem * PAGESIZE) in
  mem ≤ 2 ^ 63 →
  ∃ k h',
    dbuf_init physmem PAGESIZE failures 64 h = Some h'
    ∧ 16 ≤ k ≤ 51
    ∧ mem ≤ 2 ^ k * 4096
    ∧ (k = 16 ∨ 2 ^ (k - 1) * 4096 < mem)
    ∧ dbuf_hash_count h' = dbuf_hash_count h
    ∧ (if Z.of_nat failures <=? k
       then hash_table_mask h' = 2 ^ (k - Z.of_nat failures) - 1
            ∧ hash_table h' = replicate (Z.to_nat (2 ^ (k - Z.of_nat failures))) []
            ∧ (dbuf_hash_count h = 0 → hash_table_inv crc h')
       else hash_table_mask h' = 2 ^ 64 - 1 ∧ hash_table h' = []).
Proof.
  intros mem Hmem.
  destruct (dbuf_init_hsize_run 64 16 mem ltac:(lia) Hmem ltac:(lia))
    as (k & Hrun & Hk & Hbig & Hmin).
  exists k. eexists. split.
  { unfold dbuf_init. fold mem. change (Z.shiftl 1 16) with (2 ^ 16). rewrite Hrun.
    cbn [mbind option_bind]. rewrite dbuf_init_retry_total by lia. reflexivity. }
  cbn [hash_table_mask hash_table dbuf_hash_count].
  split; [done|]. split; [done|]. split; [done|]. split; [reflexivity|].
  destruct (Z.leb_spec (Z.of_nat failures) k) as [Hle|Hgt].
  - assert (0 < 2 ^ (k - Z.of_nat failures)) as Hpos by (apply Z.pow_pos_nonneg; lia).
    assert (2 ^ (k - Z.of_nat failures) ≤ 2 ^ 51) as Hle51
      by (apply Z.pow_le_mono_r; lia).
    rewrite wrap_u64_small by lia.
    split; [reflexivity|]. split; [reflexivity|].
    intros Hcount. split; [|split].
    + exists (k - Z.of_nat failures). cbn [hash_table_mask hash_table].
      split; [lia|]. split; [|by rewrite length_replicate].
      rewrite Z.ones_equiv. lia.
    + intros i chain db. cbn [hash_table]. intros [-> _]%lookup_replicate.
      by intros ?%elem_of_nil.
    + cbn [dbuf_hash_count hash_table]. by rewrite concat_replicate_nil, Hcount.
  - split; reflexivity.
Qed.

Lemma dbuf_init_hsize_spins (fuel : nat) :
  ∀ (hsize mem : Z),
    2 ^ 63 < mem →
    hsize = 0 ∨ (∃ k, 16 ≤ k ≤ 63 ∧ hsize = 2 ^ k) →
    dbuf_init_hsize fuel hsize mem = None.
Proof.
  induction fuel as [|fuel IH]; intros hsize mem Hmem Hsize.
  all: assert (wrap_u64 (hsize * 4096) < mem) as Hlt.
  1,3: destruct Hsize as [->|(k & Hk & ->)];
       [change (wrap_u64 (0 * 4096)) with 0; lia|];
       destruct (decide (k ≤ 51)) as [Hle|Hgt];
       [ assert (2 ^ k * 4096 = 2 ^ (k + 12)) as ->
           by (rewrite Z.pow_add_r by lia; reflexivity);
         assert (2 ^ (k + 12) ≤ 2 ^ 63) by (apply Z.pow_le_mono_r; lia);
         assert (0 < 2 ^ (k + 12)) by (apply Z.pow_pos_nonneg; lia);
         rewrite wrap_u64_small by lia; lia
       | unfold wrap_u64;
         replace (2 ^ k * 4096) with (2 ^ (k - 52) * 2 ^ 64)
           by (rewrite <- Z.pow_add_r by lia; change 4096 with (2 ^ 12);
               rewrite <- Z.pow_add_r by lia; f_equal; lia);
         rewrite Z.mod_mul by done; lia ].
  - cbn [dbuf_init_hsize]. by rewrite (proj2 (Z.ltb_lt _ _) Hlt).
  - cbn [dbuf_init_hsize]. rewrite (proj2 (Z.ltb_lt _ _) Hlt). apply IH; [done|].
    destruct Hsize as [->|(k & Hk & ->)]; [by left|].
    rewrite Z.shiftl_mul_pow2 by lia. change (2 ^ 1) with 2.
    replace (2 ^ k * 2) with (2 ^ (k + 1)) by (rewrite Z.pow_add_r by lia; reflexivity).
    destruct (decide (k = 63)) as [->|Hne].
    + left. reflexivity.
    + right. exists (k + 1). split; [lia|].
      assert (2 ^ (k + 1) ≤ 2 ^ 63) by (apply Z.pow_le_mono_r; lia).
      assert (0 < 2 ^ (k + 1)) by (apply Z.pow_pos_nonneg; lia).
      apply wrap_u64_small. lia.
Qed.

(** [dbuf_init] on a machine with more than [2 ^ 63] bytes of memory:
    [hsize * 4096] wraps to 0 before it reaches the memory, and the
    first loop does not end, however long it runs. *)
Theorem dbuf_init_huge_memory (physmem PAGESIZE : Z) (failures fuel : nat)
    (h : dbuf_hash_table_t) :
  2 ^ 63 < wrap_u64 (wrap_u64 physmem * PAGESIZE) →
  dbuf_init physmem PAGESIZE failures fuel h = None.
Proof.
  intros Hmem. unfold dbuf_init.
  rewrite dbuf_init_hsize_spins; [done|done|]. right. exists 16. split; [lia|done].
Qed.

End HashInit.

Lemma empty_hash_table_inv (crc : Z → Z) : hash_table_inv crc empty_hash_table.
Proof.
  split; [|split].
  - exists 2. by split_and!.
  - intros i chain db Hi Hdb. exfalso.
    do 4 (destruct i as [|i]; [injection Hi as <-; by apply elem_of_nil in Hdb|]).
    done.
  - reflexivity.
Qed.

Lemma one_hash_table_insert :
  dbuf_hash_insert example_crc64_table (example_hashed 7) empty_hash_table
  = Some (None, one_hash_table).
Proof. vm_compute. reflexivity. Qed.

Lemma one_hash_table_inv : hash_table_inv example_crc64_table one_hash_table.
Proof.
  eapply hash_table_inv_insert; [apply empty_hash_table_inv|].
  apply one_hash_table_insert.
Qed.

Lemma dbuf_hash_insert_find_witness :
  dbuf_find example_crc64_table 64 42 0 7 one_hash_table = Some (Some (example_hashed 7))
  ∧ dbuf_hash_count one_hash_table = 1.
Proof.
  destruct (dbuf_hash_insert_find example_crc64_table (example_hashed 7) empty_hash_table
              (empty_hash_table_inv _)) as (r & h' & Hrun & Hr).
  rewrite one_hash_table_insert in Hrun. injection Hrun as <- <-.
  destruct Hr as (_ & Hcount & Hfind). split; [exact Hfind|exact Hcount].
Defined.

Lemma dbuf_hash_insert_other_witness :
  dbuf_find example_crc64_table 64 42 0 8 one_hash_table = Some None.
Proof.
  rewrite (dbuf_hash_insert_other example_crc64_table (example_hashed 7)
             empty_hash_table one_hash_table 64 42 0 8).
  - reflexivity.
  - apply one_hash_table_insert.
  - reflexivity.
Defined.

Lemma dbuf_find_sound_complete_witness :
  ∃ r, dbuf_find example_crc64_table 64 42 0 7 one_hash_table = Some r
       ∧ match r with
         | Some db => db ∈ concat (hash_table one_hash_table)
         | None => True
         end.
Proof.
  destruct (dbuf_find_sound_complete example_crc64_table one_hash_table 64 42 0 7
              one_hash_table_inv) as (r & Hfind & Hr).
  exists r. split; [exact Hfind|]. destruct r as [db|]; [|done]. by destruct Hr.
Defined.

Lemma dbuf_hash_remove_insert_witness :
  dbuf_hash_remove example_crc64_table (example_hashed 7) one_hash_table
  = Some empty_hash_table.
Proof.
  apply dbuf_hash_remove_insert.
  - apply empty_hash_table_inv.
  - apply one_hash_table_insert.
Defined.

Lemma hash_table_inv_kept_witness :
  ∃ r h', dbuf_hash_insert example_crc64_table (example_hashed 8) one_hash_table
          = Some (r, h')
          ∧ hash_table_inv example_crc64_table h' ∧ hash_table_mask h' = 3.
Proof.
  destruct (dbuf_hash_insert example_crc64_table (example_hashed 8) one_hash_table)
    as [[r h']|] eqn:Hrun; [|vm_compute in Hrun; discriminate].
  exists r, h'. split; [reflexivity|].
  destruct (hash_table_inv_kept example_crc64_table (example_hashed 8) one_hash_table
              one_hash_table_inv) as [Hins _].
  destruct (Hins r h' Hrun) as (Hinv & Hmask & _). split; [exact Hinv|].
  rewrite Hmask. reflexivity.
Defined.

Lemma dbuf_hash_remove_present_witness :
  ∃ h', dbuf_hash_remove example_crc64_table (example_hashed 7) one_hash_table = Some h'
        ∧ example_hashed 7 ∉ concat (hash_table h').
Proof.
  destruct (dbuf_hash_remove_present example_crc64_table (example_hashed 7) one_hash_table
              one_hash_table_inv) as [Hpresent _].
  - vm_compute. apply NoDup_singleton.
  - destruct Hpresent as (h' & Hrun & Hnot & _).
    + vm_compute. apply list_elem_of_here.
    + exists h'. split; [exact Hrun|exact Hnot].
Defined.

(** A machine of [2 ^ 20] pages of 4096 bytes: the table has
    [2 ^ 20] buckets. *)
Lemma dbuf_init_table_witness :
  ∃ h', dbuf_init (2 ^ 20) 4096 0 64 empty_hash_table = Some h'
        ∧ hash_table_mask h' = 2 ^ 20 - 1
        ∧ hash_table_inv example_crc64_table h'.
Proof.
  destruct (dbuf_init_table example_crc64_table (2 ^ 20) 4096 0 empty_hash_table)
    as (k & h' & Hrun & Hk & Hbig & Hmin & _ & Hcase).
  - vm_compute. discriminate.
  - exists h'. split; [exact Hrun|].
    assert (k = 20) as ->.
    { change (wrap_u64 (wrap_u64 (2 ^ 20) * 4096)) with (2 ^ 32) in Hbig, Hmin.
      destruct (Z.lt_trichotomy k 20) as [Hlt|[->|Hgt]]; [|done|].
      + exfalso. assert (2 ^ k ≤ 2 ^ 19) by (apply Z.pow_le_mono_r; lia).
        change (2 ^ 32) with (2 ^ 19 * 8192) in Hbig. lia.
      + exfalso. destruct Hmin as [->|Hmin]; [lia|].
        assert (2 ^ 20 ≤ 2 ^ (k - 1)) by (apply Z.pow_le_mono_r; lia).
        change (2 ^ 32) with (2 ^ 20 * 4096) in Hmin. lia. }
    change (Z.of_nat 0 <=? 20) with true in Hcase. cbn iota in Hcase.
    destruct Hcase as (Hmask & _ & Hinv). split; [exact Hmask|]. by apply Hinv.
Defined.

(** A machine of [2 ^ 51 + 1] pages of 4096 bytes. *)
Lemma dbuf_init_huge_memory_witness :
  dbuf_init (2 ^ 51 + 1) 4096 0 100 empty_hash_table = None.
Proof. apply dbuf_init_huge_memory. vm_compute. reflexivity. Defined.

(** ** The dirty operations and the order of the records *)

(** *** Steps that keep the dirty records *)

Section Stable.
Context `{hdr : dbuf_headers}.
Variables (addrs : list nat) (txgs : list Z) (brk : nat).

Local Notation "'FR'" := (records_frame addrs txgs brk).

Lemma stable_ret {A} (a : A) : stable FR (ret a).
Proof. by intros w ? w' HS [= _ <-]. Qed.

Lemma stable_fail {A} (e : error) : stable FR (@fail A e).
Proof. by intros w ? w' HS. Qed.

Lemma stable_bind {A B} (m : M A) (k : A → M B) :
  stable FR m → (∀ a, stable FR (k a)) → stable FR (bind m k).
Proof.
  intros Hm Hk w b w' HS Hrun. apply bind_Ok in Hrun as (a & w1 & H1 & H2).
  eapply Hk; [|exact H2]. eapply Hm; [exact HS|exact H1].
Qed.

Lemma stable_when (b : bool) (m : M unit) : stable FR m → stable FR (when b m).
Proof. intros Hm. destruct b; [exact Hm|apply stable_ret]. Qed.

(** A step that leaves the dirty records where they are and does not
    lower the next free address. *)
Lemma stable_step {A} (m : M A) :
  (∀ w a w', m w = Ok a w' →
             db_dirty_records (w_db w') = db_dirty_records (w_db w)
             ∧ (w_brk w ≤ w_brk w')%nat) →
  stable FR m.
Proof.
  intros Hm w a w' (Ha & Ht & Hb) Hrun. destruct (Hm w a w' Hrun) as [Hl Hbrk].
  unfold records_frame. rewrite Hl. split_and!; [done|done|lia].
Qed.

Lemma stable_modify_dr (p : ptr) (f : dbuf_dirty_record_t → dbuf_dirty_record_t) :
  (∀ r, dr_addr (f r) = dr_addr r) → (∀ r, dr_txg (f r) = dr_txg r) →
  stable FR (modify_dr p f).
Proof.
  intros Hfa Hft w [] w' (Ha & Ht & Hb) Hrun. unfold modify_dr in Hrun.
  apply bind_Ok in Hrun as (r & w1 & Hget & Hrun).
  unfold get_dr, bind, deref in Hget. destruct p as [a|]; [|done].
  cbn in Hget. destruct (find_dr a w); [|done]. injection Hget as <- <-.
  cbn in Hrun. injection Hrun as <-. unfold records_frame, update_dr_world. cbn.
  rewrite update_dr_addr, update_dr_txg by done. done.
Qed.

End Stable.

(** Steps of the proof that a piece of code is [stable]. *)
Ltac stable_prim :=
  apply stable_step;
  let w := fresh "w" in let a := fresh "a" in let w' := fresh "w'" in
  let H := fresh "H" in
  intros w a w' H; cbv beta in H;
  repeat match type of H with
         | context [match ?x with _ => _ end] => destruct x eqn:?
         end;
  try discriminate;
  try (injection H as <- <-); try (injection H as <-);
  cbn; split; first [reflexivity | lia].

Ltac stable_one :=
  lazymatch goal with
  | |- stable _ (bind _ _) => apply stable_bind; [|intros ?]
  | |- stable _ (ret _) => apply stable_ret
  | |- stable _ skip => apply stable_ret
  | |- stable _ (fail _) => apply stable_fail
  | |- stable _ (when _ _) => apply stable_when
  | |- stable _ (modify_dr _ _) => apply stable_modify_dr; intros; reflexivity
  | |- stable _ (if ?b then _ else _) => destruct b
  | |- stable _ (match ?x with _ => _ end) => destruct x
  | |- stable _ _ => first [ solve [eauto with stable] | solve [stable_prim] ]
  end.

Ltac stable_auto := cbv zeta; repeat stable_one.

Create HintDb stable.


Tactic Notation "stable_def" reference(f) := unfold f; stable_auto.

Section StableSteps.
Context `{hdr : dbuf_headers}.
Variables (addrs : list nat) (txgs : list Z) (brk : nat).
Local Notation "'FR'" := (records_frame addrs txgs brk).

Lemma stable_get_db : stable FR get_db.
Proof. unfold get_db. stable_prim. Qed.
Lemma stable_get_world : stable FR get_world.
Proof. unfold get_world. stable_prim. Qed.
Lemma stable_emit e : stable FR (emit e).
Proof. unfold emit. stable_prim. Qed.
Lemma stable_deref {A} what (p : option A) : stable FR (deref what p).
Proof. unfold deref. destruct p; stable_auto. Qed.
Lemma stable_get_dr p : stable FR (get_dr p).
Proof.
  unfold get_dr. apply stable_bind; [apply stable_deref|]. intros a.
  apply stable_step. intros w r w' H. unfold deref in H.
  destruct (find_dr a w); [|done]. by injection H as <- <-.
Qed.
Lemma stable_modify_db (f : dmu_buf_impl_t → dmu_buf_impl_t) :
  (∀ db, db_dirty_records (f db) = db_dirty_records db) → stable FR (modify_db f).
Proof.
  intros Hf. apply stable_step. intros w [] w' [= <-]. cbn. by rewrite Hf.
Qed.
Lemma stable_modify_dn f : stable FR (modify_dn f).
Proof. unfold modify_dn. stable_prim. Qed.
#[local] Hint Resolve stable_get_db stable_get_world stable_emit stable_deref
  stable_get_dr stable_modify_dn : stable.
#[local] Hint Extern 1 (stable _ (modify_db _)) =>
  apply stable_modify_db; intros; reflexivity : stable.

Lemma stable_arc_buf_get b : stable FR (arc_buf_get b).
Proof. unfold arc_buf_get. stable_prim. Qed.
Lemma stable_arc_buf_put b a : stable FR (arc_buf_put b a).
Proof. unfold arc_buf_put. stable_prim. Qed.
#[local] Hint Resolve stable_arc_buf_get stable_arc_buf_put : stable.
Lemma stable_arc_buf_size b : stable FR (arc_buf_size b).
Proof. stable_def arc_buf_size. Qed.
Lemma stable_arc_released b : stable FR (arc_released b).
Proof. stable_def arc_released. Qed.
Lemma stable_arc_buf_alloc n : stable FR (arc_buf_alloc n).
Proof. unfold arc_buf_alloc. stable_prim. Qed.
#[local] Hint Resolve stable_arc_buf_size stable_arc_released stable_arc_buf_alloc : stable.
Lemma stable_arc_release p : stable FR (arc_release p).
Proof. stable_def arc_release. Qed.
Lemma stable_arc_buf_freeze p : stable FR (arc_buf_freeze p).
Proof. stable_def arc_buf_freeze. Qed.
Lemma stable_arc_buf_thaw p : stable FR (arc_buf_thaw p).
Proof. stable_def arc_buf_thaw. Qed.
Lemma stable_arc_discard_buf b : stable FR (arc_discard_buf b).
Proof. stable_def arc_discard_buf. Qed.
Lemma stable_arc_set_callback b : stable FR (arc_set_callback b).
Proof. stable_def arc_set_callback. Qed.
Lemma stable_arc_buf_remove_ref b : stable FR (arc_buf_remove_ref b).
Proof. stable_def arc_buf_remove_ref. Qed.
Lemma stable_memcpy d s n : stable FR (memcpy d s n).
Proof. stable_def memcpy. Qed.
#[local] Hint Resolve stable_arc_release stable_arc_buf_freeze stable_arc_buf_thaw
  stable_arc_discard_buf stable_arc_set_callback stable_arc_buf_remove_ref
  stable_memcpy : stable.
Lemma stable_bcopy s d n : stable FR (bcopy s d n).
Proof. stable_def bcopy. Qed.
Lemma stable_bzero d n : stable FR (bzero d n).
Proof. stable_def bzero. Qed.
Lemma stable_DBUF_STATE_CHANGE op st why : stable FR (DBUF_STATE_CHANGE op st why).
Proof. stable_def DBUF_STATE_CHANGE. Qed.
#[local] Hint Resolve stable_bcopy stable_bzero stable_DBUF_STATE_CHANGE : stable.

Lemma stable_dbuf_evict_user : stable FR dbuf_evict_user.
Proof. stable_def dbuf_evict_user. Qed.
#[local] Hint Resolve stable_dbuf_evict_user : stable.
Lemma stable_dbuf_clear_data : stable FR dbuf_clear_data.
Proof. stable_def dbuf_clear_data. Qed.
Lemma stable_dbuf_set_data p : stable FR (dbuf_set_data p).
Proof. stable_def dbuf_set_data. Qed.
Lemma stable_dbuf_alloc_arcbuf : stable FR dbuf_alloc_arcbuf.
Proof. stable_def dbuf_alloc_arcbuf. Qed.
#[local] Hint Resolve stable_dbuf_clear_data stable_dbuf_set_data
  stable_dbuf_alloc_arcbuf : stable.
Lemma stable_cleanup_ranges p : stable FR (dbuf_dirty_record_cleanup_ranges p).
Proof. stable_def dbuf_dirty_record_cleanup_ranges. Qed.
#[local] Hint Resolve stable_cleanup_ranges : stable.
Lemma stable_add_range p o n : stable FR (dbuf_dirty_record_add_range p o n).
Proof. stable_def dbuf_dirty_record_add_range. Qed.
#[local] Hint Resolve stable_add_range : stable.

Lemma stable_hole_itr_init dl src : stable FR (dbuf_dirty_record_hole_itr_init dl src).
Proof. stable_def dbuf_dirty_record_hole_itr_init. Qed.
Lemma stable_hole_itr_next itr : stable FR (dbuf_dirty_record_hole_itr_next itr).
Proof. stable_def dbuf_dirty_record_hole_itr_next. Qed.
Lemma stable_dbuf_syncer_split p b : stable FR (dbuf_syncer_split p b).
Proof. stable_def dbuf_syncer_split. Qed.
#[local] Hint Resolve stable_hole_itr_init stable_hole_itr_next
  stable_dbuf_syncer_split : stable.
Lemma stable_merge_write_ranges_loop fuel :
  ∀ itr, stable FR (merge_write_ranges_loop fuel itr).
Proof.
  induction fuel as [|fuel IH]; intros itr; cbn [merge_write_ranges_loop]; stable_auto.
  all: try apply IH.
Qed.
#[local] Hint Resolve stable_merge_write_ranges_loop : stable.
Lemma stable_dbuf_merge_write_ranges dl old : stable FR (dbuf_merge_write_ranges dl old).
Proof. stable_def dbuf_merge_write_ranges. Qed.
#[local] Hint Resolve stable_dbuf_merge_write_ranges : stable.
Lemma stable_resolve_ranges_loop drs :
  ∀ old, stable FR (resolve_ranges_loop drs old).
Proof.
  induction drs as [|a drs IH]; intros old; cbn [resolve_ranges_loop]; stable_auto.
  all: try apply IH.
Qed.
#[local] Hint Resolve stable_resolve_ranges_loop : stable.
Lemma stable_dbuf_resolve_ranges buf : stable FR (dbuf_resolve_ranges buf).
Proof. stable_def dbuf_resolve_ranges. Qed.
Lemma stable_dbuf_process_buf_sets err : stable FR (dbuf_process_buf_sets err).
Proof. stable_def dbuf_process_buf_sets. Qed.
Lemma stable_zio_nowait zio : stable FR (zio_nowait zio).
Proof. stable_def zio_nowait. Qed.
#[local] Hint Resolve stable_dbuf_resolve_ranges stable_dbuf_process_buf_sets
  stable_zio_nowait : stable.
Lemma stable_dbuf_dispatch_override_zio dr : stable FR (dbuf_dispatch_override_zio dr).
Proof. stable_def dbuf_dispatch_override_zio. Qed.
#[local] Hint Resolve stable_dbuf_dispatch_override_zio : stable.
Lemma stable_dbuf_read_complete buf h : stable FR (dbuf_read_complete buf h).
Proof. stable_def dbuf_read_complete. Qed.
Lemma stable_dbuf_add_ref : stable FR dbuf_add_ref.
Proof. stable_def dbuf_add_ref. Qed.
Lemma stable_dbuf_destroy : stable FR dbuf_destroy.
Proof. stable_def dbuf_destroy. Qed.
Lemma stable_dbuf_clear : stable FR dbuf_clear.
Proof. stable_def dbuf_clear. Qed.
#[local] Hint Resolve stable_dbuf_read_complete stable_dbuf_add_ref stable_dbuf_destroy
  stable_dbuf_clear : stable.
Lemma stable_dbuf_evict : stable FR dbuf_evict.
Proof. stable_def dbuf_evict. Qed.
#[local] Hint Resolve stable_dbuf_evict : stable.
Lemma stable_dbuf_rele_and_unlock : stable FR dbuf_rele_and_unlock.
Proof. stable_def dbuf_rele_and_unlock. Qed.
Lemma stable_atomic_add d : stable FR (atomic_add_64_dirty_writes_lost d).
Proof. unfold atomic_add_64_dirty_writes_lost. stable_prim. Qed.
#[local] Hint Resolve stable_dbuf_rele_and_unlock stable_atomic_add : stable.
Lemma stable_dbuf_read_done zio buf : stable FR (dbuf_read_done zio buf).
Proof. stable_def dbuf_read_done. Qed.
Lemma stable_zio_buf_alloc n : stable FR (zio_buf_alloc n).
Proof. stable_def zio_buf_alloc. Qed.
#[local] Hint Resolve stable_dbuf_read_done stable_zio_buf_alloc : stable.
Lemma stable_dbuf_read_bonus : stable FR dbuf_read_bonus.
Proof. stable_def dbuf_read_bonus. Qed.
Lemma stable_BP_IS_HOLE bp : stable FR (BP_IS_HOLE bp).
Proof. stable_def BP_IS_HOLE. Qed.
#[local] Hint Resolve stable_dbuf_read_bonus stable_BP_IS_HOLE : stable.
Lemma stable_dbuf_read_hole : stable FR dbuf_read_hole.
Proof. stable_def dbuf_read_hole. Qed.
Lemma stable_dbuf_read_cached_done buf : stable FR (dbuf_read_cached_done buf).
Proof. stable_def dbuf_read_cached_done. Qed.
Lemma stable_arc_read zio done co :
  (∀ z b, stable FR (done z b)) → stable FR (arc_read zio done co).
Proof. intros Hdone. stable_def arc_read. Qed.
#[local] Hint Resolve stable_dbuf_read_hole stable_dbuf_read_cached_done : stable.
Lemma stable_dbuf_read_impl zio flags : stable FR (dbuf_read_impl zio flags).
Proof.
  unfold dbuf_read_impl. stable_auto.
  all: apply stable_arc_read; intros; eauto with stable.
Qed.
#[local] Hint Resolve stable_dbuf_read_impl : stable.
Lemma stable_dbuf_read_cached : stable FR dbuf_read_cached.
Proof. stable_def dbuf_read_cached. Qed.
Lemma stable_zio_root : stable FR zio_root.
Proof. unfold zio_root. stable_prim. Qed.
Lemma stable_zio_wait zio : stable FR (zio_wait zio).
Proof. stable_def zio_wait. Qed.
#[local] Hint Resolve stable_dbuf_read_cached stable_zio_root stable_zio_wait : stable.
Lemma stable_dbuf_read zio flags : stable FR (dbuf_read zio flags).
Proof. stable_def dbuf_read. Qed.
Lemma stable_dbuf_unoverride dr : stable FR (dbuf_unoverride dr).
Proof. stable_def dbuf_unoverride. Qed.
#[local] Hint Resolve stable_dbuf_read stable_dbuf_unoverride : stable.
Lemma stable_dbuf_dirty_parent dds : stable FR (dbuf_dirty_parent dds).
Proof. stable_def dbuf_dirty_parent. Qed.
#[local] Hint Resolve stable_dbuf_dirty_parent : stable.
Lemma stable_dbuf_dirty_exit dds : stable FR (dbuf_dirty_exit dds).
Proof. stable_def dbuf_dirty_exit. Qed.
Lemma stable_dbuf_dirty_set_data dds : stable FR (dbuf_dirty_set_data dds).
Proof. stable_def dbuf_dirty_set_data. Qed.
#[local] Hint Resolve stable_dbuf_dirty_exit stable_dbuf_dirty_set_data : stable.
Lemma stable_with_existing_frontend dds :
  stable FR (dbuf_dirty_leaf_with_existing_frontend dds).
Proof. stable_def dbuf_dirty_leaf_with_existing_frontend. Qed.
Lemma stable_update_leaf dds : stable FR (dbuf_dirty_record_update_leaf dds).
Proof. stable_def dbuf_dirty_record_update_leaf. Qed.
Lemma stable_dbuf_transition_to_read : stable FR dbuf_transition_to_read.
Proof. stable_def dbuf_transition_to_read. Qed.
#[local] Hint Resolve stable_with_existing_frontend stable_update_leaf
  stable_dbuf_transition_to_read : stable.
Lemma stable_dbuf_dirty_handle_fault dds : stable FR (dbuf_dirty_handle_fault dds).
Proof. stable_def dbuf_dirty_handle_fault. Qed.
Lemma stable_dbuf_dirty_compute_state dds : stable FR (dbuf_dirty_compute_state dds).
Proof. stable_def dbuf_dirty_compute_state. Qed.

End StableSteps.

#[global] Hint Resolve stable_get_db stable_get_world stable_emit stable_deref
  stable_get_dr stable_modify_dn stable_DBUF_STATE_CHANGE stable_dbuf_clear_data
  stable_dbuf_set_data stable_dbuf_alloc_arcbuf stable_add_range stable_dbuf_unoverride
  stable_dbuf_dirty_exit stable_dbuf_dirty_set_data stable_with_existing_frontend
  stable_update_leaf stable_dbuf_dirty_handle_fault stable_dbuf_dirty_compute_state
  stable_ret stable_zio_buf_alloc stable_bcopy : stable.
#[global] Hint Extern 1 (stable _ (modify_db _)) =>
  apply stable_modify_db; intros; reflexivity : stable.

(** *** The place of the record *)

Section InsertionPoint.
Context `{hdr : dbuf_headers}.







End InsertionPoint.

Section Placement.
Context `{hdr : dbuf_headers}.







End Placement.

Section PlacementRun.
Context `{hdr : dbuf_headers}.


End PlacementRun.

(** *** The dirty operations, when they return *)

Section DirtyPlaced.
Context `{hdr : dbuf_headers}.













End DirtyPlaced.

(** *** The dirty operations return *)

Section Returns.
Context `{hdr : dbuf_headers}.







End Returns.

Section Buffers.
Context `{hdr : dbuf_headers}.



Lemma arc_step_trans (n : Z) (w1 w2 w3 : world) :
  arc_step n w1 w2 → arc_step n w2 w3 → arc_step n w1 w3.
Proof.
  intros (Hd & Hk & Hb) (Hd' & Hk' & Hb'). split_and!; [congruence|congruence|auto].
Qed.




Lemma dbuf_set_data_ok (n : Z) (b : nat) (w : world) :
  buf_has n w b → returns (dbuf_set_data (Some b)) w.
Proof.
  intros (a & Ha & _). eexists _, _. by apply (dbuf_set_data_run b a w Ha).
Qed.




End Buffers.

Section ReturnsNofill.
Context `{hdr : dbuf_headers}.






End ReturnsNofill.

Section ReturnsFrontend.
Context `{hdr : dbuf_headers}.







End ReturnsFrontend.

Section ReturnsLeafCommon.
Context `{hdr : dbuf_headers}.




End ReturnsLeafCommon.

Section ReturnsLeaf.
Context `{hdr : dbuf_headers}.






End ReturnsLeaf.

Section DirtyOrderClaim.
Context `{hdr : dbuf_headers}.


End DirtyOrderClaim.


